(** * AI-Docs-Copilot: the crawl-and-extract pipeline of [parsing/]

    A shallow embedding of [parsing/BaseParsing.py] and
    [parsing/astro/AstroParsing.py] (the VuePress parser has the same crawl
    code and differs only in its selectors).

    Python [str] values are modelled by [string]; a character is a code
    point below 256, so the development covers Latin-1 text.  The library
    functions the program calls ([str] methods, [re.sub], [urllib.parse])
    are embedded next to the program, following CPython 3.11; the HTML
    parser, the HTML-to-Markdown converter and the HTTP client are taken as
    parameters of the sections that need them. *)

From Stdlib Require Import Ascii String NArith Bool List Lia Arith.
From stdpp Require Import base gmap sets list strings relations.

Local Open Scope string_scope.
Local Set Warnings "-register-all".
Local Set Warnings "-clear-no-such-hyp".

(* ===================================================================== *)
(** ** Python [str] methods used by the program *)
(* ===================================================================== *)

Module PyStr.

Definition code (c : ascii) : N := N_of_ascii c.

Definition in_range (lo hi : N) (c : ascii) : bool :=
  ((lo <=? code c) && (code c <=? hi))%N.

(** Named characters that cannot be written inside a literal. *)
Definition LF : ascii := "010"%char.
Definition TAB : ascii := "009"%char.
Definition CR : ascii := "013"%char.
Definition DQUOTE : ascii := "034"%char.
Definition nl : string := String LF "".

(** [c in s] for a one-character [c]. *)
Fixpoint contains (c : ascii) (s : string) : bool :=
  match s with
  | "" => false
  | String d s' => Ascii.eqb c d || contains c s'
  end.

(** [s.startswith(p)]. *)
Fixpoint startswith (p s : string) : bool :=
  match p, s with
  | "", _ => true
  | String a p', String b s' => Ascii.eqb a b && startswith p' s'
  | String _ _, "" => false
  end.

(** [s[n:]] and [s[:n]]. *)
Fixpoint drop (n : nat) (s : string) : string :=
  match n, s with
  | O, _ => s
  | S n', String _ s' => drop n' s'
  | S _, "" => ""
  end.

Fixpoint take (n : nat) (s : string) : string :=
  match n, s with
  | O, _ => ""
  | S n', String c s' => String c (take n' s')
  | S _, "" => ""
  end.

(** [s.find(c)]; [None] stands for [-1]. *)
Fixpoint find (c : ascii) (s : string) : option nat :=
  match s with
  | "" => None
  | String d s' => if Ascii.eqb c d then Some O else S <$> find c s'
  end.

(** [s.rfind(c)]. *)
Fixpoint rfind (c : ascii) (s : string) : option nat :=
  match s with
  | "" => None
  | String d s' =>
      match rfind c s' with
      | Some i => Some (S i)
      | None => if Ascii.eqb c d then Some O else None
      end
  end.

(** [s.find(c, start)]. *)
Definition find_from (c : ascii) (start : nat) (s : string) : option nat :=
  (fun i => start + i) <$> find c (drop start s).

(** [s.lstrip(chars)], [s.rstrip(chars)], [s.strip(chars)], the set of
    characters given as a predicate. *)
Fixpoint lstrip (p : ascii → bool) (s : string) : string :=
  match s with
  | "" => ""
  | String c s' => if p c then lstrip p s' else s
  end.

Fixpoint rstrip (p : ascii → bool) (s : string) : string :=
  match s with
  | "" => ""
  | String c s' =>
      match rstrip p s' with
      | "" => if p c then "" else String c ""
      | r => String c r
      end
  end.

Definition strip (p : ascii → bool) (s : string) : string :=
  rstrip p (lstrip p s).

Definition is_slash (c : ascii) : bool := Ascii.eqb c "/".

(** [str.isspace] on one character, also the class [\s] of [re]. *)
Definition isspace (c : ascii) : bool :=
  in_range 9 13 c || in_range 28 32 c
  || N.eqb (code c) 133 || N.eqb (code c) 160.

(** [s.strip()] with no argument. *)
Definition strip_ws (s : string) : string := strip isspace s.

(** [s.replace(old, new)]: occurrences are found left to right and do not
    overlap.  [skip] counts the characters of the occurrence being
    replaced that are still to be passed over. *)
Fixpoint replace_from (old new s : string) (skip : nat) : string :=
  match s with
  | "" => ""
  | String c s' =>
      match skip with
      | S n => replace_from old new s' n
      | O =>
          if startswith old s
          then new ++ replace_from old new s' (String.length old - 1)
          else String c (replace_from old new s' 0)
      end
  end.

(** With an empty [old], Python inserts [new] before every character and
    at the end. *)
Fixpoint intersperse (new s : string) : string :=
  match s with
  | "" => new
  | String c s' => new ++ String c (intersperse new s')
  end.

Definition replace (old new s : string) : string :=
  match old with
  | "" => intersperse new s
  | _ => replace_from old new s 0
  end.

(** [s.split(c, 1)] when [c in s]: the text before and after the first
    [c]. *)
Definition split1 (c : ascii) (s : string) : string * string :=
  match find c s with
  | Some i => (take i s, drop (S i) s)
  | None => (s, "")
  end.

(** [s.lower()]. *)
Definition lower_char (c : ascii) : ascii :=
  if in_range 65 90 c || in_range 192 214 c || in_range 216 222 c
  then ascii_of_N (code c + 32) else c.

Fixpoint lower (s : string) : string :=
  match s with
  | "" => ""
  | String c s' => String (lower_char c) (lower s')
  end.

Fixpoint all_chars (p : ascii → bool) (s : string) : bool :=
  match s with
  | "" => true
  | String c s' => p c && all_chars p s'
  end.

(** [sep.join(parts)]. *)
Fixpoint join (sep : string) (parts : list string) : string :=
  match parts with
  | [] => ""
  | [x] => x
  | x :: rest => x ++ sep ++ join sep rest
  end.

(** [s.split(c)]. *)
Fixpoint split (c : ascii) (s : string) : list string :=
  match s with
  | "" => [""]
  | String d s' =>
      if Ascii.eqb c d then "" :: split c s'
      else match split c s' with
           | x :: rest => String d x :: rest
           | [] => [String d ""]
           end
  end.

End PyStr.

(* ===================================================================== *)
(** ** The fragment of Python's [re] used by the program *)
(* ===================================================================== *)

Module Re.
Import PyStr.

(** Every repetition in the program's patterns is over a one-character
    class ([\s*], [\w+], [.*?], [.*], [[#]+], [\n{3,}]), so repetition
    takes a class rather than a regex. *)
Inductive regex : Type :=
| Eps                                               (* the empty pattern *)
| Lit (c : ascii)                                   (* a literal character *)
| Class (p : ascii → bool)                          (* [...], \s, \w, . *)
| Cat (r1 r2 : regex)                               (* r1 r2 *)
| Rep (least : nat) (greedy : bool) (p : ascii → bool)  (* p{least,} *)
| Opt (r : regex)                                   (* r? *)
| Group (n : nat) (r : regex).                      (* (r), the n-th group *)

Definition captures := list (nat * string).

Fixpoint group (n : nat) (caps : captures) : option string :=
  match caps with
  | [] => None
  | (m, s) :: rest => if Nat.eqb n m then Some s else group n rest
  end.

Section Matcher.
Context {R : Type}.

(** [p*] and [p*?] followed by the continuation [k], with backtracking:
    the greedy form tries the longest run first, the lazy form the
    shortest. *)
Fixpoint star (greedy : bool) (p : ascii → bool) (s : string)
    (k : string → option R) : option R :=
  match s with
  | String c s' =>
      if p c then
        if greedy then
          match star greedy p s' k with
          | Some r => Some r
          | None => k s
          end
        else
          match k s with
          | Some r => Some r
          | None => star greedy p s' k
          end
      else k s
  | "" => k s
  end.

Fixpoint rep (least : nat) (greedy : bool) (p : ascii → bool) (s : string)
    (k : string → option R) : option R :=
  match least with
  | O => star greedy p s k
  | S n =>
      match s with
      | String c s' => if p c then rep n greedy p s' k else None
      | "" => None
      end
  end.

(** The backtracking matcher: [exec r s caps k] matches [r] at the head
    of [s] and hands the rest of the text and the groups to [k]; when
    [k] fails the next alternative of [r] is tried. *)
Fixpoint exec (r : regex) (s : string) (caps : captures)
    (k : string → captures → option R) : option R :=
  match r with
  | Eps => k s caps
  | Lit c =>
      match s with
      | String d s' => if Ascii.eqb c d then k s' caps else None
      | "" => None
      end
  | Class p =>
      match s with
      | String d s' => if p d then k s' caps else None
      | "" => None
      end
  | Cat r1 r2 => exec r1 s caps (λ s1 caps1, exec r2 s1 caps1 k)
  | Rep least greedy p => rep least greedy p s (λ s1, k s1 caps)
  | Opt r1 =>
      match exec r1 s caps k with
      | Some x => Some x
      | None => k s caps
      end
  | Group n r1 =>
      exec r1 s caps
        (λ s1 caps1,
           k s1 ((n, take (String.length s - String.length s1) s) :: caps1))
  end.
End Matcher.

(** A match at the head of [s]: its length and its groups. *)
Definition match_at (r : regex) (s : string) : option (nat * captures) :=
  exec r s [] (λ s1 caps, Some (String.length s - String.length s1, caps)).

(** Replacement templates: literal text and group references [\n]; a
    group that did not take part in the match expands to the empty
    string. *)
Inductive piece : Type :=
| Text (s : string)
| Ref (n : nat).

Fixpoint expand (tpl : list piece) (caps : captures) : string :=
  match tpl with
  | [] => ""
  | Text s :: rest => s ++ expand rest caps
  | Ref n :: rest => default "" (group n caps) ++ expand rest caps
  end.

(** [re.sub(r, tpl, s)]: scan left to right, at each position take the
    match the backtracking search finds first, replace it and go on after
    it.  [skip] counts the characters of the current match still to be
    passed over.  None of the program's patterns matches the empty
    string; for such a match the replacement is emitted and the scan moves
    one character on. *)
Fixpoint sub_from (r : regex) (tpl : list piece) (s : string) (skip : nat)
    : string :=
  match s with
  | "" =>
      match skip, match_at r "" with
      | O, Some (_, caps) => expand tpl caps
      | _, _ => ""
      end
  | String c s' =>
      match skip with
      | S n => sub_from r tpl s' n
      | O =>
          match match_at r s with
          | Some (O, caps) => expand tpl caps ++ String c (sub_from r tpl s' 0)
          | Some (S n, caps) => expand tpl caps ++ sub_from r tpl s' n
          | None => String c (sub_from r tpl s' 0)
          end
      end
  end.

Definition sub (r : regex) (tpl : list piece) (s : string) : string :=
  sub_from r tpl s 0.

(** Character classes. *)
Definition ws : ascii → bool := isspace.                       (* \s *)
Definition word (c : ascii) : bool :=                          (* \w *)
  in_range 48 57 c || in_range 65 90 c || Ascii.eqb c "_"
  || in_range 97 122 c || N.eqb (code c) 170 || in_range 178 179 c
  || N.eqb (code c) 181 || in_range 185 186 c || in_range 188 190 c
  || in_range 192 214 c || in_range 216 246 c || in_range 248 255 c.
Definition dot (c : ascii) : bool := negb (Ascii.eqb c LF).    (* . *)
Definition one_of (set : string) (c : ascii) : bool := contains c set.
Definition none_of (set : string) (c : ascii) : bool := negb (contains c set).

(** A literal string as a pattern, and the concatenation of a list of
    patterns. *)
Fixpoint lits (s : string) : regex :=
  match s with
  | "" => Eps
  | String c s' => Cat (Lit c) (lits s')
  end.

Fixpoint seq (rs : list regex) : regex :=
  match rs with
  | [] => Eps
  | r :: rest => Cat r (seq rest)
  end.

Definition is_char (c d : ascii) : bool := Ascii.eqb c d.

End Re.

(* ===================================================================== *)
(** ** [urllib.parse]: [urlsplit], [urlparse], [urlunparse], [urljoin] *)
(* ===================================================================== *)

(** The splitting and joining of URLs as CPython 3.11 does it.  The
    library raises [ValueError] for a host with unbalanced or ill-formed
    brackets and for a host that changes under NFKC normalisation; these
    checks read no component, so the functions below describe the result
    on every URL the library accepts, and the module [Checked] further
    down adds the checks. *)
Module UrlParse.
Import PyStr.

Definition uses_params : list string :=
  [""; "ftp"; "hdl"; "prospero"; "http"; "imap"; "https"; "shttp"; "rtsp";
   "rtspu"; "sip"; "sips"; "mms"; "sftp"; "tel"].

Definition uses_netloc : list string :=
  [""; "ftp"; "http"; "gopher"; "nntp"; "telnet"; "imap"; "wais"; "file";
   "mms"; "https"; "shttp"; "snews"; "prospero"; "rtsp"; "rtspu"; "rsync";
   "svn"; "svn+ssh"; "sftp"; "nfs"; "git"; "git+ssh"; "ws"; "wss"].

Definition uses_relative : list string :=
  [""; "ftp"; "http"; "gopher"; "nntp"; "imap"; "wais"; "file"; "https";
   "shttp"; "mms"; "prospero"; "rtsp"; "rtspu"; "sftp"; "svn"; "svn+ssh";
   "ws"; "wss"].

Definition mem (s : string) (l : list string) : bool :=
  existsb (String.eqb s) l.

Definition scheme_chars (c : ascii) : bool :=
  in_range 97 122 c || in_range 65 90 c || in_range 48 57 c
  || contains c "+-.".

Definition is_ascii_alpha (c : ascii) : bool :=
  in_range 65 90 c || in_range 97 122 c.

Definition C0_CONTROL_OR_SPACE (c : ascii) : bool := in_range 0 32 c.

(** [for b in _UNSAFE_URL_BYTES_TO_REMOVE: url = url.replace(b, "")]. *)
Definition remove_unsafe (s : string) : string :=
  replace (String LF "") "" (replace (String CR "") ""
    (replace (String TAB "") "" s)).

Record SplitResult : Type := mkSplit {
  s_scheme : string; s_netloc : string; s_path : string;
  s_query : string; s_fragment : string }.

Record ParseResult : Type := mkParse {
  scheme : string; netloc : string; path : string;
  params : string; query : string; fragment : string }.

Definition min_delim (delim : nat) (w : option nat) : nat :=
  match w with
  | Some i => Nat.min delim i
  | None => delim
  end.

Definition _splitnetloc (url : string) (start : nat) : string * string :=
  let delim := String.length url in
  let delim := min_delim delim (find_from "/" start url) in
  let delim := min_delim delim (find_from "?" start url) in
  let delim := min_delim delim (find_from "#" start url) in
  (take (delim - start) (drop start url), drop delim url).

Definition urlsplit (url : string) (scheme : string) : SplitResult :=
  let url := lstrip C0_CONTROL_OR_SPACE url in
  let scheme := strip C0_CONTROL_OR_SPACE scheme in
  let url := remove_unsafe url in
  let scheme := remove_unsafe scheme in
  let '(scheme, url) :=
    match find ":" url, url with
    | Some (S i), String c0 _ =>
        if is_ascii_alpha c0 && all_chars scheme_chars (take (S i) url)
        then (lower (take (S i) url), drop (S (S i)) url)
        else (scheme, url)
    | _, _ => (scheme, url)
    end in
  let '(netloc, url) :=
    if startswith "//" url then _splitnetloc url 2 else ("", url) in
  let '(url, fragment) :=
    if contains "#" url then split1 "#" url else (url, "") in
  let '(url, query) :=
    if contains "?" url then split1 "?" url else (url, "") in
  mkSplit scheme netloc url query fragment.

Definition _splitparams (url : string) : string * string :=
  if contains "/" url then
    match find_from ";" (default 0 (rfind "/" url)) url with
    | None => (url, "")
    | Some i => (take i url, drop (S i) url)
    end
  else
    match find ";" url with
    | Some i => (take i url, drop (S i) url)
    | None => (take (String.length url - 1) url, url)
    end.

Definition urlparse_with (url : string) (scheme : string) : ParseResult :=
  let r := urlsplit url scheme in
  let '(url, params) :=
    if mem (s_scheme r) uses_params && contains ";" (s_path r)
    then _splitparams (s_path r) else (s_path r, "") in
  mkParse (s_scheme r) (s_netloc r) url params (s_query r) (s_fragment r).

Definition urlparse (url : string) : ParseResult := urlparse_with url "".

Definition nonempty (s : string) : bool :=
  match s with "" => false | _ => true end.

Definition urlunsplit (scheme netloc url query fragment : string) : string :=
  let url :=
    if nonempty netloc
       || (nonempty scheme && mem scheme uses_netloc
           && negb (String.eqb (take 2 url) "//"))
    then
      let url :=
        if nonempty url && negb (String.eqb (take 1 url) "/")
        then "/" ++ url else url in
      "//" ++ netloc ++ url
    else url in
  let url := if nonempty scheme then scheme ++ ":" ++ url else url in
  let url := if nonempty query then url ++ "?" ++ query else url in
  let url := if nonempty fragment then url ++ "#" ++ fragment else url in
  url.

Definition urlunparse (scheme netloc url params query fragment : string)
    : string :=
  let url := if nonempty params then url ++ ";" ++ params else url in
  urlunsplit scheme netloc url query fragment.

End UrlParse.

Module UrlJoin.
Import PyStr UrlParse.

(** [segments[1:-1] = filter(None, segments[1:-1])]: empty segments are
    dropped except in first and last place. *)
Fixpoint drop_empty_inner (l : list string) : list string :=
  match l with
  | [] => []
  | [x] => [x]
  | x :: rest => if nonempty x then x :: drop_empty_inner rest
                 else drop_empty_inner rest
  end.

Definition filter_inner (l : list string) : list string :=
  match l with
  | [] => []
  | x :: rest => x :: drop_empty_inner rest
  end.

(** The loop over the segments; [resolved] is kept in reverse. *)
Fixpoint resolve (segments : list string) (resolved : list string)
    : list string :=
  match segments with
  | [] => rev resolved
  | seg :: rest =>
      if String.eqb seg ".." then resolve rest (tail resolved)
      else if String.eqb seg "." then resolve rest resolved
      else resolve rest (seg :: resolved)
  end.

Definition urljoin (base url : string) : string :=
  if negb (nonempty base) then url
  else if negb (nonempty url) then base
  else
    let b := urlparse_with base "" in
    let u := urlparse_with url (scheme b) in
    if negb (String.eqb (scheme u) (scheme b))
       || negb (mem (scheme u) uses_relative)
    then url
    else if mem (scheme u) uses_netloc && nonempty (netloc u)
    then urlunparse (scheme u) (netloc u) (path u) (params u) (query u)
           (fragment u)
    else
      let netloc := if mem (scheme u) uses_netloc then netloc b
                    else netloc u in
      if negb (nonempty (path u)) && negb (nonempty (params u))
      then
        urlunparse (scheme u) netloc (path b) (params b)
          (if nonempty (query u) then query u else query b) (fragment u)
      else
        let base_parts := split "/" (path b) in
        let base_parts :=
          if nonempty (List.last base_parts "")
          then removelast base_parts else base_parts in
        let segments :=
          if String.eqb (take 1 (path u)) "/" then split "/" (path u)
          else filter_inner (base_parts ++ split "/" (path u))%list in
        let resolved := resolve segments [] in
        let resolved :=
          if String.eqb (List.last segments "") "."
             || String.eqb (List.last segments "") ".."
          then (resolved ++ [""])%list else resolved in
        let joined := join "/" resolved in
        urlunparse (scheme u) netloc
          (if nonempty joined then joined else "/")
          (params u) (query u) (fragment u).

End UrlJoin.

(* ===================================================================== *)
(** ** The document tree of [bs4] *)
(* ===================================================================== *)

Module Soup.
Import PyStr.

(** A parsed document: text nodes and tags with their attributes in
    source order.  The [BeautifulSoup] object itself is the tag named
    [[document]] at the root. *)
Inductive node : Type :=
| NavigableString (s : string)
| Tag (name : string) (attrs : list (string * string)) (contents : list node).

Definition name_of (n : node) : option string :=
  match n with
  | NavigableString _ => None
  | Tag name _ _ => Some name
  end.

Definition contents_of (n : node) : list node :=
  match n with
  | NavigableString _ => []
  | Tag _ _ cs => cs
  end.

(** [tag.get(key)]. *)
Fixpoint lookup_attr (key : string) (attrs : list (string * string))
    : option string :=
  match attrs with
  | [] => None
  | (k, v) :: rest => if String.eqb k key then Some v else lookup_attr key rest
  end.

Definition get (key : string) (n : node) : option string :=
  match n with
  | NavigableString _ => None
  | Tag _ attrs _ => lookup_attr key attrs
  end.

(** [del tag[key]]. *)
Definition del_attr (key : string) (attrs : list (string * string))
    : list (string * string) :=
  List.filter (λ kv, negb (String.eqb (fst kv) key)) attrs.

(** The values of a [class] attribute: its maximal runs of characters
    that are not white space. *)
Fixpoint words_from (s : string) (cur : string) : list string :=
  match s with
  | "" => if UrlParse.nonempty cur then [cur] else []
  | String c s' =>
      if isspace c
      then if UrlParse.nonempty cur then cur :: words_from s' ""
           else words_from s' ""
      else words_from s' (cur ++ String c "")
  end.

Definition classes (n : node) : list string :=
  match get "class" n with
  | Some v => words_from v ""
  | None => []
  end.

Definition has_class (cls : string) (n : node) : bool :=
  existsb (String.eqb cls) (classes n).

Definition is_tag (name : string) (n : node) : bool :=
  match name_of n with
  | Some m => String.eqb m name
  | None => false
  end.

Definition has_attr (key : string) (n : node) : bool :=
  match get key n with Some _ => true | None => false end.

Definition attr_is (key value : string) (n : node) : bool :=
  match get key n with Some v => String.eqb v value | None => false end.

(** The descendants of a node in document order. *)
Fixpoint descendants (n : node) : list node :=
  match n with
  | NavigableString _ => []
  | Tag _ _ cs => flat_map (λ c, c :: descendants c) cs
  end.

(** [tag.find_all(...)] and [tag.find(...)] for a test on nodes. *)
Definition find_all (p : node → bool) (n : node) : list node :=
  List.filter p (descendants n).

Definition find (p : node → bool) (n : node) : option node :=
  head (find_all p n).

(** [a or b] on the results of [find]: a tag is always true. *)
Definition or_else (a b : option node) : option node :=
  match a with Some _ => a | None => b end.

(** [tag.text]: the text nodes below the tag, concatenated. *)
Fixpoint text (n : node) : string :=
  match n with
  | NavigableString s => s
  | Tag _ _ cs => String.concat "" (map text cs)
  end.

(** [tag.string]: the only text below a chain of only children. *)
Fixpoint string_of (n : node) : option string :=
  match n with
  | NavigableString s => Some s
  | Tag _ _ cs =>
      match cs with
      | [c] => string_of c
      | _ => None
      end
  end.

(** [for element in tag.select(sel): element.decompose()] for a selector
    that is a test on single nodes: every matching descendant goes, with
    all below it. *)
Fixpoint decompose_all (p : node → bool) (n : node) : node :=
  match n with
  | NavigableString s => NavigableString s
  | Tag name attrs cs =>
      Tag name attrs
        ((fix keep (l : list node) : list node :=
            match l with
            | [] => []
            | c :: rest =>
                if p c then keep rest else decompose_all p c :: keep rest
            end) cs)
  end.

(** A change applied to every descendant of [n], parents before
    children; [n] itself is not changed. *)
Definition on_contents (f : node → node) (n : node) : node :=
  match n with
  | NavigableString s => NavigableString s
  | Tag name attrs cs => Tag name attrs (map f cs)
  end.

End Soup.

(* ===================================================================== *)
(** ** [parsing/BaseParsing.py] *)
(* ===================================================================== *)

(** *** [class BaseWebParser]: the normalisation of identifiers *)

Module BaseWebParser.
Import PyStr UrlParse.

(** [BaseWebParser.normalize_identifier]. *)
Definition normalize_identifier (url : string) : string :=
  let parsed := urlparse url in
  let path := rstrip is_slash (path parsed) in
  urlunparse (scheme parsed) (netloc parsed) path "" "" "".

End BaseWebParser.

(** *** [class BaseContentSplitter] *)

Module BaseContentSplitter.
Import PyStr UrlParse Soup.

(** The character class of [clean_filename]: backslash, slash, colon,
    star, question mark, double quote, angle brackets and bar. *)
Definition illegal_chars : string :=
  "\/:*?" ++ String DQUOTE "<>|".

(** [BaseContentSplitter.clean_filename]. *)
Definition clean_filename (url : string) : string :=
  let path := strip is_slash (path (urlparse url)) in
  let path := if nonempty path then path else "index" in
  let filename := Re.sub (Re.Class (Re.one_of illegal_chars)) [Re.Text "_"] path in
  filename ++ ".md".

(** *** The text normalisation passes of
    [BaseContentSplitter.process_content] *)

(** [markdown_text.replace('\\-', '-')] and
    [markdown_text.replace('\\.', '.')]. *)
Definition unescape_hyphen (text : string) : string := replace "\-" "-" text.
Definition unescape_period (text : string) : string := replace "\." "." text.

(** [re.sub(r'\\([^\\])', r'\1', markdown_text)]. *)
Definition re_escape : Re.regex :=
  Re.Cat (Re.Lit "\") (Re.Group 1 (Re.Class (Re.none_of "\"))).
Definition unescape_rest (text : string) : string :=
  Re.sub re_escape [Re.Ref 1] text.

(** The heading repair of source line 52: the literal text [[#](], group 1
    [.*?], a closing parenthesis, [\s*], then group 2 [[#]+.*]; the match
    is replaced by group 2. *)
Definition re_heading : Re.regex :=
  Re.seq [Re.lits "[#]("; Re.Group 1 (Re.Rep 0 false Re.dot); Re.Lit ")";
          Re.Rep 0 true Re.ws;
          Re.Group 2 (Re.Cat (Re.Rep 1 true (Re.is_char "#"))
                             (Re.Rep 0 true Re.dot))].
Definition fix_heading (text : string) : string :=
  Re.sub re_heading [Re.Ref 2] text.

(** [re.sub(r'\n{3,}', '\n\n', markdown_text)]. *)
Definition re_blank : Re.regex := Re.Rep 3 true (Re.is_char LF).
Definition collapse_blank (text : string) : string :=
  Re.sub re_blank [Re.Text (nl ++ nl)] text.

(** [re.sub(r'```\s*(\w+)?\s*\n\s*', r'```\1\n', markdown_text)]. *)
Definition re_fence_open : Re.regex :=
  Re.seq [Re.lits "```"; Re.Rep 0 true Re.ws;
          Re.Opt (Re.Group 1 (Re.Rep 1 true Re.word));
          Re.Rep 0 true Re.ws; Re.Lit LF; Re.Rep 0 true Re.ws].
Definition fix_fence_open (text : string) : string :=
  Re.sub re_fence_open [Re.Text "```"; Re.Ref 1; Re.Text nl] text.

(** [re.sub(r'\n\s*```', r'\n```', markdown_text)]. *)
Definition re_fence_close : Re.regex :=
  Re.seq [Re.Lit LF; Re.Rep 0 true Re.ws; Re.lits "```"].
Definition fix_fence_close (text : string) : string :=
  Re.sub re_fence_close [Re.Text (nl ++ "```")] text.

(** The five passes in the order of the source. *)
Definition normalize_markdown (text : string) : string :=
  let text := unescape_hyphen text in
  let text := unescape_period text in
  let text := unescape_rest text in
  let text := fix_heading text in
  let text := collapse_blank text in
  let text := fix_fence_open text in
  fix_fence_close text.

(** *** [BaseContentSplitter.process_content] *)

(** [for a in content_div.find_all('a', href=True)]: an [href] that starts
    with [#] is deleted. *)
Fixpoint strip_fragment_hrefs (n : node) : node :=
  match n with
  | NavigableString s => NavigableString s
  | Tag name attrs cs =>
      let attrs :=
        if String.eqb name "a"
           && match lookup_attr "href" attrs with
              | Some href => startswith "#" href
              | None => false
              end
        then del_attr "href" attrs else attrs in
      Tag name attrs (map strip_fragment_hrefs cs)
  end.

(** [for pre in content_div.find_all('pre')]: a [pre] with a non-empty
    [.string] gets that string, stripped, between two newlines as its only
    content.  The tags are visited in document order, so an outer [pre] is
    rewritten first and what was below it is detached. *)
Fixpoint rewrite_pre (n : node) : node :=
  match n with
  | NavigableString s => NavigableString s
  | Tag name attrs cs =>
      if String.eqb name "pre"
         && match string_of n with Some s => nonempty s | None => false end
      then Tag name attrs
             [NavigableString (nl ++ strip_ws (default "" (string_of n)) ++ nl)]
      else Tag name attrs (map rewrite_pre cs)
  end.

(** [os.path.join(output_dir, filename)] on a POSIX system. *)
Definition path_join (dir name : string) : string :=
  if startswith "/" name then name
  else if negb (nonempty dir) || String.eqb (drop (String.length dir - 1) dir) "/"
  then dir ++ name
  else dir ++ "/" ++ name.

(** What the splitter does to the file system: a map from paths to file
    contents. *)
Record outcome : Type := mkOutcome {
  ok : bool;
  files : gmap string string }.

Section Splitter.
(** [md(str(content_div))], the conversion of the external library;
    [None] when it raises. *)
Variable md : node → option string.
(** Whether [open(filepath, 'w')] succeeds. *)
Variable writable : string → bool.
Variable output_dir : string.

Definition process_content (content_div : node)
    (metadata : gmap string string) (fs : gmap string string) : outcome :=
  let content_div := on_contents strip_fragment_hrefs content_div in
  let content_div := on_contents rewrite_pre content_div in
  match md content_div with
  | None => mkOutcome false fs
  | Some markdown_text =>
      let markdown_text := normalize_markdown markdown_text in
      let source_url := default "" (metadata !! "url") in
      let markdown_text :=
        if nonempty source_url
        then "Source: " ++ source_url ++ nl ++ nl ++ markdown_text
        else markdown_text in
      let filename := clean_filename (default "" (metadata !! "url")) in
      let filepath := path_join output_dir filename in
      if writable filepath
      then mkOutcome true (<[filepath := markdown_text]> fs)
      else mkOutcome false fs
  end.

End Splitter.

End BaseContentSplitter.

(** *** [class BaseParser]: the driver *)

Module BaseParser.
Import PyStr UrlParse BaseContentSplitter.

(** The state of [collect_and_save_contents]: the success flag, the
    parser's [processed_items], the files written so far and, to count
    them, the requests issued by [fetch_content]. *)
Record driver : Type := mkDriver {
  success : bool;
  processed_items : gset string;
  fs : gmap string string;
  fetched : list string }.

Section Driver.
(** The abstract methods of the class.  [fetch_content] is the answer of
    the site to a request, [None] for a failed request. *)
Variable fetch_content : string → option string.
Variable process_content :
  string → gmap string string → gmap string string → outcome.
Variable normalize_identifier : string → string.

(** [if content:] is true for a non-empty string. *)
Definition truthy (content : option string) : option string :=
  match content with
  | Some c => if nonempty c then Some c else None
  | None => None
  end.

(** The body of [for identifier in identifiers]. *)
Definition collect_one (st : driver) (identifier : string) : driver :=
  let normalized_id := normalize_identifier identifier in
  if bool_decide (normalized_id ∈ processed_items st) then st
  else
    match truthy (fetch_content identifier) with
    | Some content =>
        let metadata : gmap string string :=
          {[ "identifier" := normalized_id ]} in
        let r := process_content content metadata (fs st) in
        mkDriver (if ok r then success st else false)
                 ({[ normalized_id ]} ∪ processed_items st)
                 (files r)
                 (fetched st ++ [identifier])
    | None =>
        mkDriver (success st) (processed_items st) (fs st)
                 (fetched st ++ [identifier])
    end.

(** The loop, over the identifiers in the order the set yields them. *)
Definition collect_loop (identifiers : list string) (st : driver) : driver :=
  fold_left collect_one identifiers st.

End Driver.

End BaseParser.

(* ===================================================================== *)
(** ** [parsing/astro/AstroParsing.py] *)
(* ===================================================================== *)

Module AstroParser.
Import PyStr UrlParse UrlJoin Soup BaseContentSplitter BaseWebParser.

(** The state of the [while] loop of [get_identifiers], with the requests
    issued so far. *)
Record frontier : Type := mkFrontier {
  all_urls : gset string;
  urls_to_process : gset string;
  requests : list string }.

Section Parser.
(** The constructor's arguments. *)
Variable base_url : string.
Variable output_dir : string.
(** The collaborators: the site, the HTML parser, the Markdown converter
    and the file system. *)
Variable fetch_content : string → option string.
Variable BeautifulSoup : string → node.
Variable md : node → option string.
Variable writable : string → bool.

(** [self.base_url = base_url.rstrip('/')]. *)
Definition self_base_url : string := rstrip is_slash base_url.

Definition is_valid_url (url : string) : bool :=
  let base_domain := netloc (urlparse self_base_url) in
  let url_domain := netloc (urlparse url) in
  String.eqb url_domain base_domain.

(** The body of [for link in soup.find_all('a', href=True)]. *)
Definition add_link (page_url : string) (links : gset string) (link : node)
    : gset string :=
  let href := default "" (get "href" link) in
  if startswith "#" href then links
  else
    let full_url := urljoin page_url href in
    let normalized_url := normalize_identifier full_url in
    if is_valid_url normalized_url then {[ normalized_url ]} ∪ links
    else links.

(** The set that [extract_links] returns when no call of the URL library
    raises; [Checked.extract_links] says when that is. *)
Definition extract_links (content : string) (page_url : string)
    : gset string :=
  let soup := BeautifulSoup content in
  fold_left (add_link page_url)
    (find_all (λ n, is_tag "a" n && has_attr "href" n) soup) ∅.

(** One turn of [while urls_to_process], for the [url] that [pop]
    returns: the state after the turn when it returns, which
    [Checked.visit] says. *)
Definition visit (url : string) (st : frontier) : frontier :=
  let pending := urls_to_process st ∖ {[ url ]} in
  let normalized_url := normalize_identifier url in
  if bool_decide (normalized_url ∈ all_urls st)
  then mkFrontier (all_urls st) pending (requests st)
  else
    match BaseParser.truthy (fetch_content url) with
    | Some content =>
        let all_urls' := {[ normalized_url ]} ∪ all_urls st in
        let new_links := extract_links content url in
        mkFrontier all_urls' (pending ∪ (new_links ∖ all_urls'))
                   (requests st ++ [url])
    | None => mkFrontier (all_urls st) pending (requests st ++ [url])
    end.

(** [set.pop] returns an arbitrary element, so a turn of the loop is a
    relation between states. *)
Definition crawl_step (st st' : frontier) : Prop :=
  ∃ url, url ∈ urls_to_process st ∧ st' = visit url st.

Definition crawl_start : frontier := mkFrontier ∅ {[ self_base_url ]} [].

(** [get_identifiers] returns [ids] after the requests [reqs]. *)
Definition get_identifiers (ids : gset string) (reqs : list string) : Prop :=
  ∃ st, rtc crawl_step crawl_start st ∧ urls_to_process st = ∅
        ∧ ids = all_urls st ∧ reqs = requests st.

(** The same loop with [pop] taking the first pending identifier of a
    given list, for running it. *)
Definition pop_by (order : list string) (pending : gset string)
    : option string :=
  List.find (λ u, bool_decide (u ∈ pending)) order.

Fixpoint crawl (order : list string) (fuel : nat) (st : frontier)
    : frontier :=
  match fuel with
  | O => st
  | S n =>
      match pop_by order (urls_to_process st) with
      | Some url => crawl order n (visit url st)
      | None => st
      end
  end.

(** The ordered content-region selectors of [process_content]. *)
Definition content_region (soup : node) : option node :=
  or_else (find (λ n, is_tag "article" n && has_class "content" n) soup)
 (or_else (find (λ n, is_tag "main" n && has_class "main-content" n) soup)
 (or_else (find (λ n, is_tag "div" n && has_class "prose" n) soup)
 (or_else (find (λ n, is_tag "div" n && attr_is "role" "main" n) soup)
          (find (is_tag "main") soup)))).

(** The selectors of the elements to remove. *)
Definition boilerplate : list (node → bool) :=
  [ is_tag "script"; is_tag "style"; has_class "toc"; has_class "pagination";
    has_class "footer-nav"; has_class "edit-on-github";
    attr_is "aria-label" "Table of Contents" ].

Definition remove_boilerplate (content_div : node) : node :=
  fold_left (λ div sel, decompose_all sel div) boilerplate content_div.

(** [AstroParser.process_content]: the result of the call, the files, and
    the metadata dictionary as the call leaves it. *)
Definition process_content (content : string) (metadata : gmap string string)
    (fs : gmap string string) : outcome * gmap string string :=
  let soup := BeautifulSoup content in
  let title := find (is_tag "title") soup in
  let identifier := default "" (metadata !! "identifier") in
  let title_text :=
    match title with
    | Some t => strip_ws (text t)
    | None => identifier
    end in
  match content_region soup with
  | None => (mkOutcome false fs, metadata)
  | Some content_div =>
      let content_div := remove_boilerplate content_div in
      let metadata :=
        <[ "site_type" := "astro" ]>
          (<[ "url" := identifier ]> (<[ "title" := title_text ]> metadata)) in
      (BaseContentSplitter.process_content md writable output_dir
         content_div metadata fs, metadata)
  end.

(** [collect_and_save_contents] on a parser whose [processed_items] is
    [done]: the identifiers found by [get_identifiers], then the loop over
    them in some order. *)
Definition collect_and_save_contents (done : gset string)
    (fs : gmap string string) (final : BaseParser.driver) : Prop :=
  ∃ ids reqs order,
    get_identifiers ids reqs ∧ order ≡ₚ elements ids ∧
    final = BaseParser.collect_loop fetch_content
              (λ c m f, fst (process_content c m f)) normalize_identifier
              order (BaseParser.mkDriver true done fs reqs).

End Parser.

End AstroParser.

(* ===================================================================== *)
(** ** Statements of the specification, in its own words *)
(* ===================================================================== *)

Module Claimed.
Import PyStr UrlParse.

(** Every character of [set] replaced by an underscore. *)
Fixpoint sanitize (set : string) (s : string) : string :=
  match s with
  | "" => ""
  | String c s' =>
      String (if contains c set then "_"%char else c) (sanitize set s')
  end.

(** The file name as the specification words it: the path with the
    illegal characters replaced, [index] for the empty path, and the
    suffix. *)
Definition filename_of_path (path : string) : string :=
  (if nonempty path then sanitize BaseContentSplitter.illegal_chars path
   else "index") ++ ".md".

(** The file name the program derives from a path: as above, after the
    slashes at both ends of the path are removed. *)
Definition filename_of_stripped_path (path : string) : string :=
  filename_of_path (strip is_slash path).

(** Every backslash that stands before a character of the class [p] is
    removed; the character after it is kept and not looked at again. *)
Fixpoint unescape (p : ascii → bool) (s : string) : string :=
  match s with
  | "" => ""
  | String c s' =>
      match s' with
      | "" => String c ""
      | String d s'' =>
          if Ascii.eqb c "\" && p d then String d (unescape p s'')
          else String c (unescape p s')
      end
  end.

(** What a hyperlink contributes to the links of the page at
    [page_url]: its destination, unless that starts with [#], resolved
    against [page_url] and normalised, if its host is the host of the
    crawl root. *)
Definition link_target (base_url page_url u : string) (link : Soup.node)
    : Prop :=
  ∃ href, Soup.get "href" link = Some href ∧ startswith "#" href = false
          ∧ u = BaseWebParser.normalize_identifier
                  (UrlJoin.urljoin page_url href)
          ∧ netloc (urlparse u)
            = netloc (urlparse (AstroParser.self_base_url base_url)).

(** The pages a crawl can come to: the root, and the links of every page
    that was reached and fetched. *)
Inductive reachable (base_url : string) (fetch_content : string → option string)
    (BeautifulSoup : string → Soup.node) : string → Prop :=
| reach_root :
    reachable base_url fetch_content BeautifulSoup
      (AstroParser.self_base_url base_url)
| reach_link url content link :
    reachable base_url fetch_content BeautifulSoup url →
    BaseParser.truthy (fetch_content url) = Some content →
    link ∈ AstroParser.extract_links base_url BeautifulSoup content url →
    reachable base_url fetch_content BeautifulSoup link.

Definition fetchable (fetch_content : string → option string) (url : string)
    : Prop :=
  ∃ content, BaseParser.truthy (fetch_content url) = Some content.

End Claimed.

(* ===================================================================== *)
(** ** Absolute URLs given by their parts *)
(* ===================================================================== *)

Module Url.
Import PyStr UrlParse.

Definition unsafe (c : ascii) : bool :=
  Ascii.eqb c TAB || Ascii.eqb c CR || Ascii.eqb c LF.

(** A scheme: a letter, then letters, digits, [+], [-] and [.]. *)
Definition scheme_ok (s : string) : bool :=
  match s with
  | "" => false
  | String c _ => is_ascii_alpha c && all_chars scheme_chars s
  end.

(** A host with optional user and port: not empty, ASCII, without the
    delimiters [/], [?], [#], without brackets, tabs and line breaks. *)
Definition host_char (c : ascii) : bool :=
  in_range 0 127 c && negb (contains c "/?#[]") && negb (unsafe c).
Definition host_ok (n : string) : bool :=
  nonempty n && all_chars host_char n.

(** A path: empty or starting with a slash, without [?], [#], [;], tabs
    and line breaks. *)
Definition path_char (c : ascii) : bool :=
  negb (contains c "?#;") && negb (unsafe c).
Definition path_ok (p : string) : bool :=
  (negb (nonempty p) || startswith "/" p) && all_chars path_char p.

(** What follows the path: nothing, a query or a fragment. *)
Definition tail_ok (t : string) : bool :=
  match t with
  | "" => true
  | String c _ => contains c "?#"
  end.

(** [s] without the character [x]. *)
Fixpoint without (x : ascii) (s : string) : string :=
  match s with
  | "" => ""
  | String c s' =>
      if Ascii.eqb x c then without x s' else String c (without x s')
  end.

(** The URL with these parts. *)
Definition build (s n p t : string) : string := s ++ "://" ++ n ++ p ++ t.

End Url.

(* ===================================================================== *)
(** ** Invariants of the crawl loop *)
(* ===================================================================== *)

Module CrawlInv.
Import AstroParser.

Section Inv.
Variable base_url : string.
Variable fetch_content : string → option string.
Variable BeautifulSoup : string → Soup.node.

#[local] Abbreviation reach :=
  (Claimed.reachable base_url fetch_content BeautifulSoup).
#[local] Abbreviation can_fetch := (Claimed.fetchable fetch_content).
#[local] Abbreviation links := (extract_links base_url BeautifulSoup).
#[local] Abbreviation norm := BaseWebParser.normalize_identifier.

(** The number of requests for [u] in a log. *)
Definition times (u : string) (log : list string) : nat :=
  count_occ String.string_dec log u.

(** Every pending identifier is its own normal form. *)
Definition pending_normal (st : frontier) : Prop :=
  ∀ u, u ∈ urls_to_process st → norm u = u.

(** The state of a crawl of a site whose links are in normal form: the
    recorded identifiers are reachable pages fetched once, no other page
    was fetched with success, and every link of a recorded page is
    recorded, pending, or cannot be fetched. *)
Record crawl_inv (st : frontier) : Prop := mkInv {
  inv_all : ∀ u, u ∈ all_urls st →
      can_fetch u ∧ reach u ∧ norm u = u ∧ times u (requests st) = 1;
  inv_pending : ∀ u, u ∈ urls_to_process st → reach u ∧ norm u = u;
  inv_unseen : ∀ u, can_fetch u → u ∉ all_urls st →
      times u (requests st) = 0;
  inv_root : self_base_url base_url ∈ all_urls st
             ∨ self_base_url base_url ∈ urls_to_process st
             ∨ ¬ can_fetch (self_base_url base_url);
  inv_closed : ∀ u c v, u ∈ all_urls st →
      BaseParser.truthy (fetch_content u) = Some c → v ∈ links c u →
      v ∈ all_urls st ∨ v ∈ urls_to_process st ∨ ¬ can_fetch v }.

(** The three ways a turn of the loop can go. *)
Inductive turn (url : string) (st : frontier) : frontier → Prop :=
| turn_seen :
    norm url ∈ all_urls st →
    turn url st
      (mkFrontier (all_urls st) (urls_to_process st ∖ {[ url ]}) (requests st))
| turn_failed :
    norm url ∉ all_urls st →
    BaseParser.truthy (fetch_content url) = None →
    turn url st
      (mkFrontier (all_urls st) (urls_to_process st ∖ {[ url ]})
         (requests st ++ [url])%list)
| turn_fetched content :
    norm url ∉ all_urls st →
    BaseParser.truthy (fetch_content url) = Some content →
    turn url st
      (mkFrontier ({[ norm url ]} ∪ all_urls st)
         (urls_to_process st ∖ {[ url ]}
            ∪ links content url ∖ ({[ norm url ]} ∪ all_urls st))
         (requests st ++ [url])%list).

(** The requests for an identifier that cannot be fetched: each one uses
    up a stay in the pending set, which only the root and the pages
    fetched with success grant. *)
Definition retry_bound (u : string) (st : frontier) : Prop :=
  (times u (requests st)
   + (if bool_decide (u ∈ urls_to_process st) then 1 else 0)
   <= 1 + size (all_urls st))%nat.

End Inv.

End CrawlInv.

(* ===================================================================== *)
(** ** Sites for running the crawler *)
(* ===================================================================== *)

(** Small sites in the shape of the examples of the specification.  The
    HTML parser is a table from page sources to trees, the converter
    returns the text of the region. *)
Module Site.
Import PyStr Soup.

Definition root : string := "https://site.example.com".
Definition A : string := "https://site.example.com".
Definition B : string := "https://site.example.com/b".
Definition C : string := "https://site.example.com/c".
Definition X : string := "https://site.example.com/x".

Definition anchor (href : string) : node :=
  Tag "a" [("href", href)] [NavigableString href].

Definition document (title : string) (body : list node) : node :=
  Tag "[document]" []
    [Tag "html" []
       [Tag "head" [] [Tag "title" [] [NavigableString title]];
        Tag "body" [] body]].

Definition page (title : string) (hrefs : list string) : node :=
  document title [Tag "main" [] (map anchor hrefs)].

(** The sources of the pages are named by short strings. *)
Definition BeautifulSoup (content : string) : node :=
  if String.eqb content "page A" then page "A" ["/b"; "c/"; "#top"]
  else if String.eqb content "page B" then page "B" ["/"]
  else if String.eqb content "page C"
       then page "C" ["https://site.example.com/?q=1#f";
                      "https://other.example.com/x"]
  else if String.eqb content "page A, broken link" then page "A" ["/x"; "/b"]
  else if String.eqb content "page B, broken link" then page "B" ["/x"]
  else if String.eqb content "no region"
       then document "E" [Tag "div" [] [NavigableString "text"]]
  else if String.eqb content "first title"
       then document "One" [Tag "main" [] [NavigableString "body"]]
  else if String.eqb content "second title"
       then document "Two" [Tag "main" [] [NavigableString "body"]]
  else document "" [].

(** The cyclic site A → B → A, A → C, C → A. *)
Definition cyclic (url : string) : option string :=
  if String.eqb url A then Some "page A"
  else if String.eqb url B then Some "page B"
  else if String.eqb url C then Some "page C"
  else None.

(** A and B both link to X, which cannot be fetched. *)
Definition broken (url : string) : option string :=
  if String.eqb url A then Some "page A, broken link"
  else if String.eqb url B then Some "page B, broken link"
  else None.

(** A single page without a content region. *)
Definition regionless (url : string) : option string :=
  if String.eqb url A then Some "no region" else None.

Definition md (content_div : node) : option string := Some (text content_div).
Definition writable (filepath : string) : bool := true.
Definition output_dir : string := "output_markdown".

End Site.

(* ===================================================================== *)
(** ** [parsing/vuepress/VuePressParsing.py] *)
(* ===================================================================== *)

(** The crawl of the VuePress parser ([is_valid_url], [fetch_content],
    [extract_links], [get_identifiers]) is the code of the Astro parser
    line for line; what differs is [process_content]. *)
Module VuePressParser.
Import PyStr UrlParse Soup BaseContentSplitter.

Section Parser.
Variable output_dir : string.
Variable BeautifulSoup : string → node.
Variable md : node → option string.
Variable writable : string → bool.

(** The ordered content-region selectors of [process_content]. *)
Definition content_region (soup : node) : option node :=
  or_else (find (λ n, is_tag "div" n && has_class "theme-default-content" n)
             soup)
 (or_else (find (λ n, is_tag "div" n && has_class "content" n) soup)
 (or_else (find (λ n, is_tag "main" n && has_class "page" n) soup)
          (find (is_tag "article") soup))).

(** The selector group [script, .page-nav, .page-edit]. *)
Definition boilerplate (n : node) : bool :=
  is_tag "script" n || has_class "page-nav" n || has_class "page-edit" n.

Definition remove_boilerplate (content_div : node) : node :=
  decompose_all boilerplate content_div.

(** [VuePressParser.process_content]. *)
Definition process_content (content : string) (metadata : gmap string string)
    (fs : gmap string string) : outcome * gmap string string :=
  let soup := BeautifulSoup content in
  let title := find (is_tag "title") soup in
  let identifier := default "" (metadata !! "identifier") in
  let title_text :=
    match title with
    | Some t => strip_ws (text t)
    | None => identifier
    end in
  match content_region soup with
  | None => (mkOutcome false fs, metadata)
  | Some content_div =>
      let content_div := remove_boilerplate content_div in
      let metadata :=
        <[ "site_type" := "vuepress" ]>
          (<[ "url" := identifier ]> (<[ "title" := title_text ]> metadata)) in
      (BaseContentSplitter.process_content md writable output_dir
         content_div metadata fs, metadata)
  end.

End Parser.

End VuePressParser.

(* ===================================================================== *)
(** ** Notions used to state properties of the text and of the tree *)
(* ===================================================================== *)

Module Notions.
Import PyStr Soup.

(** [needle in s] for strings. *)
Fixpoint occurs (needle s : string) : bool :=
  startswith needle s
  || match s with
     | "" => false
     | String _ s' => occurs needle s'
     end.

(** The number of characters of the class [p] at the head of [s]. *)
Fixpoint run (p : ascii → bool) (s : string) : nat :=
  match s with
  | "" => 0
  | String c s' => if p c then S (run p s') else 0
  end.

(** A node and everything below it. *)
Definition subtree (n : node) : list node := n :: descendants n.

(** Induction on document trees, with the hypothesis for every child. *)
Fixpoint node_induction (P : node → Prop)
    (Htext : ∀ s, P (NavigableString s))
    (Htag : ∀ name attrs cs, Forall P cs → P (Tag name attrs cs))
    (n : node) : P n :=
  match n with
  | NavigableString s => Htext s
  | Tag name attrs cs =>
      Htag name attrs cs
        ((fix all (l : list node) : Forall P l :=
            match l with
            | [] => List.Forall_nil P
            | c :: rest =>
                List.Forall_cons P c rest
                  (node_induction P Htext Htag c) (all rest)
            end) cs)
  end.

(** The selectors of the two parsers look at the name and the attributes
    of a tag only. *)
Definition shallow (p : node → bool) : Prop :=
  ∀ name attrs cs cs', p (Tag name attrs cs) = p (Tag name attrs cs').

(** No hyperlink to a place in the page itself. *)
Definition no_fragment_href (d : node) : Prop :=
  is_tag "a" d = true → ∀ href, get "href" d = Some href →
  startswith "#" href = false.

(** A tag has text of its own when its [.string] is a non-empty
    string. *)
Definition has_string (n : node) : bool :=
  match string_of n with
  | Some s => UrlParse.nonempty s
  | None => false
  end.

(** A code block as the splitter leaves it: a [pre] with text of its own
    holds one text node, a stripped text between two newlines. *)
Definition framed_pre (d : node) : Prop :=
  is_tag "pre" d = true → has_string d = true →
  ∃ t, contents_of d = [NavigableString (nl ++ strip_ws t ++ nl)].

(** A path segment: not empty, without slashes and without the
    characters that end the path of a URL. *)
Definition segment (x : string) : bool :=
  UrlParse.nonempty x
  && all_chars (λ c, Url.path_char c && negb (is_slash c)) x.

(** A state of the crawl that has not left the site: what is pending or
    was requested has the host of the root, and what is recorded is the
    normal form of a URL requested with success. *)
Definition on_site (base_url : string)
    (fetch_content : string → option string) (st : AstroParser.frontier)
    : Prop :=
  (∀ url,
     url ∈ AstroParser.urls_to_process st ∨ url ∈ AstroParser.requests st →
     UrlParse.netloc (UrlParse.urlparse url)
     = UrlParse.netloc
         (UrlParse.urlparse (AstroParser.self_base_url base_url)))
  ∧ (∀ u, u ∈ AstroParser.all_urls st →
          ∃ url, url ∈ AstroParser.requests st
                 ∧ u = BaseWebParser.normalize_identifier url
                 ∧ Claimed.fetchable fetch_content url).

End Notions.

(* ===================================================================== *)
(** ** The [ValueError] of [urllib.parse] and the calls it ends *)
(* ===================================================================== *)

(** [urlsplit] raises [ValueError] for a host with unbalanced brackets
    and for a bracketed host that is no IPv6 or IPvFuture literal.  The
    crawl calls it through [urljoin], [normalize_identifier] and
    [is_valid_url], outside every [try], so the exception ends
    [extract_links], [get_identifiers] and [collect_and_save_contents].
    The functions of this module return [None] where the call of the
    source raises, and otherwise the value that the functions above
    give.  The third check of [urlsplit], [_checknetloc], cannot raise on
    the characters modelled here: the NFKC form of a code point below 256
    holds none of [/], [?], [#], [@] and [:] unless it is that
    character. *)
Module Checked.
Import PyStr UrlParse Soup.

(** What [ipaddress.ip_address] returns. *)
Inductive ip_kind : Type := IPv4Address | IPv6Address.

(** [[a-fA-F0-9]]. *)
Definition hex_digit (c : ascii) : bool :=
  in_range 97 102 c || in_range 65 70 c || in_range 48 57 c.

(** The pattern of an IPvFuture literal, [v], hexadecimal digits, a
    period and at least one more character, and its end of string. *)
Definition re_ipvfuture : Re.regex :=
  Re.seq [Re.Lit "v"; Re.Rep 1 true hex_digit; Re.Lit "."; Re.Rep 1 true Re.dot].

Definition at_end (s : string) (caps : Re.captures) : option unit :=
  if nonempty s then None else Some tt.

(** [s.rpartition(c)[2]]. *)
Definition after_last (c : ascii) (s : string) : string :=
  match rfind c s with
  | Some i => drop (S i) s
  | None => s
  end.

Section Library.
(** [ipaddress.ip_address]; [None] when it raises [ValueError]. *)
Variable ip_address : string → option ip_kind.

(** [_check_bracketed_host]: [true] when it returns. *)
Definition _check_bracketed_host (hostname : string) : bool :=
  if startswith "v" hostname
  then match Re.exec re_ipvfuture hostname [] at_end with
       | Some _ => true
       | None => false
       end
  else match ip_address hostname with
       | Some IPv6Address => true
       | Some IPv4Address => false
       | None => false
       end.

(** [_check_bracketed_netloc]: [true] when it returns. *)
Definition _check_bracketed_netloc (netloc : string) : bool :=
  let hostname_and_port := after_last "@" netloc in
  if contains "[" hostname_and_port
  then
    let '(before_bracket, bracketed) := split1 "[" hostname_and_port in
    if nonempty before_bracket then false
    else
      let '(hostname, port) := split1 "]" bracketed in
      if nonempty port && negb (startswith ":" port) then false
      else _check_bracketed_host hostname
  else
    let '(hostname, _) := split1 ":" hostname_and_port in
    _check_bracketed_host hostname.

(** [urlsplit] with its checks.  They are made on the host, which is
    empty when the URL has none. *)
Definition urlsplit (url scheme : string) : option SplitResult :=
  let r := UrlParse.urlsplit url scheme in
  let netloc := s_netloc r in
  if (contains "[" netloc && negb (contains "]" netloc))
     || (contains "]" netloc && negb (contains "[" netloc))
  then None
  else if contains "[" netloc && contains "]" netloc
          && negb (_check_bracketed_netloc netloc)
  then None
  else Some r.

Definition urlparse_with (url scheme : string) : option ParseResult :=
  match urlsplit url scheme with
  | Some _ => Some (UrlParse.urlparse_with url scheme)
  | None => None
  end.

Definition urlparse (url : string) : option ParseResult :=
  urlparse_with url "".

(** [urljoin] parses the base, then the URL. *)
Definition urljoin (base url : string) : option string :=
  if negb (nonempty base) then Some url
  else if negb (nonempty url) then Some base
  else
    match urlparse_with base "" with
    | None => None
    | Some b =>
        match urlparse_with url (scheme b) with
        | None => None
        | Some _ => Some (UrlJoin.urljoin base url)
        end
    end.

(** [BaseWebParser.normalize_identifier]. *)
Definition normalize_identifier (url : string) : option string :=
  match urlparse url with
  | Some _ => Some (BaseWebParser.normalize_identifier url)
  | None => None
  end.

(** The library accepts every pending URL. *)
Definition parsed (st : AstroParser.frontier) : Prop :=
  ∀ u, u ∈ AstroParser.urls_to_process st → is_Some (urlparse u).

Section Parser.
Variable base_url : string.
Variable fetch_content : string → option string.
Variable BeautifulSoup : string → node.

(** [is_valid_url] parses the root, then the URL. *)
Definition is_valid_url (url : string) : option bool :=
  match urlparse (AstroParser.self_base_url base_url) with
  | None => None
  | Some _ =>
      match urlparse url with
      | None => None
      | Some _ => Some (AstroParser.is_valid_url base_url url)
      end
  end.

(** The body of the loop of [extract_links]; [links] is [None] once a
    call has raised. *)
Definition add_link (page_url : string) (links : option (gset string))
    (link : node) : option (gset string) :=
  match links with
  | None => None
  | Some links =>
      let href := default "" (get "href" link) in
      if startswith "#" href then Some links
      else
        match urljoin page_url href with
        | None => None
        | Some full_url =>
            match normalize_identifier full_url with
            | None => None
            | Some normalized_url =>
                match is_valid_url normalized_url with
                | None => None
                | Some true => Some ({[ normalized_url ]} ∪ links)
                | Some false => Some links
                end
            end
        end
  end.

Definition extract_links (content : string) (page_url : string)
    : option (gset string) :=
  let soup := BeautifulSoup content in
  fold_left (add_link page_url)
    (find_all (λ n, is_tag "a" n && has_attr "href" n) soup) (Some ∅).

(** The destination [href] on the page at [page_url] makes one of the
    three calls raise. *)
Definition rejected (page_url href : string) : Prop :=
  urljoin page_url href = None
  ∨ normalize_identifier (UrlJoin.urljoin page_url href) = None
  ∨ is_valid_url
      (BaseWebParser.normalize_identifier (UrlJoin.urljoin page_url href))
    = None.

(** One turn of the loop of [get_identifiers]: [None] when
    [normalize_identifier] or [extract_links] raises. *)
Definition visit (url : string) (st : AstroParser.frontier)
    : option AstroParser.frontier :=
  let pending := AstroParser.urls_to_process st ∖ {[ url ]} in
  match normalize_identifier url with
  | None => None
  | Some normalized_url =>
      if bool_decide (normalized_url ∈ AstroParser.all_urls st)
      then Some (AstroParser.mkFrontier (AstroParser.all_urls st) pending
                   (AstroParser.requests st))
      else
        match BaseParser.truthy (fetch_content url) with
        | Some content =>
            let all_urls' := {[ normalized_url ]} ∪ AstroParser.all_urls st in
            match extract_links content url with
            | None => None
            | Some new_links =>
                Some (AstroParser.mkFrontier all_urls'
                        (pending ∪ (new_links ∖ all_urls'))
                        (AstroParser.requests st ++ [url]))
            end
        | None =>
            Some (AstroParser.mkFrontier (AstroParser.all_urls st) pending
                    (AstroParser.requests st ++ [url]))
        end
  end.

(** A turn that returns, and a state in which [pop] can return a URL on
    which the turn raises. *)
Definition crawl_step (st st' : AstroParser.frontier) : Prop :=
  ∃ url, url ∈ AstroParser.urls_to_process st ∧ visit url st = Some st'.

Definition raises (st : AstroParser.frontier) : Prop :=
  ∃ url, url ∈ AstroParser.urls_to_process st ∧ visit url st = None.

(** [get_identifiers] returns [ids] after the requests [reqs], and
    [get_identifiers] raises. *)
Definition get_identifiers (ids : gset string) (reqs : list string) : Prop :=
  ∃ st, rtc crawl_step (AstroParser.crawl_start base_url) st
        ∧ AstroParser.urls_to_process st = ∅
        ∧ ids = AstroParser.all_urls st ∧ reqs = AstroParser.requests st.

Definition get_identifiers_raises : Prop :=
  ∃ st, rtc crawl_step (AstroParser.crawl_start base_url) st ∧ raises st.

Section Driver.
Variable process_content :
  string → gmap string string → gmap string string
  → BaseContentSplitter.outcome.

(** The body of the loop of [collect_and_save_contents], which begins
    with [normalize_identifier], and the loop. *)
Definition collect_one (st : BaseParser.driver) (identifier : string)
    : option BaseParser.driver :=
  match normalize_identifier identifier with
  | None => None
  | Some _ =>
      Some (BaseParser.collect_one fetch_content process_content
              BaseWebParser.normalize_identifier st identifier)
  end.

Fixpoint collect_loop (identifiers : list string) (st : BaseParser.driver)
    : option BaseParser.driver :=
  match identifiers with
  | [] => Some st
  | identifier :: rest =>
      match collect_one st identifier with
      | None => None
      | Some st' => collect_loop rest st'
      end
  end.

(** [collect_and_save_contents] returns with the state [final]. *)
Definition collect_and_save_contents (done : gset string)
    (fs : gmap string string) (final : BaseParser.driver) : Prop :=
  ∃ ids reqs order,
    get_identifiers ids reqs ∧ order ≡ₚ elements ids ∧
    collect_loop order (BaseParser.mkDriver true done fs reqs) = Some final.

End Driver.

End Parser.

End Library.

End Checked.

(* ===================================================================== *)
(** ** Documents that differ in their titles *)
(* ===================================================================== *)

Module Titles.
Import PyStr Soup.

(** The document without the content of its [title] elements.  Two
    documents differ only in the content of title elements when this
    gives the same tree for both. *)
Fixpoint blank_titles (n : node) : node :=
  match n with
  | NavigableString s => NavigableString s
  | Tag name attrs cs =>
      if String.eqb name "title" then Tag name attrs []
      else Tag name attrs (map blank_titles cs)
  end.

Definition is_text (n : node) : bool :=
  match n with
  | NavigableString _ => true
  | Tag _ _ _ => false
  end.

(** Every [title] element holds text only. *)
Fixpoint plain_titles (n : node) : bool :=
  match n with
  | NavigableString _ => true
  | Tag name _ cs =>
      if String.eqb name "title" then forallb is_text cs
      else forallb plain_titles cs
  end.

(** No [title] element, neither [n] nor below it. *)
Fixpoint title_free (n : node) : bool :=
  match n with
  | NavigableString _ => true
  | Tag name _ cs => negb (String.eqb name "title") && forallb title_free cs
  end.

(** A selector on elements: it reads the name and the attributes, and
    matches no text. *)
Definition on_elements (p : node → bool) : Prop :=
  Notions.shallow p ∧ ∀ s, p (NavigableString s) = false.

End Titles.

(* ===================================================================== *)
(** ** A documentation site for running the parsers *)
(* ===================================================================== *)

Module Docs.
Import PyStr Soup.

Definition root : string := "https://site.example.com".
Definition guide : string := "https://site.example.com/docs/guide/intro".
Definition setup : string := "https://site.example.com/docs/guide/setup".

(** No host of these sites is in brackets. *)
Definition ip_address (hostname : string) : option Checked.ip_kind := None.

Definition BeautifulSoup (content : string) : node :=
  if String.eqb content "guide"
  then Site.page "Guide"
         ["setup"; "../api/"; "/top#end"; "#here"; "?page=2";
          "https://other.example.com/x"; "//site.example.com/faq/?q=1";
          "mailto:docs@site.example.com"]
  else if String.eqb content "bad link"
  then Site.page "Bad" ["/b"; "http://["]
  else if String.eqb content "setup"
  then Site.document "Setup" [Tag "main" [] [NavigableString "steps"]]
  else if String.eqb content "plain"
  then Site.document "" [Tag "div" [] [NavigableString "text"]]
  else if String.eqb content "title with text"
  then Site.document "One" [Tag "main" [] [NavigableString "body"]]
  else if String.eqb content "title with markup"
  then Tag "[document]" []
         [Tag "html" []
            [Tag "head" []
               [Tag "title" [] [Tag "main" [] [NavigableString "inner"]]];
             Tag "body" [] [Tag "main" [] [NavigableString "body"]]]]
  else Site.document "" [].

(** A page without a content region and a page with one. *)
Definition mixed (url : string) : option string :=
  if String.eqb url guide then Some "plain"
  else if String.eqb url setup then Some "setup"
  else None.

(** The root holds a link that the URL library rejects. *)
Definition bad (url : string) : option string :=
  if String.eqb url root then Some "bad link" else None.

End Docs.

(* ===================================================================== *)
(** ** Properties of the library embedding *)
(* ===================================================================== *)

Module ReFacts.
Import PyStr Re.
#[local] Arguments Ascii.eqb : simpl never.

Lemma length_cons_sub (c : ascii) (s : string) :
  String.length (String c s) - String.length s = 1.
Proof. simpl. lia. Qed.

Lemma length_cons2_sub (c d : ascii) (s : string) :
  String.length (String c (String d s)) - String.length s = 2.
Proof. simpl. lia. Qed.

Lemma sub_from_skip r tpl c s n :
  sub_from r tpl (String c s) (S n) = sub_from r tpl s n.
Proof. reflexivity. Qed.

Lemma sub_from_match r tpl c s n caps :
  match_at r (String c s) = Some (S n, caps) →
  sub_from r tpl (String c s) 0 = expand tpl caps ++ sub_from r tpl s n.
Proof. intros H. simpl. now rewrite H. Qed.

Lemma sub_from_no_match r tpl c s :
  match_at r (String c s) = None →
  sub_from r tpl (String c s) 0 = String c (sub_from r tpl s 0).
Proof. intros H. simpl. now rewrite H. Qed.

(** Replacing the characters of a set by an underscore is a map over the
    characters. *)
Lemma sub_one_of set s :
  sub (Class (one_of set)) [Text "_"] s = Claimed.sanitize set s.
Proof.
  unfold sub. induction s as [|c s IH]; [reflexivity|].
  simpl Claimed.sanitize. destruct (contains c set) eqn:Hp.
  - rewrite (sub_from_match _ _ _ _ 0 []).
    + simpl expand. simpl. now rewrite IH.
    + unfold match_at. cbn [exec]. unfold one_of. rewrite Hp.
      now rewrite length_cons_sub.
  - rewrite sub_from_no_match.
    + now rewrite IH.
    + unfold match_at. cbn [exec]. unfold one_of. now rewrite Hp.
Qed.

End ReFacts.

Module StrFacts.
Import PyStr.
#[local] Arguments Ascii.eqb : simpl never.

Lemma replace_from_skip old new c s n :
  replace_from old new (String c s) (S n) = replace_from old new s n.
Proof. reflexivity. Qed.

Lemma replace_from_cons old new c s :
  replace_from old new (String c s) 0
  = if startswith old (String c s)
    then new ++ replace_from old new s (String.length old - 1)
    else String c (replace_from old new s 0).
Proof. reflexivity. Qed.

Lemma startswith_two a b c d s :
  startswith (String a (String b "")) (String c (String d s))
  = Ascii.eqb a c && Ascii.eqb b d.
Proof. simpl. now rewrite andb_true_r. Qed.

Lemma unescape_cons2 p c d s :
  Claimed.unescape p (String c (String d s))
  = if Ascii.eqb c "\" && p d then String d (Claimed.unescape p s)
    else String c (Claimed.unescape p (String d s)).
Proof. reflexivity. Qed.

(** [s.replace] of a backslash followed by [x], by [x] alone. *)
Lemma replace_escape (x : ascii) s :
  replace (String "\" (String x "")) (String x "") s
  = Claimed.unescape (Re.is_char x) s.
Proof.
  unfold replace.
  assert (Hgen : ∀ n s, (String.length s <= n)%nat →
            replace_from (String "\" (String x "")) (String x "") s 0
            = Claimed.unescape (Re.is_char x) s).
  { clear s. induction n as [|n IH]; intros s Hlen.
    - destruct s; [reflexivity | simpl in Hlen; lia].
    - destruct s as [|c s]; [reflexivity|].
      destruct s as [|d s].
      + simpl. now rewrite andb_false_r.
      + rewrite replace_from_cons, startswith_two, unescape_cons2.
        rewrite (Ascii.eqb_sym c "\"). unfold Re.is_char at 1.
        destruct (Ascii.eqb "\" c && Ascii.eqb x d) eqn:Hm.
        * apply andb_prop in Hm as [_ Hd].
          apply Ascii.eqb_eq in Hd. subst d.
          change (String.length (String "\" (String x "")) - 1) with 1.
          rewrite replace_from_skip. simpl String.append.
          f_equal. apply IH. simpl in Hlen. lia.
        * f_equal. apply IH. simpl in Hlen |- *. lia. }
  apply (Hgen (String.length s)). lia.
Qed.

(** The pattern of the third un-escaping matches a backslash and one more
    character that is not a backslash, which is its group 1. *)
Lemma match_at_escape c d s :
  Re.match_at BaseContentSplitter.re_escape (String c (String d s))
  = if Ascii.eqb c "\" && Re.none_of "\" d
    then Some (2, [(1, String d "")]) else None.
Proof.
  unfold Re.match_at, BaseContentSplitter.re_escape. cbn [Re.exec].
  rewrite (Ascii.eqb_sym c "\").
  destruct (Ascii.eqb "\" c); [|reflexivity].
  destruct (Re.none_of "\" d); [|reflexivity].
  cbn [andb]. rewrite ReFacts.length_cons_sub, ReFacts.length_cons2_sub.
  reflexivity.
Qed.

Lemma match_at_escape_short c :
  Re.match_at BaseContentSplitter.re_escape (String c "") = None.
Proof.
  unfold Re.match_at, BaseContentSplitter.re_escape. cbn [Re.exec].
  now destruct (Ascii.eqb "\" c).
Qed.

Lemma unescape_rest_spec s :
  BaseContentSplitter.unescape_rest s = Claimed.unescape (Re.none_of "\") s.
Proof.
  unfold BaseContentSplitter.unescape_rest, Re.sub.
  assert (Hgen : ∀ n s, (String.length s <= n)%nat →
            Re.sub_from BaseContentSplitter.re_escape [Re.Ref 1] s 0
            = Claimed.unescape (Re.none_of "\") s).
  { clear s. induction n as [|n IH]; intros s Hlen.
    - destruct s; [reflexivity | simpl in Hlen; lia].
    - destruct s as [|c s]; [reflexivity|].
      destruct s as [|d s].
      + rewrite ReFacts.sub_from_no_match by apply match_at_escape_short.
        reflexivity.
      + rewrite unescape_cons2.
        pose proof (match_at_escape c d s) as Hm.
        destruct (Ascii.eqb c "\" && Re.none_of "\" d).
        * rewrite (ReFacts.sub_from_match _ _ _ _ _ _ Hm).
          rewrite ReFacts.sub_from_skip. cbn [Re.expand Re.group Nat.eqb].
          simpl. f_equal. apply IH. simpl in Hlen. lia.
        * rewrite (ReFacts.sub_from_no_match _ _ _ _ Hm).
          f_equal. apply IH. simpl in Hlen |- *. lia. }
  apply (Hgen (String.length s)). lia.
Qed.

End StrFacts.

(* ===================================================================== *)
(** ** The text normaliser and the file names *)
(* ===================================================================== *)

Import PyStr UrlParse.

(** C7, as stated, fails: the file name is not the path with its illegal
    characters replaced, since the program first removes the slashes at
    both ends of the path.  For [https://docs.example.com/guide] the path
    is [/guide] and the file is [guide.md], not [_guide.md]. *)
Lemma clean_filename_not_of_raw_path :
  ¬ (∀ url, BaseContentSplitter.clean_filename url
            = Claimed.filename_of_path (path (urlparse url))).
Proof.
  intros H. specialize (H "https://docs.example.com/guide").
  vm_compute in H. discriminate H.
Qed.

(** C7, amended: [clean_filename] is a function of the path component of
    the URL alone; it removes the slashes at both ends of the path, maps
    what is left to [index.md] when it is empty, and otherwise replaces
    each of the nine illegal characters by an underscore and appends
    [.md]. *)
Theorem clean_filename_of_path (url : string) :
  BaseContentSplitter.clean_filename url
  = Claimed.filename_of_stripped_path (path (urlparse url)).
Proof.
  unfold BaseContentSplitter.clean_filename, Claimed.filename_of_stripped_path,
    Claimed.filename_of_path.
  set (p := strip is_slash (path (urlparse url))).
  destruct (nonempty p) eqn:Hp.
  - f_equal. apply ReFacts.sub_one_of.
  - reflexivity.
Qed.


(** C3: four blank lines outside code become one, and so do three blank
    lines between an opening and a closing fence: the pass does not look
    at fences. *)
Theorem collapse_blank_inside_fence :
  BaseContentSplitter.collapse_blank (join nl ["a"; ""; ""; ""; ""; "b"])
  = join nl ["a"; ""; "b"]
  ∧ BaseContentSplitter.collapse_blank
      (join nl ["```"; "A"; ""; ""; ""; "B"; "```"])
    = join nl ["```"; "A"; ""; "B"; "```"].
Proof. split; vm_compute; reflexivity. Qed.

(** C9: when the first line of code is a single word, the pass for the
    opening fence takes it for a language tag: the blank line goes, and
    the code line moves onto the fence line.  A line of code with more
    than one word stays on its own line. *)
Theorem fence_open_takes_code_for_tag :
  BaseContentSplitter.fix_fence_close
    (BaseContentSplitter.fix_fence_open (join nl ["```"; ""; "ls"; ""; "```"]))
  = join nl ["```ls"; "```"]
  ∧ BaseContentSplitter.fix_fence_close
      (BaseContentSplitter.fix_fence_open
         (join nl ["```"; ""; "x = 1"; "```"]))
    = join nl ["```"; "x = 1"; "```"].
Proof. split; vm_compute; reflexivity. Qed.

(* ===================================================================== *)
(** ** Link discovery, extraction failure and the page title *)
(* ===================================================================== *)

Module AstroFacts.
Import Soup BaseContentSplitter BaseWebParser AstroParser.

Section WithParser.
Variable base_url : string.
Variable output_dir : string.
Variable fetch_content : string → option string.
Variable BeautifulSoup : string → node.
Variable md : node → option string.
Variable writable : string → bool.

#[local] Abbreviation target := (Claimed.link_target base_url).

Lemma elem_of_add_link page_url links link u :
  has_attr "href" link = true →
  u ∈ add_link base_url page_url links link
  ↔ u ∈ links ∨ target page_url u link.
Proof.
  intros Hattr. unfold add_link, Claimed.link_target, has_attr in *.
  destruct (get "href" link) as [href|] eqn:Hget; [|discriminate].
  simpl default.
  destruct (startswith "#" href) eqn:Hfrag.
  { split; [auto|]. intros [H|(h & [= <-] & Hh & _)]; [done|congruence]. }
  unfold is_valid_url.
  destruct (String.eqb_spec
              (netloc (urlparse (normalize_identifier
                                   (UrlJoin.urljoin page_url href))))
              (netloc (urlparse (self_base_url base_url)))) as [Heq|Hne].
  - rewrite elem_of_union, elem_of_singleton. split.
    + intros [->|H]; [right|auto]. exists href. auto.
    + intros [H|(h & [= <-] & _ & -> & _)]; auto.
  - split; [auto|]. intros [H|(h & [= <-] & _ & -> & Hn)]; [done|].
    contradiction.
Qed.

Lemma elem_of_fold_add_link page_url l links u :
  Forall (λ link, has_attr "href" link = true) l →
  u ∈ fold_left (add_link base_url page_url) l links
  ↔ u ∈ links ∨ ∃ link, link ∈ l ∧ target page_url u link.
Proof.
  intros Hall. revert links.
  induction Hall as [|link l Hlink Hall IH]; intros links; simpl.
  - split; [auto|]. intros [H|(link & Hin & _)]; [done|].
    by apply elem_of_nil in Hin.
  - rewrite IH, elem_of_add_link by done. split.
    + intros [[H|H]|(link' & Hin & H)]; eauto.
      * right. exists link. split; [apply list_elem_of_here|done].
      * right. exists link'. split; [by apply list_elem_of_further|done].
    + intros [H|(link' & Hin & H)]; [auto|].
      apply elem_of_cons in Hin as [->|Hin]; eauto.
Qed.

Lemma elem_of_extract_links content page_url u :
  u ∈ extract_links base_url BeautifulSoup content page_url
  ↔ ∃ link,
      link ∈ find_all (λ n, is_tag "a" n && has_attr "href" n)
               (BeautifulSoup content)
      ∧ target page_url u link.
Proof.
  unfold extract_links. rewrite elem_of_fold_add_link.
  - split; [|auto]. intros [H|H]; [|done]. by apply not_elem_of_empty in H.
  - unfold find_all. apply Forall_forall. intros link Hin.
    apply list_elem_of_In, filter_In in Hin as [_ Hin].
    by apply andb_prop in Hin as [_ ?].
Qed.

End WithParser.

Section WithDriver.
Variable fetch_content : string → option string.
Variable process_content :
  string → gmap string string → gmap string string → outcome.
Variable normalize : string → string.

#[local] Abbreviation one :=
  (BaseParser.collect_one fetch_content process_content normalize).
#[local] Abbreviation loop :=
  (BaseParser.collect_loop fetch_content process_content normalize).

(** Once the flag is down it stays down. *)
Lemma collect_one_failed st identifier :
  BaseParser.success st = false →
  BaseParser.success (one st identifier) = false.
Proof.
  intros Hf. unfold BaseParser.collect_one.
  case_bool_decide; [done|].
  destruct (BaseParser.truthy (fetch_content identifier)); simpl; [|done].
  by destruct (ok _).
Qed.

Lemma collect_loop_failed identifiers st :
  BaseParser.success st = false →
  BaseParser.success (loop identifiers st) = false.
Proof.
  revert st. induction identifiers as [|i l IH]; intros st Hf; [done|].
  simpl. apply IH. by apply collect_one_failed.
Qed.

End WithDriver.

End AstroFacts.

Import Soup BaseContentSplitter BaseWebParser AstroParser.

(* ===================================================================== *)
(** ** The crawl *)
(* ===================================================================== *)

Module CrawlFacts.
Import CrawlInv.

Section WithSite.
Variable base_url : string.
Variable fetch_content : string → option string.
Variable BeautifulSoup : string → node.

#[local] Abbreviation step := (crawl_step base_url fetch_content BeautifulSoup).
#[local] Abbreviation go := (visit base_url fetch_content BeautifulSoup).
#[local] Abbreviation start := (crawl_start base_url).
#[local] Abbreviation links := (extract_links base_url BeautifulSoup).
#[local] Abbreviation reach :=
  (Claimed.reachable base_url fetch_content BeautifulSoup).
#[local] Abbreviation can_fetch := (Claimed.fetchable fetch_content).
#[local] Abbreviation inv := (crawl_inv base_url fetch_content BeautifulSoup).
#[local] Abbreviation turn :=
  (CrawlInv.turn base_url fetch_content BeautifulSoup).

Lemma visit_turn url st : turn url st (go url st).
Proof.
  unfold visit. case_bool_decide as Hseen; [by constructor|].
  destruct (BaseParser.truthy (fetch_content url)) as [content|] eqn:Hf.
  - by apply turn_fetched.
  - by apply turn_failed.
Qed.

(** The run with a fixed order of [pop] is a run of the loop. *)
Lemma pop_by_elem order pending url :
  pop_by order pending = Some url → url ∈ pending.
Proof.
  unfold pop_by. intros H. apply find_some in H as [_ H].
  by apply bool_decide_eq_true in H.
Qed.

Lemma crawl_rtc order fuel st : rtc step st (crawl base_url fetch_content BeautifulSoup order fuel st).
Proof.
  revert st. induction fuel as [|n IH]; intros st; simpl; [done|].
  destruct (pop_by order (urls_to_process st)) as [url|] eqn:Hpop; [|done].
  eapply rtc_l; [|apply IH]. exists url. split; [|done].
  by eapply pop_by_elem.
Qed.

(** *** Requests for an identifier that cannot be fetched *)

Lemma times_app u l1 l2 : times u (l1 ++ l2) = times u l1 + times u l2.
Proof. apply count_occ_app. Qed.

Lemma times_one u v : times u [v] = if bool_decide (v = u) then 1 else 0.
Proof.
  unfold times. simpl. destruct (string_dec v u); by case_bool_decide.
Qed.

Lemma retry_bound_start u : retry_bound u start.
Proof.
  unfold retry_bound. simpl. case_bool_decide; lia.
Qed.

Lemma retry_bound_step u st st' :
  BaseParser.truthy (fetch_content u) = None →
  retry_bound u st → step st st' → retry_bound u st'.
Proof.
  intros Hfail Hb (url & Hin & ->). unfold retry_bound in *.
  destruct (visit_turn url st) as [Hseen|Hnew Hf|content Hnew Hf]; simpl.
  - repeat case_bool_decide; set_solver || lia.
  - rewrite times_app, times_one.
    repeat case_bool_decide; set_solver || lia.
  - rewrite times_app, times_one, size_union, size_singleton by set_solver.
    assert (url ≠ u) by congruence.
    repeat case_bool_decide; try lia; congruence.
Qed.

Lemma retry_bound_rtc u st :
  BaseParser.truthy (fetch_content u) = None →
  rtc step start st → retry_bound u st.
Proof.
  intros Hfail Hrun.
  cut (∀ a b, rtc step a b → retry_bound u a → retry_bound u b).
  { intros H. eapply H; [done|]. apply retry_bound_start. }
  clear Hrun. intros a b Hrun. induction Hrun; [done|].
  intros Ha. apply IHHrun. by eapply retry_bound_step.
Qed.

(** *** Sites whose links are in normal form *)

Section Normal.
Hypothesis root_normal :
  normalize_identifier (self_base_url base_url) = self_base_url base_url.
Hypothesis links_normal : ∀ url content link,
  BaseParser.truthy (fetch_content url) = Some content →
  link ∈ links content url → normalize_identifier link = link.

Lemma inv_start : inv start.
Proof.
  split; simpl.
  - intros u Hu. by apply not_elem_of_empty in Hu.
  - intros u Hu. apply elem_of_singleton in Hu as ->.
    split; [constructor|done].
  - done.
  - right. left. by apply elem_of_singleton.
  - intros u c v Hu. by apply not_elem_of_empty in Hu.
Qed.

Lemma inv_turn url st st' :
  inv st → url ∈ urls_to_process st → turn url st st' → inv st'.
Proof.
  intros [Hall Hpend Hunseen Hroot Hclosed] Hin Hturn.
  destruct (Hpend url Hin) as [Hreach Hnorm].
  destruct Hturn as [Hseen|Hnew Hf|content Hnew Hf];
    rewrite Hnorm in *; split; simpl.
  - done.
  - intros u Hu. apply Hpend. set_solver.
  - done.
  - destruct Hroot as [?|[?|?]]; [by left| |by right; right].
    destruct (decide (self_base_url base_url = url)) as [<-|?];
      [by left|right; left; set_solver].
  - intros u c v Hu Hc Hv.
    destruct (Hclosed u c v Hu Hc Hv) as [?|[?|?]];
      [by left| |by right; right].
    destruct (decide (v = url)) as [->|?]; [by left|right; left; set_solver].
  - intros u Hu. destruct (Hall u Hu) as (? & ? & ? & Hone).
    repeat split; try done. rewrite times_app, times_one.
    case_bool_decide; [congruence|lia].
  - intros u Hu. apply Hpend. set_solver.
  - intros u [c Hc] Hu.
    rewrite times_app, times_one, Hunseen; [|by eexists|done].
    case_bool_decide; [congruence|done].
  - destruct Hroot as [?|[?|?]]; [by left| |by right; right].
    destruct (decide (self_base_url base_url = url)) as [<-|?].
    + right; right. intros [c Hc]. congruence.
    + right; left. set_solver.
  - intros u c v Hu Hc Hv.
    destruct (Hclosed u c v Hu Hc Hv) as [?|[?|?]];
      [by left| |by right; right].
    destruct (decide (v = url)) as [->|?].
    + right; right. intros [c' Hc']. congruence.
    + right; left. set_solver.
  - intros u Hu. apply elem_of_union in Hu as [Hu|Hu].
    + apply elem_of_singleton in Hu as ->.
      repeat split; [by eexists|done|done|].
      rewrite times_app, times_one, Hunseen; [|by eexists|done].
      by case_bool_decide.
    + destruct (Hall u Hu) as (? & ? & ? & Hone).
      repeat split; try done. rewrite times_app, times_one.
      case_bool_decide; [congruence|lia].
  - intros u Hu. apply elem_of_union in Hu as [Hu|Hu].
    + apply Hpend. set_solver.
    + apply elem_of_difference in Hu as [Hu _]. split.
      * by eapply Claimed.reach_link.
      * by eapply links_normal.
  - intros u Hc Hu. rewrite times_app, times_one, Hunseen; [|done|set_solver].
    case_bool_decide; [set_solver|done].
  - destruct Hroot as [?|[?|?]]; [left; set_solver| |by right; right].
    destruct (decide (self_base_url base_url = url)) as [<-|?];
      [left|right; left]; set_solver.
  - intros u c v Hu Hc Hv.
    destruct (decide (v ∈ {[url]} ∪ all_urls st)) as [?|Hv']; [by left|].
    apply elem_of_union in Hu as [Hu|Hu].
    + apply elem_of_singleton in Hu as ->.
      assert (c = content) as -> by congruence. right; left. set_solver.
    + destruct (Hclosed u c v Hu Hc Hv) as [?|[?|?]];
        [set_solver|right; left; set_solver|by right; right].
Qed.

Lemma inv_step st st' : inv st → step st st' → inv st'.
Proof.
  intros Hinv (url & Hin & ->). eapply inv_turn; [done..|].
  apply visit_turn.
Qed.

Lemma inv_rtc st : rtc step start st → inv st.
Proof.
  intros Hrun.
  cut (∀ a b, rtc step a b → inv a → inv b).
  { intros H. eapply H; [done|]. apply inv_start. }
  clear Hrun. intros a b Hrun. induction Hrun; [done|].
  intros Ha. apply IHHrun. by eapply inv_step.
Qed.

(** When nothing is pending, every page that can be reached and fetched
    is recorded. *)
Lemma inv_complete st u :
  inv st → urls_to_process st = ∅ → reach u → can_fetch u → u ∈ all_urls st.
Proof.
  intros [Hall Hpend Hunseen Hroot Hclosed] Hempty Hreach.
  induction Hreach as [|url content link Hurl IH Hc Hlink]; intros Hfetch.
  - destruct Hroot as [?|[Hp|?]]; [done| |done].
    rewrite Hempty in Hp. by apply not_elem_of_empty in Hp.
  - assert (url ∈ all_urls st) as Hin by (apply IH; by eexists).
    destruct (Hclosed url content link Hin Hc Hlink) as [?|[Hp|?]];
      [done| |done].
    rewrite Hempty in Hp. by apply not_elem_of_empty in Hp.
Qed.

(** *** Termination *)

Section Finite.
Variable site : gset string.
Hypothesis site_finite : ∀ url content,
  BaseParser.truthy (fetch_content url) = Some content → url ∈ site.

Lemma crawl_sn_bounded n : ∀ m st,
  inv st → (size (site ∖ all_urls st) <= n)%nat →
  (size (urls_to_process st) <= m)%nat →
  sn step st.
Proof.
  induction n as [n IHn] using lt_wf_ind.
  induction m as [m IHm] using lt_wf_ind.
  intros st Hinv Hn Hm. constructor. intros st' Hstep.
  assert (inv st') as Hinv' by (by eapply inv_step).
  destruct Hstep as (url & Hin & ->).
  destruct (inv_pending _ _ _ _ Hinv url Hin) as [_ Hnorm].
  assert (size (urls_to_process st ∖ {[url]}) < size (urls_to_process st))%nat
    as Hless.
  { apply subset_size. set_solver. }
  revert Hinv'.
  destruct (visit_turn url st) as [Hseen|Hnew Hf|content Hnew Hf];
    intros Hinv'.
  - eapply (IHm (size (urls_to_process st ∖ {[url]}))); simpl; [lia|done..].
  - eapply (IHm (size (urls_to_process st ∖ {[url]}))); simpl; [lia|done..].
  - rewrite Hnorm in *.
    eapply (IHn (size (site ∖ ({[url]} ∪ all_urls st)))); simpl; [|done..].
    eapply Nat.lt_le_trans; [|exact Hn].
    apply subset_size. apply site_finite in Hf. set_solver.
Qed.

Lemma crawl_sn : sn step start.
Proof. eapply crawl_sn_bounded; [apply inv_start|done..]. Qed.

(** A loop that cannot run forever comes to an end. *)
Lemma sn_finishes st :
  sn step st → ∃ st', rtc step st st' ∧ urls_to_process st' = ∅.
Proof.
  induction 1 as [st _ IH].
  destruct (decide (urls_to_process st = ∅)) as [?|Hne]; [by exists st|].
  apply set_choose_L in Hne as [url Hin].
  destruct (IH (go url st)) as (st' & Hrun & Hdone); [by exists url|].
  exists st'. split; [|done]. eapply rtc_l; [|done]. by exists url.
Qed.

End Finite.

End Normal.

(** *** What a turn of the loop requests and adds *)

Lemma visit_requests url st :
  (requests (go url st) = requests st)
  ∨ (requests (go url st) = (requests st ++ [url])%list).
Proof. destruct (visit_turn url st); simpl; auto. Qed.

Lemma visit_failed url st :
  BaseParser.truthy (fetch_content url) = None →
  (url ∉ urls_to_process (go url st)) ∧ all_urls (go url st) = all_urls st.
Proof.
  intros Hf. destruct (visit_turn url st); simpl; [set_solver..|congruence].
Qed.

Lemma visit_adds url st v :
  v ∉ urls_to_process st → v ∈ urls_to_process (go url st) →
  ∃ content, BaseParser.truthy (fetch_content url) = Some content
             ∧ v ∈ links content url.
Proof.
  intros Hout. destruct (visit_turn url st); simpl; [set_solver..|].
  intros Hin. exists content. set_solver.
Qed.

End WithSite.

Section WithDriver.
Variable fetch_content : string → option string.
Variable process_content :
  string → gmap string string → gmap string string → outcome.

#[local] Abbreviation one :=
  (BaseParser.collect_one fetch_content process_content normalize_identifier).
#[local] Abbreviation loop :=
  (BaseParser.collect_loop fetch_content process_content normalize_identifier).

(** The loop requests only identifiers it is given. *)
Lemma collect_loop_other u order st :
  u ∉ order →
  times u (BaseParser.fetched (loop order st)) = times u (BaseParser.fetched st).
Proof.
  revert st. induction order as [|i l IH]; intros st Hout; [done|].
  apply not_elem_of_cons in Hout as [Hne Hout]. simpl. rewrite IH by done.
  unfold BaseParser.collect_one. case_bool_decide; [done|].
  destruct (BaseParser.truthy (fetch_content i)); simpl;
    rewrite times_app, times_one; case_bool_decide; congruence || lia.
Qed.

(** Over distinct identifiers in normal form that can be fetched and are
    not yet processed, the loop requests each once, in order. *)
Lemma collect_loop_fresh order st :
  NoDup order →
  (∀ u, u ∈ order →
        normalize_identifier u = u ∧ Claimed.fetchable fetch_content u
        ∧ u ∉ BaseParser.processed_items st) →
  BaseParser.fetched (loop order st) = (BaseParser.fetched st ++ order)%list
  ∧ BaseParser.processed_items (loop order st)
    = list_to_set order ∪ BaseParser.processed_items st.
Proof.
  revert st. induction order as [|i l IH]; intros st Hnd Hall.
  { simpl. split; [by rewrite app_nil_r|set_solver]. }
  apply NoDup_cons in Hnd as [Hi Hnd].
  destruct (Hall i) as (Hnorm & [c Hc] & Hnew); [set_solver|].
  set (r := process_content c {[ "identifier" := i ]} (BaseParser.fs st)).
  assert (one st i
          = BaseParser.mkDriver
              (if ok r then BaseParser.success st else false)
              ({[ i ]} ∪ BaseParser.processed_items st) (files r)
              (BaseParser.fetched st ++ [i])%list) as Hone.
  { unfold BaseParser.collect_one.
    by rewrite Hnorm, bool_decide_eq_false_2, Hc by done. }
  change (loop (i :: l) st) with (loop l (one st i)). rewrite Hone.
  edestruct IH as [Hf Hp]; [done| |rewrite Hf, Hp].
  - intros u Hu. destruct (Hall u) as (? & ? & ?); [set_solver|].
    repeat split; [done..|]. simpl. set_solver.
  - simpl. split; [by rewrite <- app_assoc|set_solver].
Qed.

End WithDriver.

End CrawlFacts.

(** *** The example sites *)

Module SiteFacts.
Import CrawlInv.

(** Membership in a set that evaluates to a list of literals. *)
Ltac each_element H :=
  apply elem_of_elements in H; vm_compute in H;
  repeat (apply elem_of_cons in H as [->|H]; [vm_compute; reflexivity|]);
  by apply elem_of_nil in H.

Lemma cyclic_links_normal url content link :
  BaseParser.truthy (Site.cyclic url) = Some content →
  link ∈ extract_links Site.root Site.BeautifulSoup content url →
  normalize_identifier link = link.
Proof.
  unfold Site.cyclic. intros Hf Hin.
  destruct (String.eqb_spec url Site.A) as [->|_];
    [injection Hf as <-; each_element Hin|].
  destruct (String.eqb_spec url Site.B) as [->|_];
    [injection Hf as <-; each_element Hin|].
  destruct (String.eqb_spec url Site.C) as [->|_];
    [injection Hf as <-; each_element Hin|].
  discriminate Hf.
Qed.

Lemma cyclic_finite url content :
  BaseParser.truthy (Site.cyclic url) = Some content →
  url ∈ ({[ Site.A; Site.B; Site.C ]} : gset string).
Proof.
  unfold Site.cyclic. intros Hf.
  destruct (String.eqb_spec url Site.A) as [->|_]; [set_solver|].
  destruct (String.eqb_spec url Site.B) as [->|_]; [set_solver|].
  destruct (String.eqb_spec url Site.C) as [->|_]; [set_solver|].
  discriminate Hf.
Qed.

Lemma broken_links_normal url content link :
  BaseParser.truthy (Site.broken url) = Some content →
  link ∈ extract_links Site.root Site.BeautifulSoup content url →
  normalize_identifier link = link.
Proof.
  unfold Site.broken. intros Hf Hin.
  destruct (String.eqb_spec url Site.A) as [->|_];
    [injection Hf as <-; each_element Hin|].
  destruct (String.eqb_spec url Site.B) as [->|_];
    [injection Hf as <-; each_element Hin|].
  discriminate Hf.
Qed.

(** The run of [collect_and_save_contents] in which [pop] follows
    [order] and the loop takes the identifiers as [elements] lists
    them. *)
Lemma run_by base_url output_dir fetch_content BeautifulSoup md writable
    order fuel :
  let st := crawl base_url fetch_content BeautifulSoup order fuel
              (crawl_start base_url) in
  urls_to_process st = ∅ →
  collect_and_save_contents base_url output_dir fetch_content BeautifulSoup
    md writable ∅ ∅
    (BaseParser.collect_loop fetch_content
       (λ c m f, fst (process_content output_dir BeautifulSoup md writable
                        c m f))
       normalize_identifier (elements (all_urls st))
       (BaseParser.mkDriver true ∅ ∅ (requests st))).
Proof.
  intros st Hdone. exists (all_urls st), (requests st), (elements (all_urls st)).
  split; [|done]. exists st. split; [apply CrawlFacts.crawl_rtc|done].
Qed.

End SiteFacts.

(* ===================================================================== *)
(** ** The crawl: termination, visits and failed fetches *)
(* ===================================================================== *)

Import CrawlInv.

(** C2, as stated, fails: on the site where A and B both link to X, which
    cannot be fetched, the run that pops X before B requests X, fails,
    fetches B, finds the link to X again and requests X a second time. *)
Lemma broken_link_fetched_again :
  ¬ (∀ st u,
       rtc (crawl_step Site.root Site.broken Site.BeautifulSoup)
         (crawl_start Site.root) st →
       BaseParser.truthy (Site.broken u) = None →
       (times u (requests st) <= 1)%nat).
Proof.
  intros H.
  specialize (H (crawl Site.root Site.broken Site.BeautifulSoup
                   [Site.A; Site.X; Site.B] 4 (crawl_start Site.root))
                Site.X (CrawlFacts.crawl_rtc _ _ _ _ _ _) eq_refl).
  vm_compute in H. lia.
Qed.

(** C2, amended: on a site whose links are in normal form, an identifier
    whose fetch fails is never recorded, so that the loop of
    [collect_and_save_contents] issues no request for it.  In
    [get_identifiers] a turn requests only the identifier it pops; the
    failed identifier leaves the pending set on that turn and comes back
    only when a page fetched with success links to it, so it is
    requested at most once more than there are recorded pages. *)
Theorem failed_fetch_retried_only_when_rediscovered
    (base_url output_dir : string) (fetch_content : string → option string)
    (BeautifulSoup : string → node) (md : node → option string)
    (writable : string → bool) (u : string) :
  normalize_identifier (self_base_url base_url) = self_base_url base_url →
  (∀ url content link,
     BaseParser.truthy (fetch_content url) = Some content →
     link ∈ extract_links base_url BeautifulSoup content url →
     normalize_identifier link = link) →
  BaseParser.truthy (fetch_content u) = None →
  (∀ st,
     rtc (crawl_step base_url fetch_content BeautifulSoup)
       (crawl_start base_url) st →
     (u ∉ all_urls st)
     ∧ (times u (requests st) <= 1 + size (all_urls st))%nat
     ∧ (∀ url,
          let st' := visit base_url fetch_content BeautifulSoup url st in
          ((requests st' = requests st)
           ∨ (requests st' = (requests st ++ [url])%list))
          ∧ (u ∉ urls_to_process
                   (visit base_url fetch_content BeautifulSoup u st))
          ∧ (u ∉ urls_to_process st → u ∈ urls_to_process st' →
             ∃ content,
               BaseParser.truthy (fetch_content url) = Some content
               ∧ u ∈ extract_links base_url BeautifulSoup content url)))
  ∧ (∀ done fs final,
       collect_and_save_contents base_url output_dir fetch_content
         BeautifulSoup md writable done fs final →
       ∃ ids reqs,
         get_identifiers base_url fetch_content BeautifulSoup ids reqs
         ∧ (u ∉ ids)
         ∧ times u (BaseParser.fetched final) = times u reqs).
Proof.
  intros Hroot Hlinks Hfail.
  assert (Hout : ∀ st,
            rtc (crawl_step base_url fetch_content BeautifulSoup)
              (crawl_start base_url) st → u ∉ all_urls st).
  { intros st Hrun Hin.
    pose proof (CrawlFacts.inv_rtc _ _ _ Hroot Hlinks st Hrun) as Hinv.
    destruct (inv_all _ _ _ _ Hinv u Hin) as ([c Hc] & _). congruence. }
  split.
  - intros st Hrun. split; [by apply Hout|]. split.
    + pose proof (CrawlFacts.retry_bound_rtc _ _ _ u st Hfail Hrun) as Hb.
      unfold retry_bound in Hb. lia.
    + intros url st'. split; [apply CrawlFacts.visit_requests|]. split.
      * by apply CrawlFacts.visit_failed.
      * apply CrawlFacts.visit_adds.
  - intros done fs final (ids & reqs & order & Hget & Hperm & ->).
    exists ids, reqs. split; [done|].
    assert (u ∉ ids) as Hid.
    { destruct Hget as (st & Hrun & _ & -> & _). by apply Hout. }
    split; [done|]. rewrite CrawlFacts.collect_loop_other; [done|].
    rewrite Hperm. by rewrite elem_of_elements.
Qed.

(** On the site with the link to X that cannot be fetched, X is never
    recorded and is requested at most once more than there are recorded
    pages. *)
Lemma failed_fetch_witness :
  normalize_identifier (self_base_url Site.root) = self_base_url Site.root
  ∧ BaseParser.truthy (Site.broken Site.X) = None
  ∧ ∀ st,
      rtc (crawl_step Site.root Site.broken Site.BeautifulSoup)
        (crawl_start Site.root) st →
      (Site.X ∉ all_urls st)
      ∧ (times Site.X (requests st) <= 1 + size (all_urls st))%nat.
Proof.
  split; [reflexivity|]. split; [reflexivity|]. intros st Hrun.
  destruct (failed_fetch_retried_only_when_rediscovered Site.root
              Site.output_dir Site.broken Site.BeautifulSoup Site.md
              Site.writable Site.X eq_refl SiteFacts.broken_links_normal
              eq_refl) as [Hturns _].
  destruct (Hturns st Hrun) as (Hout & Hbound & _). split; assumption.
Defined.

(* ===================================================================== *)
(** ** Parsing and normalising an absolute URL *)
(* ===================================================================== *)

Module UrlFacts.
Import PyStr UrlParse Url.
#[local] Arguments Ascii.eqb : simpl never.

Lemma app_cons x (a b : string) : String x a ++ b = String x (a ++ b).
Proof. reflexivity. Qed.

Lemma app_nil_l (b : string) : "" ++ b = b.
Proof. reflexivity. Qed.

(** Induction over the left operand of an append. *)
Tactic Notation "app_induction" ident(a) "as" ident(x) ident(IH) :=
  induction a as [|x a IH]; rewrite ?app_cons, ?app_nil_l; simpl;
  rewrite ?app_cons, ?app_nil_l.

Lemma append_assoc (a b c : string) : (a ++ b) ++ c = a ++ (b ++ c).
Proof. app_induction a as x IH; [done|by f_equal]. Qed.

Lemma append_nil_r (a : string) : a ++ "" = a.
Proof. app_induction a as x IH; [done|by f_equal]. Qed.

Lemma contains_app c a b : contains c (a ++ b) = contains c a || contains c b.
Proof.
  app_induction a as x IH; [done|]. rewrite IH. by rewrite orb_assoc.
Qed.

Lemma find_app c a b :
  contains c a = false →
  find c (a ++ b) = (λ i, String.length a + i) <$> find c b.
Proof.
  app_induction a as x IH; intros Hc.
  - by destruct (find c b).
  - apply orb_false_elim in Hc as [Hx Ha]. rewrite Hx, IH by done.
    by destruct (find c b).
Qed.

Lemma find_here c b : find c (String c b) = Some 0.
Proof. simpl. by rewrite Ascii.eqb_refl. Qed.

Lemma find_none c s : contains c s = false → find c s = None.
Proof.
  induction s as [|x s IH]; simpl; [done|]. intros Hc.
  apply orb_false_elim in Hc as [Hx Hs]. by rewrite Hx, IH.
Qed.

Lemma take_app a b : take (String.length a) (a ++ b) = a.
Proof. app_induction a as x IH; [by destruct b|by f_equal]. Qed.

Lemma take_app_more a b j :
  take (String.length a + j) (a ++ b) = a ++ take j b.
Proof. app_induction a as x IH; [done|by f_equal]. Qed.

Lemma drop_app a b : drop (String.length a) (a ++ b) = b.
Proof. app_induction a as x IH; done. Qed.

Lemma length_app a b :
  String.length (a ++ b) = String.length a + String.length b.
Proof. app_induction a as x IH; [done|by f_equal]. Qed.

Lemma take_all a : take (String.length a) a = a.
Proof. app_induction a as x IH; [done|by f_equal]. Qed.

Lemma drop_all a : drop (String.length a) a = "".
Proof. app_induction a as x IH; done. Qed.

(** Characters a class excludes do not occur in a string of the class. *)
Lemma all_chars_contains f x s :
  all_chars f s = true → f x = false → contains x s = false.
Proof.
  induction s as [|c s IH]; simpl; [done|]. intros Hall Hx.
  apply andb_prop in Hall as [Hc Hs]. rewrite IH by done.
  destruct (Ascii.eqb_spec x c) as [->|_]; [congruence|done].
Qed.

(** *** The removal of tabs and line breaks *)

Lemma replace_char x s : replace (String x "") "" s = without x s.
Proof.
  unfold replace. induction s as [|c s IH]; [done|].
  rewrite StrFacts.replace_from_cons. simpl startswith.
  rewrite andb_true_r. simpl without.
  destruct (Ascii.eqb x c); simpl; by rewrite IH.
Qed.

Lemma without_app x a b : without x (a ++ b) = without x a ++ without x b.
Proof.
  app_induction a as c IH; [done|].
  destruct (Ascii.eqb x c); rewrite ?app_cons; by rewrite IH.
Qed.

Lemma without_id x s : contains x s = false → without x s = s.
Proof.
  induction s as [|c s IH]; simpl; [done|]. intros Hc.
  apply orb_false_elim in Hc as [-> Hs]. by rewrite IH.
Qed.

Lemma remove_unsafe_app a b :
  remove_unsafe (a ++ b) = remove_unsafe a ++ remove_unsafe b.
Proof. unfold remove_unsafe. by rewrite !replace_char, !without_app. Qed.

Lemma remove_unsafe_id f s :
  all_chars f s = true → (∀ c, unsafe c = true → f c = false) →
  remove_unsafe s = s.
Proof.
  intros Hall Hf. unfold remove_unsafe. rewrite !replace_char.
  rewrite (without_id TAB), (without_id CR), (without_id LF); [done|..];
    eapply all_chars_contains; try done; by apply Hf.
Qed.

Lemma remove_unsafe_tail t : tail_ok t = true → tail_ok (remove_unsafe t) = true.
Proof.
  destruct t as [|c t]; [done|]. simpl. intros Hc.
  change (String c t) with (String c "" ++ t).
  rewrite remove_unsafe_app.
  assert (remove_unsafe (String c "") = String c "") as ->; [|done].
  rewrite orb_false_r in Hc.
  apply orb_prop in Hc as [Hc|Hc]; apply Ascii.eqb_eq in Hc; by subst c.
Qed.

(** *** Facts about single characters, by enumeration *)

Ltac by_enumeration c :=
  destruct c as [[] [] [] [] [] [] [] []]; vm_compute;
  try reflexivity; try discriminate; try tauto.

Lemma alpha_not_stripped c :
  is_ascii_alpha c = true → C0_CONTROL_OR_SPACE c = false.
Proof. by_enumeration c. Qed.

Lemma unsafe_not_scheme c : unsafe c = true → scheme_chars c = false.
Proof. by_enumeration c. Qed.

Lemma unsafe_not_host c : unsafe c = true → host_char c = false.
Proof. by_enumeration c. Qed.

Lemma unsafe_not_path c : unsafe c = true → path_char c = false.
Proof. by_enumeration c. Qed.

Lemma lower_char_scheme c :
  scheme_chars c = true → scheme_chars (lower_char c) = true.
Proof. by_enumeration c. Qed.

Lemma lower_char_alpha c :
  is_ascii_alpha c = true → is_ascii_alpha (lower_char c) = true.
Proof. by_enumeration c. Qed.

Lemma lower_char_idem c : lower_char (lower_char c) = lower_char c.
Proof. by_enumeration c. Qed.

Lemma lower_idem s : lower (lower s) = lower s.
Proof.
  induction s as [|c s IH]; simpl; [done|]. by rewrite lower_char_idem, IH.
Qed.

Lemma lower_scheme_ok s : scheme_ok s = true → scheme_ok (lower s) = true.
Proof.
  destruct s as [|c s]; [done|]. simpl. intros H.
  apply andb_prop in H as [Ha H]. apply andb_prop in H as [Hc Hs].
  rewrite lower_char_alpha, lower_char_scheme by done. simpl.
  induction s as [|d s IH]; [done|]. simpl in *.
  apply andb_prop in Hs as [Hd Hs]. by rewrite lower_char_scheme, IH.
Qed.

(** *** The stripping of slashes *)

Lemma rstrip_idem f s : rstrip f (rstrip f s) = rstrip f s.
Proof.
  induction s as [|c s IH]; [done|]. simpl.
  destruct (rstrip f s) as [|d r] eqn:Hr.
  - destruct (f c) eqn:Hc; [done|]. simpl. by rewrite Hc.
  - simpl. simpl in IH. by rewrite IH.
Qed.

Lemma rstrip_all_chars f g s :
  all_chars g s = true → all_chars g (rstrip f s) = true.
Proof.
  induction s as [|c s IH]; [done|]. simpl. intros H.
  apply andb_prop in H as [Hc Hs]. specialize (IH Hs).
  destruct (rstrip f s) as [|d r].
  - destruct (f c); [done|]. simpl. by rewrite Hc.
  - simpl. rewrite Hc. exact IH.
Qed.

Lemma rstrip_head f c s :
  rstrip f (String c s) = "" ∨ ∃ r, rstrip f (String c s) = String c r.
Proof.
  simpl. destruct (rstrip f s); [destruct (f c)|]; eauto.
Qed.

Lemma rstrip_path_ok p : path_ok p = true → path_ok (rstrip is_slash p) = true.
Proof.
  unfold path_ok. intros H. apply andb_prop in H as [Hhead Hall].
  rewrite rstrip_all_chars, andb_true_r by done.
  destruct p as [|c p]; [done|]. simpl in Hhead.
  destruct (rstrip_head is_slash c p) as [->|[r ->]]; [done|].
  simpl. exact Hhead.
Qed.

(** *** [urlsplit] on a URL given by its parts *)

Lemma scheme_no_colon s : all_chars scheme_chars s = true → contains ":" s = false.
Proof. intros H. by eapply all_chars_contains. Qed.

Lemma host_no_delim n c :
  all_chars host_char n = true → contains c "/?#" = true → contains c n = false.
Proof.
  intros H Hc. eapply all_chars_contains; [done|].
  revert Hc. by_enumeration c.
Qed.

Lemma path_no_delim p c :
  all_chars path_char p = true → contains c "?#;" = true → contains c p = false.
Proof.
  intros H Hc. eapply all_chars_contains; [done|].
  revert Hc. by_enumeration c.
Qed.

(** The host ends where the path, the query or the fragment begins. *)
Lemma splitnetloc_host n r :
  all_chars host_char n = true →
  match r with "" => true | String c _ => contains c "/?#" end = true →
  _splitnetloc ("//" ++ n ++ r) 2 = (n, r).
Proof.
  intros Hn Hr. unfold _splitnetloc, find_from.
  change (drop 2 ("//" ++ n ++ r)) with (n ++ r).
  rewrite !find_app by (by eapply host_no_delim).
  change (String.length ("//" ++ n ++ r)) with (2 + String.length (n ++ r)).
  rewrite length_app.
  assert (∃ d, (d = String.length n ∨ r = "")
               ∧ (d <= String.length n + String.length r)%nat
               ∧ (String.length n <= d)%nat
               ∧ min_delim
                   (min_delim
                      (min_delim (2 + (String.length n + String.length r))
                         ((λ i, 2 + i) <$>
                            ((λ i, String.length n + i) <$> find "/" r)))
                      ((λ i, 2 + i) <$>
                         ((λ i, String.length n + i) <$> find "?" r)))
                   ((λ i, 2 + i) <$>
                      ((λ i, String.length n + i) <$> find "#" r))
                 = 2 + d) as (d & Hd & Hle & Hge & ->).
  { destruct r as [|c r].
    - exists (String.length n + 0). simpl. split; [by right|]. lia.
    - exists (String.length n). split; [by left|]. simpl String.length.
      split; [lia|]. split; [lia|].
      simpl find. simpl in Hr. rewrite orb_false_r in Hr.
      destruct (find "/" r), (find "?" r), (find "#" r);
        destruct (Ascii.eqb_spec "/" c), (Ascii.eqb_spec "?" c),
          (Ascii.eqb_spec "#" c); simpl; try lia; subst; try done;
        destruct (Ascii.eqb_spec c "/"), (Ascii.eqb_spec c "?"),
          (Ascii.eqb_spec c "#"); simpl in Hr; congruence. }
  replace (2 + d - 2) with d by lia.
  change (drop (2 + d) ("//" ++ n ++ r)) with (drop d (n ++ r)).
  destruct Hd as [->| ->].
  - by rewrite take_app, drop_app.
  - rewrite append_nil_r in *. simpl in Hle.
    assert (d = String.length n) as -> by lia.
    by rewrite take_all, drop_all.
Qed.

(** The path ends where the query or the fragment begins. *)
Lemma split_path p t :
  all_chars path_char p = true → tail_ok t = true →
  ∃ u q f,
    (if contains "#" (p ++ t) then split1 "#" (p ++ t) else (p ++ t, ""))
    = (u, f)
    ∧ (if contains "?" u then split1 "?" u else (u, "")) = (p, q).
Proof.
  intros Hp Ht.
  assert (contains "#" p = false) as Hp1 by (by eapply path_no_delim).
  assert (contains "?" p = false) as Hp2 by (by eapply path_no_delim).
  destruct t as [|c t].
  { rewrite append_nil_r, Hp1. exists p, "", "". by rewrite Hp2. }
  simpl in Ht. rewrite orb_false_r in Ht.
  apply orb_prop in Ht as [Hc|Hc]; apply Ascii.eqb_eq in Hc; subst c.
  - assert (∀ v, (if contains "?" (p ++ String "?" v)
                  then split1 "?" (p ++ String "?" v)
                  else (p ++ String "?" v, "")) = (p, v)) as Hq.
    { intros v. rewrite contains_app. simpl contains.
      rewrite ?Ascii.eqb_refl, orb_true_r. unfold split1.
      rewrite find_app, find_here by done. simpl fmap.
      rewrite Nat.add_0_r, take_app.
      replace (S (String.length p)) with (String.length (p ++ "?")).
      - rewrite <- (drop_app (p ++ "?") v) at 2. by rewrite append_assoc.
      - rewrite length_app. simpl. lia. }
    rewrite contains_app, Hp1. simpl contains.
    destruct (contains "#" t) eqn:Hfrag; [|by eexists _, _, _].
    unfold split1 at 1. rewrite find_app by done. simpl find.
    destruct (find "#" t) as [j|] eqn:Hj; simpl fmap; cbv beta iota.
    + rewrite take_app_more. simpl take. by eexists _, _, _.
    + by eexists _, _, _.
  - rewrite contains_app. simpl contains.
    rewrite ?Ascii.eqb_refl, orb_true_r. unfold split1 at 1.
    rewrite find_app, find_here by done. simpl fmap.
    rewrite Nat.add_0_r, take_app. exists p. eexists _, _.
    split; [done|]. by rewrite Hp2.
Qed.

(** [urlsplit] finds the parts of the URL. *)
Lemma urlsplit_build s n p t :
  scheme_ok s = true → host_ok n = true → path_ok p = true →
  tail_ok t = true →
  ∃ q f, urlsplit (build s n p t) "" = mkSplit (lower s) n p q f.
Proof.
  intros Hs Hn Hp Ht. unfold build.
  destruct s as [|c0 s]; [done|]. simpl in Hs.
  apply andb_prop in Hs as [Halpha Hs].
  apply andb_prop in Hn as [Hn0 Hn]. apply andb_prop in Hp as [Hp0 Hp].
  set (S0 := String c0 s) in *.
  assert (all_chars scheme_chars S0 = true) as HS0 by exact Hs.
  unfold urlsplit.
  assert (lstrip C0_CONTROL_OR_SPACE (S0 ++ "://" ++ n ++ p ++ t)
          = S0 ++ "://" ++ n ++ p ++ t) as ->.
  { unfold S0. rewrite app_cons. simpl. by rewrite alpha_not_stripped. }
  rewrite !remove_unsafe_app.
  rewrite (remove_unsafe_id _ S0 HS0 unsafe_not_scheme).
  rewrite (remove_unsafe_id _ n Hn unsafe_not_host).
  rewrite (remove_unsafe_id _ p Hp unsafe_not_path).
  change (remove_unsafe "://") with "://".
  pose proof (remove_unsafe_tail t Ht) as Ht'.
  set (t' := remove_unsafe t) in *. clearbody t'.
  rewrite find_app by (by apply scheme_no_colon).
  change ("://" ++ n ++ p ++ t') with (String ":" ("//" ++ n ++ p ++ t')).
  rewrite find_here. simpl fmap. rewrite Nat.add_0_r.
  change (S (String.length s)) with (String.length S0).
  remember (S0 ++ String ":" ("//" ++ n ++ p ++ t')) as U eqn:HU.
  destruct U as [|c1 U']; [discriminate HU|].
  assert (c1 = c0) as -> by (by injection HU).
  cbv beta iota. rewrite HU. clear HU U'.
  rewrite take_app, Halpha, HS0. simpl andb. cbv beta iota.
  replace (S (String.length S0)) with (String.length (S0 ++ ":")) by
    (rewrite length_app; simpl; lia).
  replace (S0 ++ String ":" ("//" ++ n ++ p ++ t'))
    with ((S0 ++ ":") ++ ("//" ++ n ++ p ++ t')) by (by rewrite append_assoc).
  rewrite drop_app.
  change (startswith "//" ("//" ++ n ++ p ++ t')) with true. cbv iota.
  rewrite splitnetloc_host; [|done|].
  - destruct (split_path p t' Hp Ht') as (u & q & f & -> & ->).
    by exists q, f.
  - destruct p as [|c p].
    + rewrite app_nil_l. destruct t' as [|c t']; [done|].
      simpl in Ht'. simpl. rewrite !orb_false_r in *.
      rewrite Ht'. by rewrite orb_true_r.
    + simpl in Hp0. rewrite app_cons.
      rewrite andb_true_r in Hp0. apply Ascii.eqb_eq in Hp0. by subst c.
Qed.

(** [normalize_identifier] on a URL given by its parts. *)
Lemma normalize_build s n p t :
  scheme_ok s = true → host_ok n = true → path_ok p = true →
  tail_ok t = true →
  BaseWebParser.normalize_identifier (build s n p t)
  = build (lower s) n (rstrip is_slash p) "".
Proof.
  intros Hs Hn Hp Ht.
  destruct (urlsplit_build s n p t Hs Hn Hp Ht) as (q & f & Hsplit).
  unfold BaseWebParser.normalize_identifier, urlparse, urlparse_with.
  rewrite Hsplit. cbn [s_scheme s_netloc s_path s_query s_fragment].
  pose proof (rstrip_path_ok p Hp) as Hr.
  apply andb_prop in Hp as [_ Hp].
  rewrite (path_no_delim p ";" Hp eq_refl), andb_false_r.
  cbn [scheme netloc path].
  unfold urlunparse, urlunsplit. cbn [nonempty].
  apply andb_prop in Hn as [-> _]. cbn [orb].
  apply lower_scheme_ok in Hs.
  assert (nonempty (lower s) = true) as -> by (by destruct (lower s)).
  unfold build. rewrite append_nil_r.
  apply andb_prop in Hr as [Hr _].
  destruct (rstrip is_slash p) as [|c r]; [done|].
  simpl in Hr. rewrite andb_true_r in Hr. apply Ascii.eqb_eq in Hr. by subst c.
Qed.

End UrlFacts.

(* ===================================================================== *)
(** ** The normalisation of identifiers *)
(* ===================================================================== *)

Import Url.

(** C6, as stated, fails: [normalize_identifier] is not idempotent.  The
    path of [https://a.com/a;b/] ends in a slash, so the semicolon is
    not in its last segment and the path is kept whole but for the
    slash; in the result the semicolon is in the last segment, and
    normalising again drops it with what follows as path parameters. *)
Lemma normalize_identifier_not_idempotent :
  ¬ (∀ url, normalize_identifier (normalize_identifier url)
            = normalize_identifier url).
Proof.
  intros H. specialize (H "https://a.com/a;b/").
  vm_compute in H. discriminate H.
Qed.

(** C6, amended: for an absolute URL made of a scheme, a host, a path
    without semicolons and a query or fragment, [normalize_identifier]
    returns the scheme in lower case, the host and the path without its
    trailing slashes, and nothing else; on these URLs it is idempotent,
    and two of them that differ in query, fragment and trailing slashes
    only have the same normal form. *)
Theorem normalize_identifier_of_parts (s n p t : string) :
  scheme_ok s = true → host_ok n = true → path_ok p = true →
  tail_ok t = true →
  normalize_identifier (build s n p t)
  = lower s ++ "://" ++ n ++ rstrip is_slash p
  ∧ normalize_identifier (normalize_identifier (build s n p t))
    = normalize_identifier (build s n p t)
  ∧ (∀ p' t', path_ok p' = true → tail_ok t' = true →
              rstrip is_slash p' = rstrip is_slash p →
              normalize_identifier (build s n p' t')
              = normalize_identifier (build s n p t)).
Proof.
  intros Hs Hn Hp Ht. split; [|split].
  - rewrite UrlFacts.normalize_build by done. unfold build.
    by rewrite UrlFacts.append_nil_r.
  - rewrite (UrlFacts.normalize_build s n p t) by done.
    rewrite UrlFacts.normalize_build;
      [|by apply UrlFacts.lower_scheme_ok|done
       |by apply UrlFacts.rstrip_path_ok|done].
    by rewrite UrlFacts.lower_idem, UrlFacts.rstrip_idem.
  - intros p' t' Hp' Ht' Heq.
    rewrite !UrlFacts.normalize_build by done. by rewrite Heq.
Qed.

(** A documentation page with a query, a fragment and a trailing
    slash. *)
Lemma normalize_identifier_witness :
  scheme_ok "HTTPS" = true
  ∧ normalize_identifier "HTTPS://docs.example.com:8080/guide/intro/?page=2#top"
    = "https://docs.example.com:8080/guide/intro".
Proof.
  split; [reflexivity|].
  exact (proj1 (normalize_identifier_of_parts "HTTPS" "docs.example.com:8080"
                  "/guide/intro/" "?page=2#top"
                  eq_refl eq_refl eq_refl eq_refl)).
Defined.

(* ===================================================================== *)
(** * Further properties of the code *)
(* ===================================================================== *)

(* ===================================================================== *)
(** ** The document tree: hyperlinks, code blocks, regions, boilerplate *)
(* ===================================================================== *)

Module TreeFacts.
Import Notions.

Lemma elem_of_flat_map {A B} (f : A → list B) (l : list A) (y : B) :
  y ∈ flat_map f l ↔ ∃ x, x ∈ l ∧ y ∈ f x.
Proof.
  rewrite list_elem_of_In, in_flat_map. split.
  - intros (x & Hx & Hy). exists x. by rewrite !list_elem_of_In.
  - intros (x & Hx & Hy). exists x. by rewrite <- !list_elem_of_In.
Qed.

Lemma descendants_tag name attrs cs :
  descendants (Tag name attrs cs) = flat_map subtree cs.
Proof. reflexivity. Qed.

Lemma elem_of_descendants_tag name attrs cs d :
  d ∈ descendants (Tag name attrs cs) ↔ ∃ c, c ∈ cs ∧ d ∈ subtree c.
Proof. rewrite descendants_tag. apply elem_of_flat_map. Qed.

(** Below a tree changed child by child there are only nodes of the
    changed children. *)
Lemma below_mapped (f : node → node) (Q : node → Prop) cs :
  Forall (λ c, ∀ d, d ∈ subtree (f c) → Q d) cs →
  ∀ d, d ∈ flat_map subtree (map f cs) → Q d.
Proof.
  intros Hall d Hd. apply elem_of_flat_map in Hd as (c' & Hc' & Hd).
  apply list_elem_of_fmap in Hc' as (c & -> & Hc).
  rewrite Forall_forall in Hall. by eapply Hall.
Qed.

(** *** Hyperlinks to a place in the page *)

Lemma lookup_del_attr key attrs : lookup_attr key (del_attr key attrs) = None.
Proof.
  induction attrs as [|[k v] attrs IH]; [done|]. simpl.
  destruct (String.eqb_spec k key) as [->|Hne]; simpl; [done|].
  by destruct (String.eqb_spec k key).
Qed.

Lemma strip_fragment_hrefs_subtree n :
  ∀ d, d ∈ subtree (strip_fragment_hrefs n) → no_fragment_href d.
Proof.
  induction n as [s|name attrs cs IH] using node_induction; intros d Hd.
  - apply list_elem_of_singleton in Hd as ->. by intros ?.
  - apply elem_of_cons in Hd as [->|Hd].
    + intros Ha href. unfold is_tag in Ha.
      cbn [strip_fragment_hrefs name_of get] in *. rewrite Ha. cbn [andb].
      destruct (lookup_attr "href" attrs) as [h|] eqn:Hh.
      * destruct (startswith "#" h) eqn:Hfrag.
        -- by rewrite lookup_del_attr.
        -- rewrite Hh. by intros [= <-].
      * by rewrite Hh.
    + cbn [strip_fragment_hrefs] in Hd. rewrite descendants_tag in Hd.
      revert d Hd.
      by apply (below_mapped strip_fragment_hrefs).
Qed.

Lemma strip_fragment_hrefs_text n : text (strip_fragment_hrefs n) = text n.
Proof.
  induction n as [s|name attrs cs IH] using node_induction; [done|].
  cbn [strip_fragment_hrefs text]. f_equal. rewrite map_map.
  apply map_ext_Forall.
  induction IH; constructor; auto.
Qed.

(** *** Code blocks *)

Lemma rewrite_pre_tag name attrs cs :
  rewrite_pre (Tag name attrs cs)
  = if String.eqb name "pre" && has_string (Tag name attrs cs)
    then Tag name attrs
           [NavigableString
              (nl ++ strip_ws (default "" (string_of (Tag name attrs cs)))
                  ++ nl)]
    else Tag name attrs (map rewrite_pre cs).
Proof. reflexivity. Qed.

(** Rewriting gives no text of its own to a tag that had none. *)
Lemma rewrite_pre_has_string n :
  has_string (rewrite_pre n) = true → has_string n = true.
Proof.
  induction n as [s|name attrs cs IH] using node_induction; [done|].
  rewrite rewrite_pre_tag.
  destruct (String.eqb name "pre" && has_string (Tag name attrs cs)) eqn:Hc.
  { intros _. by apply andb_prop in Hc as [_ ?]. }
  unfold has_string. cbn [string_of].
  destruct cs as [|c [|c' cs]]; [done| |done]. cbn [map].
  apply Forall_cons in IH as [IH _]. exact IH.
Qed.

Lemma rewrite_pre_subtree n :
  ∀ d, d ∈ subtree (rewrite_pre n) → framed_pre d.
Proof.
  induction n as [s|name attrs cs IH] using node_induction; intros d Hd.
  - apply list_elem_of_singleton in Hd as ->. by intros ?.
  - rewrite rewrite_pre_tag in Hd.
    destruct (String.eqb name "pre" && has_string (Tag name attrs cs)) eqn:Hc.
    + apply elem_of_cons in Hd as [->|Hd].
      * intros _ _. by eexists.
      * cbn in Hd. apply list_elem_of_singleton in Hd as ->. by intros ?.
    + apply elem_of_cons in Hd as [->|Hd].
      * intros Hpre Hs. exfalso.
        assert (has_string (rewrite_pre (Tag name attrs cs)) = true) as Hs'.
        { by rewrite rewrite_pre_tag, Hc. }
        apply rewrite_pre_has_string in Hs'.
        unfold is_tag in Hpre. cbn [name_of] in Hpre.
        by rewrite Hpre, Hs' in Hc.
      * rewrite descendants_tag in Hd. revert d Hd.
        by apply (below_mapped rewrite_pre).
Qed.

(** A node of the rewritten tree is a new text or has the name and the
    attributes of a node of the tree before. *)
Lemma rewrite_pre_origin n d :
  d ∈ subtree (rewrite_pre n) →
  name_of d = None
  ∨ ∃ d0, d0 ∈ subtree n ∧ name_of d = name_of d0
          ∧ ∀ key, get key d = get key d0.
Proof.
  revert d. induction n as [s|name attrs cs IH] using node_induction;
    intros d Hd.
  - apply list_elem_of_singleton in Hd as ->. by left.
  - rewrite rewrite_pre_tag in Hd.
    destruct (String.eqb name "pre" && has_string (Tag name attrs cs)).
    + apply elem_of_cons in Hd as [->|Hd].
      * right. exists (Tag name attrs cs).
        split; [apply list_elem_of_here|done].
      * cbn in Hd. apply list_elem_of_singleton in Hd as ->. by left.
    + apply elem_of_cons in Hd as [->|Hd].
      * right. exists (Tag name attrs cs).
        split; [apply list_elem_of_here|done].
      * rewrite descendants_tag in Hd.
        apply elem_of_flat_map in Hd as (c' & Hc' & Hd).
        apply list_elem_of_fmap in Hc' as (c & -> & Hc).
        rewrite Forall_forall in IH.
        destruct (IH c Hc d Hd) as [?|(d0 & Hd0 & ? & ?)]; [by left|].
        right. exists d0. split; [|done]. apply list_elem_of_further.
        apply elem_of_descendants_tag. by exists c.
Qed.

(** *** [find] and the content region *)

Lemma find_tag_none p n :
  find p n = None ↔ ∀ d, d ∈ descendants n → p d = false.
Proof.
  unfold find, find_all. generalize (descendants n). intros l.
  induction l as [|x l IH]; simpl.
  - split; [|done]. intros _ d Hd. by apply elem_of_nil in Hd.
  - destruct (p x) eqn:Hx; simpl.
    + split; [done|]. intros H. specialize (H x (list_elem_of_here _ _)).
      congruence.
    + rewrite IH. split.
      * intros H d Hd. apply elem_of_cons in Hd as [->|Hd]; auto.
      * intros H d Hd. apply H. by apply list_elem_of_further.
Qed.

Lemma find_some p n d :
  find p n = Some d → d ∈ descendants n ∧ p d = true.
Proof.
  unfold find, find_all. generalize (descendants n). intros l.
  induction l as [|x l IH]; simpl; [done|].
  destruct (p x) eqn:Hx; simpl.
  - intros [= <-]. split; [apply list_elem_of_here|done].
  - intros H. destruct (IH H). split; [by apply list_elem_of_further|done].
Qed.

Lemma find_is_some p n d :
  d ∈ descendants n → p d = true → ∃ d', find p n = Some d'.
Proof.
  intros Hd Hp. destruct (find p n) as [d'|] eqn:Hf; [by eexists|].
  rewrite find_tag_none in Hf. rewrite (Hf d Hd) in Hp. discriminate.
Qed.

Lemma or_else_none a b : or_else a b = None ↔ a = None ∧ b = None.
Proof. destruct a; simpl; [split; [done|by intros [? _]]|tauto]. Qed.

Lemma or_else_some a b n :
  or_else a b = Some n → a = Some n ∨ (a = None ∧ b = Some n).
Proof. destruct a; simpl; auto. Qed.

(** *** Removing elements *)

Lemma decompose_all_tag p name attrs cs :
  decompose_all p (Tag name attrs cs)
  = Tag name attrs
      (map (decompose_all p) (List.filter (λ c, negb (p c)) cs)).
Proof.
  cbn [decompose_all]. f_equal.
  induction cs as [|c cs IH]; [done|]. cbn [List.filter].
  destruct (p c); cbn [negb map]; by rewrite IH.
Qed.

(** What remains below a tag is what was there, pruned, and was not
    selected. *)
Lemma decompose_all_subtree p n d :
  d ∈ descendants (decompose_all p n) →
  ∃ d0, d0 ∈ descendants n ∧ p d0 = false ∧ d = decompose_all p d0.
Proof.
  revert d. induction n as [s|name attrs cs IH] using node_induction;
    intros d Hd.
  { by apply elem_of_nil in Hd. }
  rewrite decompose_all_tag, descendants_tag in Hd.
  apply elem_of_flat_map in Hd as (c' & Hc' & Hd).
  apply list_elem_of_fmap in Hc' as (c & -> & Hc).
  apply list_elem_of_In, filter_In in Hc as [Hc Hp].
  apply list_elem_of_In in Hc. apply negb_true_iff in Hp.
  apply elem_of_cons in Hd as [->|Hd].
  - exists c. split; [|done]. apply elem_of_descendants_tag.
    exists c. split; [done|apply list_elem_of_here].
  - rewrite Forall_forall in IH.
    destruct (IH c Hc d Hd) as (d0 & Hd0 & Hp0 & ->).
    exists d0. split; [|done]. apply elem_of_descendants_tag.
    exists c. split; [done|by apply list_elem_of_further].
Qed.

Lemma shallow_decompose p q n :
  shallow p → p (decompose_all q n) = p n.
Proof. intros Hp. destruct n; [done|]. rewrite decompose_all_tag. apply Hp. Qed.

Lemma decompose_all_gone p n d :
  shallow p → d ∈ descendants (decompose_all p n) → p d = false.
Proof.
  intros Hp Hd. apply decompose_all_subtree in Hd as (d0 & _ & Hd0 & ->).
  by rewrite shallow_decompose.
Qed.

Lemma decompose_all_keeps_gone p q n :
  shallow p → (∀ d, d ∈ descendants n → p d = false) →
  ∀ d, d ∈ descendants (decompose_all q n) → p d = false.
Proof.
  intros Hp Hn d Hd. apply decompose_all_subtree in Hd as (d0 & Hd0 & _ & ->).
  rewrite shallow_decompose by done. by apply Hn.
Qed.

Lemma shallow_is_tag name : shallow (is_tag name).
Proof. by intros ????. Qed.

Lemma shallow_has_class cls : shallow (has_class cls).
Proof. by intros ????. Qed.

Lemma shallow_attr_is key value : shallow (attr_is key value).
Proof. by intros ????. Qed.

End TreeFacts.

(* ===================================================================== *)
(** ** More on the driver and the crawl *)
(* ===================================================================== *)

Module DriverFacts.

Section WithDriver.
Variable fetch_content : string → option string.
Variable process_content :
  string → gmap string string → gmap string string → outcome.
Variable normalize : string → string.

#[local] Abbreviation one :=
  (BaseParser.collect_one fetch_content process_content normalize).
#[local] Abbreviation loop :=
  (BaseParser.collect_loop fetch_content process_content normalize).

Lemma collect_one_processed_mono st identifier :
  BaseParser.processed_items st
  ⊆ BaseParser.processed_items (one st identifier).
Proof.
  unfold BaseParser.collect_one. case_bool_decide; [done|].
  destruct (BaseParser.truthy (fetch_content identifier)); simpl; set_solver.
Qed.

Lemma collect_loop_processed_mono identifiers st :
  BaseParser.processed_items st
  ⊆ BaseParser.processed_items (loop identifiers st).
Proof.
  revert st. induction identifiers as [|i l IH]; intros st; [done|].
  simpl. etrans; [apply (collect_one_processed_mono st i)|apply IH].
Qed.

Lemma collect_one_processed st identifier :
  Claimed.fetchable fetch_content identifier →
  normalize identifier ∈ BaseParser.processed_items (one st identifier).
Proof.
  intros [c Hc]. unfold BaseParser.collect_one. case_bool_decide; [done|].
  rewrite Hc. simpl. set_solver.
Qed.

Lemma collect_loop_processed identifiers st identifier :
  identifier ∈ identifiers →
  Claimed.fetchable fetch_content identifier →
  normalize identifier ∈ BaseParser.processed_items (loop identifiers st).
Proof.
  revert st. induction identifiers as [|i l IH]; intros st Hin Hf.
  { by apply elem_of_nil in Hin. }
  simpl. apply elem_of_cons in Hin as [->|Hin]; [|by apply IH].
  apply collect_loop_processed_mono. by apply collect_one_processed.
Qed.

Lemma collect_loop_skip identifiers st :
  (∀ i, i ∈ identifiers → normalize i ∈ BaseParser.processed_items st) →
  loop identifiers st = st.
Proof.
  induction identifiers as [|i l IH]; intros Hall; [done|].
  change (loop (i :: l) st) with (loop l (one st i)).
  assert (one st i = st) as ->.
  { unfold BaseParser.collect_one.
    by rewrite bool_decide_eq_true_2
      by (apply Hall; apply list_elem_of_here). }
  apply IH. intros j Hj. apply Hall. by apply list_elem_of_further.
Qed.

End WithDriver.

Section WithSite.
Variable base_url : string.
Variable fetch_content : string → option string.
Variable BeautifulSoup : string → node.

#[local] Abbreviation step := (crawl_step base_url fetch_content BeautifulSoup).
#[local] Abbreviation go := (visit base_url fetch_content BeautifulSoup).
#[local] Abbreviation start := (crawl_start base_url).
#[local] Abbreviation links := (extract_links base_url BeautifulSoup).

(** *** Termination without conditions on the links *)

Section Finite.
Variable site : gset string.
Hypothesis site_finite : ∀ url content,
  BaseParser.truthy (fetch_content url) = Some content →
  normalize_identifier url ∈ site.

Lemma crawl_sn_any n : ∀ m st,
  (size (site ∖ all_urls st) <= n)%nat →
  (size (urls_to_process st) <= m)%nat →
  sn step st.
Proof.
  induction n as [n IHn] using lt_wf_ind.
  induction m as [m IHm] using lt_wf_ind.
  intros st Hn Hm. constructor. intros st' (url & Hin & ->).
  assert (size (urls_to_process st ∖ {[url]}) < size (urls_to_process st))%nat
    as Hless.
  { apply subset_size. set_solver. }
  destruct (CrawlFacts.visit_turn base_url fetch_content BeautifulSoup url st)
    as [Hseen|Hnew Hf|content Hnew Hf].
  - eapply (IHm (size (urls_to_process st ∖ {[url]}))); simpl; [lia|done..].
  - eapply (IHm (size (urls_to_process st ∖ {[url]}))); simpl; [lia|done..].
  - eapply (IHn (size (site ∖ ({[normalize_identifier url]} ∪ all_urls st))));
      simpl; [|done..].
    eapply Nat.lt_le_trans; [|exact Hn].
    apply subset_size. apply site_finite in Hf. set_solver.
Qed.

End Finite.

(** *** The requests stay on the site *)

#[local] Abbreviation on_site :=
  (Notions.on_site base_url fetch_content).

Lemma on_site_start : on_site start.
Proof.
  split; simpl.
  - intros url [H|H]; [by apply elem_of_singleton in H as ->|].
    by apply elem_of_nil in H.
  - intros u H. by apply not_elem_of_empty in H.
Qed.

Lemma on_site_step st st' : on_site st → step st st' → on_site st'.
Proof.
  intros [Hreq Hall] (url & Hin & ->).
  destruct (CrawlFacts.visit_turn base_url fetch_content BeautifulSoup url st)
    as [Hseen|Hnew Hf|content Hnew Hf]; split; simpl.
  - intros v [Hv|Hv]; apply Hreq; [left; set_solver|by right].
  - done.
  - intros v [Hv|Hv]; [apply Hreq; left; set_solver|].
    apply elem_of_app in Hv as [Hv|Hv]; [by apply Hreq; right|].
    apply list_elem_of_singleton in Hv as ->. by apply Hreq; left.
  - intros u Hu. destruct (Hall u Hu) as (v & Hv & ? & ?).
    exists v. split; [|done]. apply elem_of_app. by left.
  - intros v [Hv|Hv].
    + apply elem_of_union in Hv as [Hv|Hv]; [apply Hreq; left; set_solver|].
      apply elem_of_difference in Hv as [Hv _].
      apply AstroFacts.elem_of_extract_links in Hv as (link & _ & href & H).
      by destruct H as (_ & _ & _ & ?).
    + apply elem_of_app in Hv as [Hv|Hv]; [by apply Hreq; right|].
      apply list_elem_of_singleton in Hv as ->. by apply Hreq; left.
  - intros u Hu. apply elem_of_union in Hu as [Hu|Hu].
    + apply elem_of_singleton in Hu as ->. exists url.
      split; [apply elem_of_app; right; apply list_elem_of_here|].
      split; [done|by eexists].
    + destruct (Hall u Hu) as (v & Hv & ? & ?).
      exists v. split; [|done]. apply elem_of_app. by left.
Qed.

Lemma on_site_rtc st : rtc step start st → on_site st.
Proof.
  intros Hrun.
  cut (∀ a b, rtc step a b → on_site a → on_site b).
  { intros H. eapply H; [done|]. apply on_site_start. }
  clear Hrun. intros a b Hrun. induction Hrun; [done|].
  intros Ha. apply IHHrun. by eapply on_site_step.
Qed.

(** *** A root that cannot be fetched *)

Lemma dead_root_runs st :
  BaseParser.truthy (fetch_content (self_base_url base_url)) = None →
  rtc step start st →
  st = start ∨ st = mkFrontier ∅ ∅ [self_base_url base_url].
Proof.
  intros Hdead Hrun.
  cut (∀ a b, rtc step a b →
         a = start ∨ a = mkFrontier ∅ ∅ [self_base_url base_url] →
         b = start ∨ b = mkFrontier ∅ ∅ [self_base_url base_url]).
  { intros H. eapply H; [done|by left]. }
  clear Hrun. intros a b Hrun. induction Hrun as [|a b c Hstep _ IH]; [done|].
  intros Ha. apply IH. destruct Hstep as (url & Hin & ->).
  destruct Ha as [->| ->]; [|by apply not_elem_of_empty in Hin].
  right. simpl in Hin. apply elem_of_singleton in Hin as ->.
  unfold visit. simpl. rewrite bool_decide_eq_false_2 by apply not_elem_of_empty.
  rewrite Hdead. f_equal. apply difference_diag_L.
Qed.

End WithSite.

End DriverFacts.

(* ===================================================================== *)
(** ** More on file names and on what the splitter writes *)
(* ===================================================================== *)

Module SplitterFacts.
Import Notions.
#[local] Arguments Ascii.eqb : simpl never.

Lemma all_chars_app f a b :
  all_chars f (a ++ b) = all_chars f a && all_chars f b.
Proof.
  induction a as [|c a IH]; [done|].
  rewrite UrlFacts.app_cons. simpl. rewrite IH. by rewrite andb_assoc.
Qed.

Lemma sanitize_safe set s :
  contains "_" set = false →
  all_chars (Re.none_of set) (Claimed.sanitize set s) = true.
Proof.
  intros Hset. induction s as [|c s IH]; [done|].
  simpl. rewrite IH, andb_true_r. unfold Re.none_of.
  destruct (contains c set) eqn:Hc; [by rewrite Hset|by rewrite Hc].
Qed.

Lemma sanitize_nonempty set s :
  nonempty (Claimed.sanitize set s) = nonempty s.
Proof. by destruct s. Qed.

Lemma clean_filename_stem url :
  ∃ stem, nonempty stem = true
          ∧ all_chars (Re.none_of illegal_chars) stem = true
          ∧ clean_filename url = stem ++ ".md".
Proof.
  unfold clean_filename.
  set (p := strip is_slash (path (urlparse url))).
  destruct (nonempty p) eqn:Hp.
  - exists (Claimed.sanitize illegal_chars p).
    rewrite sanitize_nonempty, sanitize_safe by done.
    by rewrite ReFacts.sub_one_of.
  - by exists "index".
Qed.

Lemma startswith_app a b : startswith a (a ++ b) = true.
Proof.
  induction a as [|c a IH]; [done|].
  rewrite UrlFacts.app_cons. simpl. by rewrite Ascii.eqb_refl, IH.
Qed.

Lemma startswith_head c a s :
  contains c s = false → startswith (String c a) s = false.
Proof.
  destruct s as [|d s]; [done|]. simpl. intros H.
  apply orb_false_elim in H as [-> _]. done.
Qed.

(** The file is put into the output directory under its name. *)
Lemma path_join_inside dir name :
  contains "/" name = false →
  ∃ sep, (sep = "" ∨ sep = "/") ∧ path_join dir name = dir ++ sep ++ name.
Proof.
  intros Hname. unfold path_join.
  rewrite startswith_head by done.
  destruct (negb (nonempty dir)
            || String.eqb (drop (String.length dir - 1) dir) "/").
  - exists "". split; [by left|done].
  - exists "/". split; [by right|done].
Qed.

Lemma clean_filename_no_slash url : contains "/" (clean_filename url) = false.
Proof.
  destruct (clean_filename_stem url) as (stem & _ & Hsafe & ->).
  rewrite UrlFacts.contains_app.
  by rewrite (UrlFacts.all_chars_contains _ "/" stem Hsafe).
Qed.

(** The path of a URL given by its parts. *)
Lemma path_build s n p t :
  scheme_ok s = true → host_ok n = true → path_ok p = true →
  tail_ok t = true →
  path (urlparse (build s n p t)) = p.
Proof.
  intros Hs Hn Hp Ht.
  destruct (UrlFacts.urlsplit_build s n p t Hs Hn Hp Ht) as (q & f & Hsplit).
  unfold urlparse, urlparse_with. rewrite Hsplit.
  cbn [s_scheme s_netloc s_path s_query s_fragment].
  apply andb_prop in Hp as [_ Hp].
  by rewrite (UrlFacts.path_no_delim p ";" Hp eq_refl), andb_false_r.
Qed.

Lemma clean_filename_build s n p t :
  scheme_ok s = true → host_ok n = true → path_ok p = true →
  tail_ok t = true →
  clean_filename (build s n p t)
  = (if nonempty (strip is_slash p)
     then Claimed.sanitize illegal_chars (strip is_slash p)
     else "index") ++ ".md".
Proof.
  intros Hs Hn Hp Ht. unfold clean_filename.
  rewrite path_build by done.
  destruct (nonempty (strip is_slash p)); [|done].
  by rewrite ReFacts.sub_one_of.
Qed.

Lemma rstrip_none f y :
  all_chars (λ c, negb (f c)) y = true → rstrip f y = y.
Proof.
  induction y as [|c y IH]; [done|]. simpl. intros H.
  apply andb_prop in H as [Hc Hy]. rewrite (IH Hy).
  apply negb_true_iff in Hc. rewrite Hc. by destruct y.
Qed.

Lemma rstrip_app f x y :
  nonempty (rstrip f y) = true → rstrip f (x ++ y) = x ++ rstrip f y.
Proof.
  intros Hy. induction x as [|c x IH]; [done|].
  rewrite !UrlFacts.app_cons. simpl. rewrite IH.
  destruct (x ++ rstrip f y) as [|d r] eqn:E; [|done].
  destruct x; [|done]. rewrite UrlFacts.app_nil_l in E. by rewrite E in Hy.
Qed.

Lemma sanitize_app set a b :
  Claimed.sanitize set (a ++ b)
  = Claimed.sanitize set a ++ Claimed.sanitize set b.
Proof.
  induction a as [|c a IH]; [done|].
  rewrite UrlFacts.app_cons. simpl. by rewrite IH.
Qed.

Lemma segment_chars x :
  segment x = true →
  nonempty x = true ∧ all_chars path_char x = true
  ∧ all_chars (λ c, negb (is_slash c)) x = true.
Proof.
  unfold segment. intros H. apply andb_prop in H as [Hne H].
  split; [done|]. clear Hne. induction x as [|c x IH]; [done|].
  simpl in *. apply andb_prop in H as [Hc H].
  apply andb_prop in Hc as [-> ->]. by destruct (IH H) as [-> ->].
Qed.

(** The path made of two segments and a separator, as [clean_filename]
    reads it. *)
Lemma strip_two_segments a sep b :
  segment a = true → segment b = true →
  strip is_slash ("/" ++ a ++ String sep b) = a ++ String sep b.
Proof.
  intros Ha Hb.
  destruct (segment_chars a Ha) as (Hane & _ & Has).
  destruct (segment_chars b Hb) as (Hbne & _ & Hbs).
  unfold strip. destruct a as [|c a]; [done|].
  simpl in Has. apply andb_prop in Has as [Hc _].
  apply negb_true_iff in Hc.
  change ("/" ++ String c a ++ String sep b)
    with (String "/" (String c (a ++ String sep b))).
  cbn [lstrip]. rewrite Hc.
  assert (is_slash "/" = true) as -> by reflexivity.
  assert (String c (a ++ String sep b) = (String c a ++ String sep "") ++ b)
    as -> by (by rewrite UrlFacts.append_assoc).
  rewrite rstrip_app; rewrite rstrip_none; try done.
  by rewrite UrlFacts.append_assoc.
Qed.

Lemma path_two_segments a sep b :
  segment a = true → segment b = true → path_char sep = true →
  path_ok ("/" ++ a ++ String sep b) = true.
Proof.
  intros Ha Hb Hsep.
  destruct (segment_chars a Ha) as (_ & Hap & _).
  destruct (segment_chars b Hb) as (_ & Hbp & _).
  unfold path_ok.
  change ("/" ++ a ++ String sep b) with (String "/" (a ++ String sep b)).
  cbn [nonempty negb orb startswith all_chars].
  rewrite all_chars_app. cbn [all_chars]. rewrite Hap, Hbp, Hsep.
  by rewrite Ascii.eqb_refl.
Qed.

Lemma app_inv_head a x y : a ++ x = a ++ y → x = y.
Proof.
  induction a as [|c a IH]; [done|].
  rewrite !UrlFacts.app_cons. intros H. injection H as H. by apply IH.
Qed.

End SplitterFacts.

(* ===================================================================== *)
(** ** More on the matcher and on the blank-line pass *)
(* ===================================================================== *)

Module TextFacts.
Import Notions Re.
#[local] Arguments Ascii.eqb : simpl never.

(** A greedy repetition before a continuation that cannot fail takes
    every character of the class. *)
Lemma star_greedy_total {R} p s (k : string → option R) :
  (∀ s', k s' ≠ None) → star true p s k = k (lstrip p s).
Proof.
  intros Hk. induction s as [|c s IH]; [done|]. simpl.
  destruct (p c); [|done]. rewrite IH.
  destruct (k (lstrip p s)) eqn:Hr; [done|]. by apply Hk in Hr.
Qed.

Lemma rep_greedy_total {R} n p s (k : string → option R) :
  (∀ s', k s' ≠ None) →
  rep n true p s k = if Nat.leb n (run p s) then k (lstrip p s) else None.
Proof.
  intros Hk. revert s. induction n as [|n IH]; intros s.
  { simpl. by apply star_greedy_total. }
  destruct s as [|c s]; [done|]. simpl.
  destruct (p c); [|done]. by rewrite IH.
Qed.

Lemma length_run_lstrip p s :
  String.length s = run p s + String.length (lstrip p s).
Proof.
  induction s as [|c s IH]; [done|]. simpl.
  destruct (p c); simpl; [by rewrite IH|done].
Qed.

Lemma run_cons p c s :
  run p (String c s) = if p c then S (run p s) else 0.
Proof. reflexivity. Qed.

Lemma drop_run p s : drop (run p s) s = lstrip p s.
Proof.
  induction s as [|c s IH]; [done|]. simpl. by destruct (p c).
Qed.

Lemma run_lstrip p s : run p (lstrip p s) = 0.
Proof.
  induction s as [|c s IH]; [done|]. simpl.
  destruct (p c) eqn:Hc; [done|]. simpl. by rewrite Hc.
Qed.

(** Skipping the characters of a match. *)
Lemma sub_from_drop r tpl s n :
  (n <= String.length s)%nat →
  match_at r "" = None →
  sub_from r tpl s n = sub_from r tpl (drop n s) 0.
Proof.
  intros Hn Hempty. revert n Hn.
  induction s as [|c s IH]; intros n Hn.
  - destruct n; simpl; [done|]. by rewrite Hempty.
  - destruct n as [|n]; [done|]. simpl in Hn.
    rewrite ReFacts.sub_from_skip. simpl drop. apply IH. lia.
Qed.

#[local] Abbreviation is_nl := (is_char LF).
#[local] Abbreviation collapse := BaseContentSplitter.collapse_blank.

Lemma match_at_blank s :
  match_at BaseContentSplitter.re_blank s
  = if Nat.leb 3 (run is_nl s) then Some (run is_nl s, []) else None.
Proof.
  unfold match_at, BaseContentSplitter.re_blank. cbn [exec].
  rewrite rep_greedy_total by done.
  destruct (Nat.leb 3 (run is_nl s)); [|done].
  do 2 f_equal. pose proof (length_run_lstrip is_nl s). lia.
Qed.

Lemma collapse_cons c s :
  collapse (String c s)
  = if Nat.leb 3 (run is_nl (String c s))
    then nl ++ nl ++ collapse (lstrip is_nl s)
    else String c (collapse s).
Proof.
  unfold collapse, sub. pose proof (match_at_blank (String c s)) as Hm.
  destruct (Nat.leb 3 (run is_nl (String c s))) eqn:Hrun.
  - apply Nat.leb_le in Hrun.
    destruct (run is_nl (String c s)) as [|n] eqn:Hn; [lia|].
    rewrite (ReFacts.sub_from_match _ _ _ _ _ _ Hm). cbn [expand].
    rewrite UrlFacts.append_nil_r.
    rewrite <- (UrlFacts.append_assoc nl nl). f_equal.
    rewrite run_cons in Hn. destruct (is_nl c); [|discriminate].
    injection Hn as Hn.
    rewrite sub_from_drop; [|pose proof (length_run_lstrip is_nl s); lia|done].
    by rewrite <- Hn, drop_run.
  - by rewrite (ReFacts.sub_from_no_match _ _ _ _ Hm).
Qed.

Lemma startswith_blank s :
  startswith (nl ++ nl ++ nl) s = (Nat.leb 3 (run is_nl s)).
Proof.
  unfold nl, is_char.
  destruct s as [|a [|b [|c s]]]; simpl;
    repeat (match goal with
            | |- context [Ascii.eqb LF ?x] => destruct (Ascii.eqb LF x)
            end; simpl); done.
Qed.

Lemma occurs_cons needle c s :
  occurs needle (String c s)
  = startswith needle (String c s) || occurs needle s.
Proof. reflexivity. Qed.

Lemma run_nl_app s : run is_nl (nl ++ s) = S (run is_nl s).
Proof. reflexivity. Qed.

Lemma occurs_blank_nl x :
  occurs (nl ++ nl ++ nl) (nl ++ x)
  = Nat.leb 2 (run is_nl x) || occurs (nl ++ nl ++ nl) x.
Proof.
  change (nl ++ x) with (String LF x).
  by rewrite occurs_cons, startswith_blank.
Qed.

(** The pass leaves runs of at most two newlines. *)
Lemma collapse_runs n : ∀ s, (String.length s <= n)%nat →
  occurs (nl ++ nl ++ nl) (collapse s) = false
  ∧ (run is_nl (collapse s) <= 2)%nat
  ∧ (run is_nl (collapse s) <= run is_nl s)%nat.
Proof.
  induction n as [n IH] using lt_wf_ind. intros [|c s] Hlen.
  { assert (collapse "" = "") as -> by reflexivity.
    split; [reflexivity|simpl; lia]. }
  rewrite collapse_cons. simpl in Hlen.
  destruct (Nat.leb 3 (run is_nl (String c s))) eqn:Hrun.
  - apply Nat.leb_le in Hrun.
    destruct (IH (String.length (lstrip is_nl s))) with (s := lstrip is_nl s)
      as (Hocc & _ & Hle); [|done|].
    { pose proof (length_run_lstrip is_nl s). lia. }
    rewrite run_lstrip in Hle.
    assert (run is_nl (collapse (lstrip is_nl s)) = 0) as H0 by lia.
    rewrite !run_nl_app, H0. split; [|lia].
    by rewrite !occurs_blank_nl, !run_nl_app, H0, Hocc.
  - apply Nat.leb_gt in Hrun.
    destruct (IH (String.length s)) with (s := s) as (Hocc & H2 & Hle);
      [lia|done|].
    rewrite occurs_cons, startswith_blank, Hocc, orb_false_r.
    rewrite !run_cons in *. destruct (is_nl c); [|by repeat split; lia].
    split; [apply Nat.leb_gt; lia|lia].
Qed.

(** A text without three newlines in a row is left as it is. *)
Lemma collapse_id s :
  occurs (nl ++ nl ++ nl) s = false → collapse s = s.
Proof.
  induction s as [|c s IH]; [done|].
  rewrite occurs_cons, startswith_blank. intros H.
  apply orb_false_elim in H as [Hrun Hs].
  rewrite collapse_cons, Hrun. by rewrite IH.
Qed.

End TextFacts.

(* ===================================================================== *)
(** ** More on URLs: delimiters in the parts *)
(* ===================================================================== *)

Module DelimFacts.
Import PyStr UrlParse.
#[local] Arguments Ascii.eqb : simpl never.

Lemma contains_take c n s : contains c s = false → contains c (take n s) = false.
Proof.
  revert n. induction s as [|d s IH]; intros [|n]; simpl; try done.
  intros H. apply orb_false_elim in H as [-> H]. by apply IH.
Qed.

Lemma contains_rstrip c f s :
  contains c s = false → contains c (rstrip f s) = false.
Proof.
  induction s as [|d s IH]; [done|]. simpl. intros H.
  apply orb_false_elim in H as [Hd H]. specialize (IH H).
  destruct (rstrip f s) as [|e r].
  - destruct (f d); [done|]. simpl. by rewrite Hd.
  - simpl in *. by rewrite Hd, IH.
Qed.

Lemma find_take c s i : find c s = Some i → contains c (take i s) = false.
Proof.
  revert i. induction s as [|d s IH]; intros i; [done|]. simpl.
  destruct (Ascii.eqb c d) eqn:Hd; [by intros [= <-]|].
  destruct (find c s) as [j|]; [|done]. intros [= <-]. simpl.
  by rewrite Hd, IH.
Qed.

Lemma find_none_contains c s : find c s = None → contains c s = false.
Proof.
  induction s as [|d s IH]; [done|]. simpl.
  destruct (Ascii.eqb c d); [done|]. destruct (find c s); [done|].
  intros _. by apply IH.
Qed.

Lemma find_take_le c s i m :
  find c s = Some i → (m <= i)%nat → contains c (take m s) = false.
Proof.
  revert i m. induction s as [|d s IH]; intros i m; [done|]. simpl.
  destruct (Ascii.eqb c d) eqn:Hd.
  - intros [= <-] Hm. by replace m with 0 by lia.
  - destruct (find c s) as [j|] eqn:Hj; [|done]. intros [= <-] Hm.
    destruct m as [|m]; [done|]. simpl. rewrite Hd. simpl.
    apply (IH j); [done|lia].
Qed.

(** The part before the first [c] holds no [c]. *)
Lemma split1_fst c s :
  contains c (fst (if contains c s then split1 c s else (s, ""))) = false.
Proof.
  destruct (contains c s) eqn:Hc; [|done]. unfold split1.
  destruct (find c s) as [i|] eqn:Hi; [by apply find_take|].
  apply find_none_contains in Hi. congruence.
Qed.

Lemma split1_fst_other c d s :
  contains d s = false →
  contains d (fst (if contains c s then split1 c s else (s, ""))) = false.
Proof.
  intros Hd. destruct (contains c s); [|done]. unfold split1.
  destruct (find c s); [by apply contains_take|done].
Qed.

Lemma min_delim_le d o : (min_delim d o <= d)%nat.
Proof. destruct o; simpl; lia. Qed.

Lemma min_delim_some d j : (min_delim d (Some j) <= j)%nat.
Proof. simpl. lia. Qed.

(** The host holds none of the delimiters. *)
Lemma splitnetloc_fst c url start :
  contains c "/?#" = true →
  contains c (fst (_splitnetloc url start)) = false.
Proof.
  intros Hc. unfold _splitnetloc, find_from. cbn [fst].
  set (w := drop start url).
  set (o1 := (λ i, start + i) <$> find "/" w).
  set (o2 := (λ i, start + i) <$> find "?" w).
  set (o3 := (λ i, start + i) <$> find "#" w).
  set (d0 := String.length url).
  pose proof (min_delim_le d0 o1).
  pose proof (min_delim_le (min_delim d0 o1) o2).
  pose proof (min_delim_le (min_delim (min_delim d0 o1) o2) o3).
  destruct (find c w) as [i|] eqn:Hi;
    [|by apply contains_take, find_none_contains].
  apply (find_take_le c w i); [done|].
  simpl in Hc. rewrite orb_false_r in Hc.
  destruct (Ascii.eqb_spec c "/") as [->|_];
    [|destruct (Ascii.eqb_spec c "?") as [->|_];
      [|destruct (Ascii.eqb_spec c "#") as [->|_]; [|done]]].
  - assert (min_delim d0 o1 <= start + i)%nat; [|lia].
    subst o1. rewrite Hi. apply min_delim_some.
  - assert (min_delim (min_delim d0 o1) o2 <= start + i)%nat; [|lia].
    subst o2. rewrite Hi. apply min_delim_some.
  - assert (min_delim (min_delim (min_delim d0 o1) o2) o3 <= start + i)%nat;
      [|lia].
    subst o3. rewrite Hi. apply min_delim_some.
Qed.

(** Lower case maps nothing to a question mark or a hash. *)
Lemma lower_char_query d : Ascii.eqb "?" (lower_char d) = Ascii.eqb "?" d.
Proof. UrlFacts.by_enumeration d. Qed.

Lemma lower_char_hash d : Ascii.eqb "#" (lower_char d) = Ascii.eqb "#" d.
Proof. UrlFacts.by_enumeration d. Qed.

Lemma contains_lower c s :
  c = "?"%char ∨ c = "#"%char → contains c (lower s) = contains c s.
Proof.
  intros Hc. induction s as [|d s IH]; [done|]. simpl. rewrite IH.
  destruct Hc as [-> | ->]; by rewrite ?lower_char_query, ?lower_char_hash.
Qed.

Lemma scheme_chars_delim c :
  c = "?"%char ∨ c = "#"%char → scheme_chars c = false.
Proof. by intros [-> | ->]. Qed.

(** The parts [urlsplit] returns hold no question mark and no hash, but
    for the query and the fragment. *)
Lemma urlsplit_delims c url :
  c = "?"%char ∨ c = "#"%char →
  contains c (s_scheme (urlsplit url "")) = false
  ∧ contains c (s_netloc (urlsplit url "")) = false
  ∧ contains c (s_path (urlsplit url "")) = false.
Proof.
  intros Hc. unfold urlsplit.
  set (u0 := remove_unsafe (lstrip C0_CONTROL_OR_SPACE url)).
  change (remove_unsafe (strip C0_CONTROL_OR_SPACE "")) with "".
  assert (∃ sch u1,
            match find ":" u0, u0 with
            | Some (S i), String c0 _ =>
                if is_ascii_alpha c0 && all_chars scheme_chars (take (S i) u0)
                then (lower (take (S i) u0), drop (S (S i)) u0)
                else ("", u0)
            | _, _ => ("", u0)
            end = (sch, u1) ∧ contains c sch = false)
    as (sch & u1 & -> & Hsch).
  { destruct (find ":" u0) as [[|i]|]; [by eexists _, _| |by eexists _, _].
    destruct u0 as [|c0 u0']; [by eexists _, _|].
    destruct (is_ascii_alpha c0
              && all_chars scheme_chars (take (S i) (String c0 u0'))) eqn:Hs;
      [|by eexists _, _].
    eexists _, _. split; [done|]. rewrite contains_lower by done.
    apply andb_prop in Hs as [_ Hs].
    eapply UrlFacts.all_chars_contains; [done|].
    by apply scheme_chars_delim. }
  assert (∃ net u2,
            (if startswith "//" u1 then _splitnetloc u1 2 else ("", u1))
            = (net, u2) ∧ contains c net = false)
    as (net & u2 & -> & Hnet).
  { destruct (startswith "//" u1); [|by eexists _, _].
    destruct (_splitnetloc u1 2) as [net u2] eqn:Hsplit.
    eexists _, _. split; [done|].
    replace net with (fst (_splitnetloc u1 2)) by (by rewrite Hsplit).
    apply splitnetloc_fst. by destruct Hc as [-> | ->]. }
  destruct (if contains "#" u2 then split1 "#" u2 else (u2, ""))
    as [u3 frag] eqn:Hfrag.
  destruct (if contains "?" u3 then split1 "?" u3 else (u3, ""))
    as [u4 qry] eqn:Hqry.
  cbn [s_scheme s_netloc s_path]. split; [done|]. split; [done|].
  assert (contains "#" u3 = false) as H3.
  { replace u3 with (fst (if contains "#" u2 then split1 "#" u2
                          else (u2, ""))) by (by rewrite Hfrag).
    apply split1_fst. }
  destruct Hc as [-> | ->].
  - replace u4 with (fst (if contains "?" u3 then split1 "?" u3
                          else (u3, ""))) by (by rewrite Hqry).
    apply split1_fst.
  - replace u4 with (fst (if contains "?" u3 then split1 "?" u3
                          else (u3, ""))) by (by rewrite Hqry).
    by apply split1_fst_other.
Qed.

Lemma splitparams_fst c url :
  contains c url = false → contains c (fst (_splitparams url)) = false.
Proof.
  intros Hc. unfold _splitparams.
  destruct (contains "/" url).
  - destruct (find_from _ _ _); [by apply contains_take|done].
  - destruct (find ";" url); by apply contains_take.
Qed.

Lemma urlparse_delims c url :
  c = "?"%char ∨ c = "#"%char →
  contains c (scheme (urlparse url)) = false
  ∧ contains c (netloc (urlparse url)) = false
  ∧ contains c (path (urlparse url)) = false.
Proof.
  intros Hc. destruct (urlsplit_delims c url Hc) as (Hs & Hn & Hp).
  unfold urlparse, urlparse_with.
  destruct (mem (s_scheme (urlsplit url "")) uses_params
            && contains ";" (s_path (urlsplit url ""))).
  - destruct (_splitparams (s_path (urlsplit url ""))) as [u p] eqn:Hsp.
    cbn [scheme netloc path]. split; [done|]. split; [done|].
    replace u with (fst (_splitparams (s_path (urlsplit url ""))))
      by (by rewrite Hsp).
    by apply splitparams_fst.
  - done.
Qed.

Lemma urlunsplit_delims c sch net p :
  c = "?"%char ∨ c = "#"%char →
  contains c sch = false → contains c net = false → contains c p = false →
  contains c (urlunsplit sch net p "" "") = false.
Proof.
  intros Hc Hs Hn Hp. unfold urlunsplit. cbn [nonempty].
  assert (contains c "/" = false ∧ contains c "//" = false
          ∧ contains c ":" = false) as (H1 & H2 & H3)
    by (by destruct Hc as [-> | ->]).
  repeat match goal with
         | |- context [if ?b then _ else _] => destruct b
         end;
    rewrite ?UrlFacts.contains_app, ?Hs, ?Hn, ?Hp, ?H1, ?H2, ?H3; done.
Qed.

End DelimFacts.

(* ===================================================================== *)
(** ** More on the matcher: the heading repair *)
(* ===================================================================== *)

Module HeadingFacts.
Import PyStr Notions Re.
#[local] Arguments Ascii.eqb : simpl never.

Lemma lstrip_all p a x :
  all_chars p a = true → run p x = 0 → lstrip p (a ++ x) = x.
Proof.
  intros Ha Hx. induction a as [|c a IH].
  - rewrite UrlFacts.app_nil_l. destruct x as [|d x]; [done|].
    simpl in *. by destruct (p d).
  - rewrite UrlFacts.app_cons. simpl in *.
    apply andb_prop in Ha as [-> Ha]. by apply IH.
Qed.

(** Stripping one class from a text of another class stops inside the
    text or at its end. *)
Lemma lstrip_inside p q a x :
  all_chars p a = true → run q x = 0 →
  ∃ a', lstrip q (a ++ x) = a' ++ x ∧ all_chars p a' = true.
Proof.
  intros Ha Hx. induction a as [|c a IH].
  - exists "". rewrite !UrlFacts.app_nil_l. split; [|done].
    destruct x as [|d x]; [done|]. simpl in *. by destruct (q d).
  - rewrite UrlFacts.app_cons. simpl in Ha |- *.
    apply andb_prop in Ha as [Hc Ha].
    destruct (q c); [by apply IH|].
    exists (String c a). split; [done|]. simpl. by rewrite Hc.
Qed.

(** A lazy repetition passes over the characters at which the
    continuation fails. *)
Lemma star_lazy_skip {R} p q a x (k : string → option R) :
  all_chars (λ d, p d && q d) a = true →
  (∀ d y, q d = true → k (String d y) = None) →
  star false p (a ++ x) k = star false p x k.
Proof.
  intros Ha Hk. induction a as [|c a IH]; [done|].
  rewrite UrlFacts.app_cons. simpl in Ha |- *.
  apply andb_prop in Ha as [Hc Ha]. apply andb_prop in Hc as [-> Hq].
  rewrite (Hk c _ Hq). by apply IH.
Qed.

Lemma star_lazy_here {R} p c s (k : string → option R) r :
  k (String c s) = Some r → star false p (String c s) k = Some r.
Proof. intros H. simpl. destruct (p c); by rewrite H. Qed.

(** A greedy repetition that runs up to a character outside the class,
    where the continuation succeeds. *)
Lemma star_greedy_stop {R} p a x (k : string → option R) r :
  all_chars p a = true → run p x = 0 → k x = Some r →
  star true p (a ++ x) k = Some r.
Proof.
  intros Ha Hx Hk. induction a as [|c a IH].
  - rewrite UrlFacts.app_nil_l. destruct x as [|d x]; [done|].
    simpl in *. by destruct (p d).
  - rewrite UrlFacts.app_cons. simpl in Ha |- *.
    apply andb_prop in Ha as [-> Ha]. by rewrite IH.
Qed.

#[local] Abbreviation hash := (is_char "#").

Lemma take_prefix a x :
  take (String.length (a ++ x) - String.length x) (a ++ x) = a.
Proof.
  rewrite UrlFacts.length_app.
  replace (String.length a + String.length x - String.length x)
    with (String.length a) by lia.
  apply UrlFacts.take_app.
Qed.

(** The pattern after the closing parenthesis: white space, then the
    heading marks and the rest of the line as group 2. *)
Lemma exec_heading_line {R} w l tail caps (f : string → captures → R) :
  all_chars ws w = true → all_chars dot l = true → run dot tail = 0 →
  exec (seq [Rep 0 true ws;
             Group 2 (Cat (Rep 1 true hash) (Rep 0 true dot))])
    (w ++ String "#" (l ++ tail)) caps (λ s1 c1, Some (f s1 c1))
  = Some (f tail ((2, String "#" l) :: caps)).
Proof.
  intros Hw Hl Htail. cbn [exec seq rep].
  apply star_greedy_stop; [done|done|].
  cbn [rep]. unfold is_char at 1. rewrite Ascii.eqb_refl.
  rewrite TextFacts.star_greedy_total by (intros s'; by rewrite
    TextFacts.star_greedy_total).
  rewrite TextFacts.star_greedy_total by done.
  assert (run hash tail = 0) as Htail'.
  { destruct tail as [|d t]; [done|]. simpl in *. unfold is_char, dot in *.
    destruct (Ascii.eqb_spec d LF) as [->|]; [done|discriminate]. }
  destruct (lstrip_inside dot hash l tail Hl Htail') as (l' & -> & Hl').
  rewrite lstrip_all by done.
  do 4 f_equal.
  change (String "#" (l ++ tail)) with (String "#" l ++ tail).
  apply take_prefix.
Qed.

(** A character of a link destination: not a newline and not a closing
    parenthesis. *)
#[local] Abbreviation in_anchor :=
  (λ d : ascii, dot d && negb (Ascii.eqb ")" d)).

Lemma match_at_heading anchor w l tail :
  all_chars in_anchor anchor = true →
  all_chars ws w = true → all_chars dot l = true → run dot tail = 0 →
  match_at BaseContentSplitter.re_heading
    ("[#](" ++ anchor ++ ")" ++ w ++ String "#" (l ++ tail))
  = Some (String.length ("[#](" ++ anchor ++ ")" ++ w ++ String "#" l),
          [(2, String "#" l); (1, anchor)]).
Proof.
  intros Ha Hw Hl Htail. unfold match_at, BaseContentSplitter.re_heading.
  set (Y := w ++ String "#" (l ++ tail)).
  change ("[#](" ++ anchor ++ ")" ++ Y)
    with (String "[" (String "#" (String "]" (String "("
            (anchor ++ String ")" Y))))).
  cbn [exec seq lits rep]. rewrite ?Ascii.eqb_refl.
  rewrite (star_lazy_skip dot (λ d, negb (Ascii.eqb ")" d))); [|done|].
  2: { intros d y Hd. cbn [exec]. apply negb_true_iff in Hd. by rewrite Hd. }
  apply star_lazy_here. cbn [exec]. rewrite ?Ascii.eqb_refl.
  change (String ")" Y) with (")" ++ Y).
  rewrite take_prefix.
  pose proof (exec_heading_line w l tail [(1, anchor)]
                (λ s1 c1,
                   (String.length
                      (String "[" (String "#" (String "]" (String "("
                         (anchor ++ ")" ++ Y)))))
                    - String.length s1, c1)) Hw Hl Htail) as Hline.
  cbn [exec seq rep] in Hline. cbn [rep]. subst Y. rewrite Hline.
  do 2 f_equal.
  change (String "[" (String "#" (String "]" (String "("
            (anchor ++ ")" ++ w ++ String "#" (l ++ tail))))))
    with ("[#](" ++ anchor ++ ")" ++ w ++ String "#" l ++ tail).
  rewrite !UrlFacts.length_app. simpl String.length. lia.
Qed.

Lemma match_at_heading_other c s :
  c ≠ "["%char → match_at BaseContentSplitter.re_heading (String c s) = None.
Proof.
  intros Hc. unfold match_at, BaseContentSplitter.re_heading.
  cbn [exec seq lits]. destruct (Ascii.eqb_spec "[" c); [congruence|done].
Qed.

Lemma fix_heading_prefix pre s :
  contains "[" pre = false →
  BaseContentSplitter.fix_heading (pre ++ s)
  = pre ++ BaseContentSplitter.fix_heading s.
Proof.
  unfold BaseContentSplitter.fix_heading, sub.
  induction pre as [|c pre IH]; [done|]. simpl contains. intros H.
  apply orb_false_elim in H as [Hc H]. rewrite !UrlFacts.app_cons.
  rewrite ReFacts.sub_from_no_match.
  - by rewrite IH.
  - apply match_at_heading_other. intros ->. by rewrite Ascii.eqb_refl in Hc.
Qed.

Lemma fix_heading_link anchor w l tail :
  all_chars in_anchor anchor = true →
  all_chars ws w = true → all_chars dot l = true → run dot tail = 0 →
  BaseContentSplitter.fix_heading
    ("[#](" ++ anchor ++ ")" ++ w ++ String "#" (l ++ tail))
  = String "#" l ++ BaseContentSplitter.fix_heading tail.
Proof.
  intros Ha Hw Hl Htail.
  pose proof (match_at_heading anchor w l tail Ha Hw Hl Htail) as Hm.
  unfold BaseContentSplitter.fix_heading, sub.
  set (M := "[#](" ++ anchor ++ ")" ++ w ++ String "#" l) in *.
  assert ("[#](" ++ anchor ++ ")" ++ w ++ String "#" (l ++ tail) = M ++ tail)
    as Heq.
  { unfold M. by rewrite !UrlFacts.append_assoc. }
  rewrite Heq in *.
  assert (∃ n m, M = String "[" m ∧ String.length M = S n) as (n & m & HM & Hn)
    by (by eexists _, _).
  rewrite Hn in Hm. rewrite HM, UrlFacts.app_cons in Hm |- *.
  rewrite (ReFacts.sub_from_match _ _ _ _ _ _ Hm).
  cbn [expand group Nat.eqb]. simpl default.
  rewrite UrlFacts.append_nil_r. f_equal.
  rewrite TextFacts.sub_from_drop; [|rewrite UrlFacts.length_app;
    rewrite HM in Hn; simpl in Hn; lia|done].
  f_equal. rewrite HM in Hn. simpl in Hn. injection Hn as <-.
  apply UrlFacts.drop_app.
Qed.

End HeadingFacts.

(* ===================================================================== *)
(** ** More on the matcher: the fence passes *)
(* ===================================================================== *)

Module FenceFacts.
Import PyStr Notions Re.
#[local] Arguments Ascii.eqb : simpl never.

Lemma ws_not_word d : ws d = true → word d = false.
Proof. UrlFacts.by_enumeration d. Qed.

Lemma star_none_of_class {R} p s (k : string → option R) :
  run p s = 0 → star true p s k = k s.
Proof. destruct s as [|c s]; [done|]. simpl. by destruct (p c). Qed.

(** The end of the opening-fence pattern: a newline and white space. *)
#[local] Abbreviation line_end f :=
  (λ s1 : string,
     match s1 with
     | String d s' =>
         if Ascii.eqb LF d then star true ws s' (λ s2, Some (f s2)) else None
     | "" => None
     end).

Lemma line_end_none {R} (f : string → R) W x :
  all_chars ws W = true → contains LF W = false → run ws x = 0 →
  star true ws (W ++ x) (line_end f) = None.
Proof.
  intros HW HLF Hx. induction W as [|c W IH].
  - rewrite UrlFacts.app_nil_l, star_none_of_class by done.
    destruct x as [|d x]; [done|]. simpl in *.
    destruct (Ascii.eqb_spec LF d) as [<-|]; [done|done].
  - rewrite UrlFacts.app_cons. simpl in HW, HLF |- *.
    apply andb_prop in HW as [-> HW].
    apply orb_false_elim in HLF as [Hc HLF].
    rewrite IH by done. by rewrite Hc.
Qed.

(** White space with a newline in it, before the continuation that asks
    for a newline and white space: all of it is taken. *)
Lemma line_end_some {R} (f : string → R) W x :
  all_chars ws W = true → contains LF W = true → run ws x = 0 →
  star true ws (W ++ x) (line_end f) = Some (f x).
Proof.
  intros HW HLF Hx. induction W as [|c W IH]; [done|].
  rewrite UrlFacts.app_cons. simpl in HW, HLF |- *.
  apply andb_prop in HW as [-> HW].
  destruct (contains LF W) eqn:HLF'.
  { by rewrite IH. }
  rewrite line_end_none by done.
  rewrite orb_false_r in HLF. rewrite HLF.
  rewrite TextFacts.star_greedy_total by done.
  by rewrite HeadingFacts.lstrip_all.
Qed.

(** The opening-fence pattern on a fence with a language tag. *)
Lemma exec_fence_open {R} W0 lang W x caps (f : string → captures → R) :
  all_chars ws W0 = true →
  nonempty lang = true → all_chars word lang = true →
  all_chars ws W = true → contains LF W = true → run ws x = 0 →
  exec BaseContentSplitter.re_fence_open ("```" ++ W0 ++ lang ++ W ++ x) caps
    (λ s1 c1, Some (f s1 c1))
  = Some (f x ((1, lang) :: caps)).
Proof.
  intros HW0 Hne Hlang HW HLF Hx.
  unfold BaseContentSplitter.re_fence_open.
  destruct lang as [|c lang]; [done|]. simpl in Hlang.
  apply andb_prop in Hlang as [Hc Hlang].
  change ("```" ++ W0 ++ String c lang ++ W ++ x)
    with (String "`" (String "`" (String "`"
            (W0 ++ String c (lang ++ W ++ x))))).
  cbn [exec seq lits rep]. rewrite ?Ascii.eqb_refl.
  assert (ws c = false) as Hwc.
  { destruct (ws c) eqn:E; [|done]. apply ws_not_word in E. congruence. }
  apply HeadingFacts.star_greedy_stop; [done|simpl; by rewrite Hwc|].
  cbn [rep]. rewrite Hc.
  assert (run word (W ++ x) = 0) as HWx.
  { destruct W as [|d W]; [done|]. rewrite UrlFacts.app_cons. simpl in *.
    apply andb_prop in HW as [Hd _]. by rewrite (ws_not_word d Hd). }
  erewrite HeadingFacts.star_greedy_stop; [reflexivity|done|done|].
  change (String c (lang ++ W ++ x)) with (String c lang ++ W ++ x).
  rewrite HeadingFacts.take_prefix. cbn [exec rep].
  exact (line_end_some (λ s2, f s2 ((1, String c lang) :: caps))
           W x HW HLF Hx).
Qed.

Lemma match_at_fence_open W0 lang W x :
  all_chars ws W0 = true →
  nonempty lang = true → all_chars word lang = true →
  all_chars ws W = true → contains LF W = true → run ws x = 0 →
  match_at BaseContentSplitter.re_fence_open ("```" ++ W0 ++ lang ++ W ++ x)
  = Some (String.length ("```" ++ W0 ++ lang ++ W), [(1, lang)]).
Proof.
  intros HW0 Hne Hlang HW HLF Hx. unfold match_at.
  rewrite (exec_fence_open W0 lang W x [] (λ s1 c1, (_ - String.length s1, c1)))
    by done.
  do 2 f_equal. rewrite !UrlFacts.length_app. lia.
Qed.

Lemma match_at_fence_open_other c s :
  c ≠ "`"%char →
  match_at BaseContentSplitter.re_fence_open (String c s) = None.
Proof.
  intros Hc. unfold match_at, BaseContentSplitter.re_fence_open.
  cbn [exec seq lits]. destruct (Ascii.eqb_spec "`" c); [congruence|done].
Qed.

Lemma fix_fence_open_prefix pre s :
  contains "`" pre = false →
  BaseContentSplitter.fix_fence_open (pre ++ s)
  = pre ++ BaseContentSplitter.fix_fence_open s.
Proof.
  unfold BaseContentSplitter.fix_fence_open, sub.
  induction pre as [|c pre IH]; [done|]. simpl contains. intros H.
  apply orb_false_elim in H as [Hc H]. rewrite !UrlFacts.app_cons.
  rewrite ReFacts.sub_from_no_match.
  - by rewrite IH.
  - apply match_at_fence_open_other. intros ->.
    by rewrite Ascii.eqb_refl in Hc.
Qed.

Lemma fix_fence_open_tagged W0 lang W x :
  all_chars ws W0 = true →
  nonempty lang = true → all_chars word lang = true →
  all_chars ws W = true → contains LF W = true → run ws x = 0 →
  BaseContentSplitter.fix_fence_open ("```" ++ W0 ++ lang ++ W ++ x)
  = "```" ++ lang ++ nl ++ BaseContentSplitter.fix_fence_open x.
Proof.
  intros HW0 Hne Hlang HW HLF Hx.
  pose proof (match_at_fence_open W0 lang W x HW0 Hne Hlang HW HLF Hx) as Hm.
  unfold BaseContentSplitter.fix_fence_open, sub.
  set (M := "```" ++ W0 ++ lang ++ W) in *.
  assert ("```" ++ W0 ++ lang ++ W ++ x = M ++ x) as Heq.
  { unfold M. by rewrite !UrlFacts.append_assoc. }
  rewrite Heq in *.
  assert (∃ n m, M = String "`" m ∧ String.length M = S n) as (n & m & HM & Hn)
    by (by eexists _, _).
  rewrite Hn in Hm. rewrite HM, UrlFacts.app_cons in Hm |- *.
  rewrite (ReFacts.sub_from_match _ _ _ _ _ _ Hm).
  cbn [expand group Nat.eqb]. simpl default.
  rewrite UrlFacts.append_nil_r, !UrlFacts.append_assoc. do 3 f_equal.
  rewrite TextFacts.sub_from_drop; [|rewrite UrlFacts.length_app;
    rewrite HM in Hn; simpl in Hn; lia|done].
  f_equal. rewrite HM in Hn. simpl in Hn. injection Hn as <-.
  apply UrlFacts.drop_app.
Qed.

(** The closing fence. *)
Lemma match_at_fence_close W rest :
  all_chars ws W = true →
  match_at BaseContentSplitter.re_fence_close (nl ++ W ++ "```" ++ rest)
  = Some (String.length (nl ++ W ++ "```"), []).
Proof.
  intros HW. unfold match_at, BaseContentSplitter.re_fence_close.
  change (nl ++ W ++ "```" ++ rest) with (String LF (W ++ "```" ++ rest)).
  cbn [exec seq lits rep]. rewrite ?Ascii.eqb_refl.
  erewrite HeadingFacts.star_greedy_stop; [reflexivity|done|done|].
  change ("```" ++ rest) with (String "`" (String "`" (String "`" rest))).
  cbn [exec]. rewrite ?Ascii.eqb_refl. do 2 f_equal.
  change (String LF (W ++ String "`" (String "`" (String "`" rest))))
    with (nl ++ W ++ "```" ++ rest).
  rewrite !UrlFacts.length_app. simpl String.length. lia.
Qed.

Lemma match_at_fence_close_other c s :
  c ≠ LF → match_at BaseContentSplitter.re_fence_close (String c s) = None.
Proof.
  intros Hc. unfold match_at, BaseContentSplitter.re_fence_close.
  cbn [exec seq lits]. destruct (Ascii.eqb_spec LF c); [congruence|done].
Qed.

Lemma fix_fence_close_prefix pre s :
  contains LF pre = false →
  BaseContentSplitter.fix_fence_close (pre ++ s)
  = pre ++ BaseContentSplitter.fix_fence_close s.
Proof.
  unfold BaseContentSplitter.fix_fence_close, sub.
  induction pre as [|c pre IH]; [done|]. simpl contains. intros H.
  apply orb_false_elim in H as [Hc H]. rewrite !UrlFacts.app_cons.
  rewrite ReFacts.sub_from_no_match.
  - by rewrite IH.
  - apply match_at_fence_close_other. intros ->.
    by rewrite Ascii.eqb_refl in Hc.
Qed.

Lemma fix_fence_close_indented W rest :
  all_chars ws W = true →
  BaseContentSplitter.fix_fence_close (nl ++ W ++ "```" ++ rest)
  = nl ++ "```" ++ BaseContentSplitter.fix_fence_close rest.
Proof.
  intros HW. pose proof (match_at_fence_close W rest HW) as Hm.
  unfold BaseContentSplitter.fix_fence_close, sub.
  set (M := nl ++ W ++ "```") in *.
  assert (nl ++ W ++ "```" ++ rest = M ++ rest) as Heq.
  { unfold M. by rewrite !UrlFacts.append_assoc. }
  rewrite Heq in *.
  assert (∃ n m, M = String LF m ∧ String.length M = S n) as (n & m & HM & Hn)
    by (by eexists _, _).
  rewrite Hn in Hm. rewrite HM, UrlFacts.app_cons in Hm |- *.
  rewrite (ReFacts.sub_from_match _ _ _ _ _ _ Hm).
  cbn [expand]. rewrite UrlFacts.append_nil_r, !UrlFacts.append_assoc.
  do 2 f_equal.
  rewrite TextFacts.sub_from_drop; [|rewrite UrlFacts.length_app;
    rewrite HM in Hn; simpl in Hn; lia|done].
  f_equal. rewrite HM in Hn. simpl in Hn. injection Hn as <-.
  apply UrlFacts.drop_app.
Qed.

End FenceFacts.

Import Notions.

(* ===================================================================== *)
(** ** The tree handed to the converter *)
(* ===================================================================== *)

(** X1: in the tree that [BaseContentSplitter.process_content] hands to
    the converter, no hyperlink below the content region has a
    destination that starts with [#]. *)
Theorem converter_sees_no_fragment_links (content_div d : node)
    (href : string) :
  d ∈ descendants
        (on_contents rewrite_pre
           (on_contents strip_fragment_hrefs content_div)) →
  is_tag "a" d = true → get "href" d = Some href →
  startswith "#" href = false.
Proof.
  destruct content_div as [s|name attrs cs]; cbn [on_contents].
  { intros Hd. by apply elem_of_nil in Hd. }
  rewrite TreeFacts.descendants_tag. intros Hd.
  apply TreeFacts.elem_of_flat_map in Hd as (c' & Hc' & Hd).
  apply list_elem_of_fmap in Hc' as (c & -> & Hc).
  apply TreeFacts.rewrite_pre_origin in Hd
    as [Hd|(d0 & Hd0 & Hname & Hget)].
  - intros Ha. unfold is_tag in Ha. by rewrite Hd in Ha.
  - intros Ha Hhref.
    apply list_elem_of_fmap in Hc as (c0 & -> & Hc0).
    apply (TreeFacts.strip_fragment_hrefs_subtree c0 d0 Hd0).
    + unfold is_tag in *. by rewrite <- Hname.
    + by rewrite <- Hget.
Qed.

(** A region with a link to a place in the page and a link to another
    page: the second keeps its destination. *)
Lemma no_fragment_links_witness :
  Tag "a" [("href", "/next")] [NavigableString "next"]
  ∈ descendants
      (on_contents rewrite_pre
         (on_contents strip_fragment_hrefs
            (Tag "main" []
               [Tag "a" [("href", "#top")] [NavigableString "up"];
                Tag "a" [("href", "/next")] [NavigableString "next"]])))
  ∧ startswith "#" "/next" = false.
Proof.
  assert (Tag "a" [("href", "/next")] [NavigableString "next"]
          ∈ descendants
              (on_contents rewrite_pre
                 (on_contents strip_fragment_hrefs
                    (Tag "main" []
                       [Tag "a" [("href", "#top")] [NavigableString "up"];
                        Tag "a" [("href", "/next")]
                          [NavigableString "next"]]))))
    as Hin by (vm_compute; do 2 apply list_elem_of_further;
               apply list_elem_of_here).
  split; [exact Hin|].
  exact (converter_sees_no_fragment_links _ _ "/next" Hin eq_refl eq_refl).
Defined.

(** X2: deleting the destinations of the links into the page deletes no
    text: the text of the content region is what it was. *)
Theorem fragment_links_keep_their_text (content_div : node) :
  text (on_contents strip_fragment_hrefs content_div) = text content_div.
Proof.
  destruct content_div as [s|name attrs cs]; [done|].
  cbn [on_contents text]. f_equal. rewrite map_map.
  apply map_ext. intros c. apply TreeFacts.strip_fragment_hrefs_text.
Qed.

(** X3: in the tree handed to the converter, every [pre] below the
    content region that has text of its own holds exactly one text node:
    a text without white space at its ends, between two newlines. *)
Theorem converter_sees_framed_code_blocks (content_div d : node) :
  d ∈ descendants
        (on_contents rewrite_pre
           (on_contents strip_fragment_hrefs content_div)) →
  is_tag "pre" d = true → has_string d = true →
  ∃ t, contents_of d = [NavigableString (nl ++ strip_ws t ++ nl)].
Proof.
  destruct content_div as [s|name attrs cs]; cbn [on_contents].
  { intros Hd. by apply elem_of_nil in Hd. }
  rewrite TreeFacts.descendants_tag. intros Hd.
  apply TreeFacts.elem_of_flat_map in Hd as (c' & Hc' & Hd).
  apply list_elem_of_fmap in Hc' as (c & -> & Hc).
  by apply (TreeFacts.rewrite_pre_subtree c d).
Qed.

(** A [pre] with padded text, after the splitter's two tree passes. *)
Lemma framed_code_block_witness :
  Tag "pre" [] [NavigableString (nl ++ "ls -l" ++ nl)]
  ∈ descendants
      (on_contents rewrite_pre
         (on_contents strip_fragment_hrefs
            (Tag "main" [] [Tag "pre" [] [NavigableString "  ls -l  "]])))
  ∧ ∃ t, contents_of (Tag "pre" [] [NavigableString (nl ++ "ls -l" ++ nl)])
         = [NavigableString (nl ++ strip_ws t ++ nl)].
Proof.
  assert (Tag "pre" [] [NavigableString (nl ++ "ls -l" ++ nl)]
          ∈ descendants
              (on_contents rewrite_pre
                 (on_contents strip_fragment_hrefs
                    (Tag "main" []
                       [Tag "pre" [] [NavigableString "  ls -l  "]]))))
    as Hin by (vm_compute; apply list_elem_of_here).
  split; [exact Hin|].
  exact (converter_sees_framed_code_blocks _ _ Hin eq_refl eq_refl).
Defined.

(* ===================================================================== *)
(** ** The text passes on a heading, on blank lines and on fences *)
(* ===================================================================== *)

(** X4: a link whose text is [#], followed by white space and a heading
    (marks [#] and the rest of the line), is replaced by the heading
    alone: the link, its destination and the white space go, the text
    before the link and the heading line stay, and the pass goes on with
    what follows the line. *)
Theorem heading_anchor_is_dropped (pre anchor w l tail : string) :
  contains "[" pre = false →
  all_chars (λ d, Re.dot d && negb (Ascii.eqb ")" d)) anchor = true →
  all_chars Re.ws w = true →
  all_chars Re.dot l = true →
  Notions.run Re.dot tail = 0 →
  fix_heading (pre ++ "[#](" ++ anchor ++ ")" ++ w ++ "#" ++ l ++ tail)
  = pre ++ "#" ++ l ++ fix_heading tail.
Proof.
  intros Hpre Ha Hw Hl Htail.
  rewrite HeadingFacts.fix_heading_prefix by done. f_equal.
  by apply (HeadingFacts.fix_heading_link anchor w l tail).
Qed.

(** A section heading with its anchor link, between two lines of text. *)
Lemma heading_anchor_witness :
  contains "[" ("Intro" ++ nl) = false
  ∧ fix_heading
      (join nl ["Intro"; "[#](#setup) ## Setup"; "Install it."])
    = join nl ["Intro"; "## Setup"; "Install it."].
Proof.
  split; [reflexivity|].
  exact (heading_anchor_is_dropped ("Intro" ++ nl) "#setup" " " "# Setup"
           (nl ++ "Install it.") eq_refl eq_refl eq_refl eq_refl eq_refl).
Defined.

(** X5: after the blank-line pass no three newlines stand in a row, and a
    text that has no three newlines in a row passes unchanged (so single
    blank lines are kept wherever they are). *)
Theorem collapse_blank_bounds_runs (text : string) :
  Notions.occurs (nl ++ nl ++ nl) (collapse_blank text) = false
  ∧ (Notions.occurs (nl ++ nl ++ nl) text = false →
     collapse_blank text = text).
Proof.
  split.
  - by destruct (TextFacts.collapse_runs (String.length text) text)
      as (? & _).
  - apply TextFacts.collapse_id.
Qed.

(** A paragraph, a blank line and a code block pass unchanged. *)
Lemma collapse_blank_witness :
  Notions.occurs (nl ++ nl ++ nl) (join nl ["text"; ""; "```"; "ls"; "```"])
  = false
  ∧ collapse_blank (join nl ["text"; ""; "```"; "ls"; "```"])
    = join nl ["text"; ""; "```"; "ls"; "```"].
Proof.
  split; [reflexivity|].
  exact (proj2 (collapse_blank_bounds_runs
                  (join nl ["text"; ""; "```"; "ls"; "```"])) eq_refl).
Defined.

(** X6: an opening fence with a language tag, followed by white space
    with a line break in it, becomes the fence, the tag and one newline:
    the white space before the tag, after it and at the head of the
    first line of code goes, the text before the fence stays, and the
    pass goes on with the code. *)
Theorem fence_language_line_is_normalised (pre W0 lang W x : string) :
  contains "`" pre = false →
  all_chars Re.ws W0 = true →
  nonempty lang = true → all_chars Re.word lang = true →
  all_chars Re.ws W = true → contains LF W = true →
  Notions.run Re.ws x = 0 →
  fix_fence_open (pre ++ "```" ++ W0 ++ lang ++ W ++ x)
  = pre ++ "```" ++ lang ++ nl ++ fix_fence_open x.
Proof.
  intros Hpre HW0 Hne Hlang HW HLF Hx.
  rewrite FenceFacts.fix_fence_open_prefix by done. f_equal.
  by apply FenceFacts.fix_fence_open_tagged.
Qed.

(** A shell block whose first line of code is indented. *)
Lemma fence_language_witness :
  contains "`" ("Run:" ++ nl) = false
  ∧ fix_fence_open
      (join nl ["Run:"; "``` sh  "; "    ls -l"; "```"])
    = join nl ["Run:"; "```sh"; "ls -l"; "```"].
Proof.
  split; [reflexivity|].
  exact (fence_language_line_is_normalised ("Run:" ++ nl) " " "sh"
           ("  " ++ nl ++ "    ") ("ls -l" ++ nl ++ "```")
           eq_refl eq_refl eq_refl eq_refl eq_refl eq_refl eq_refl).
Defined.

(** X7: a closing fence that is indented, or that follows blank lines,
    is moved to the head of the line after the first line break before
    it: the white space between that line break and the fence goes, and
    the pass goes on after the fence. *)
Theorem closing_fence_loses_its_indent (pre W rest : string) :
  contains LF pre = false →
  all_chars Re.ws W = true →
  fix_fence_close (pre ++ nl ++ W ++ "```" ++ rest)
  = pre ++ nl ++ "```" ++ fix_fence_close rest.
Proof.
  intros Hpre HW.
  rewrite FenceFacts.fix_fence_close_prefix by done. f_equal.
  by apply FenceFacts.fix_fence_close_indented.
Qed.

(** A closing fence after an empty line and two spaces. *)
Lemma closing_fence_witness :
  contains LF "ls -l" = false
  ∧ fix_fence_close (join nl ["ls -l"; ""; "  ```"; "Done."])
    = join nl ["ls -l"; "```"; "Done."].
Proof.
  split; [reflexivity|].
  exact (closing_fence_loses_its_indent "ls -l" (nl ++ "  ")
           (nl ++ "Done.") eq_refl eq_refl).
Defined.

(* ===================================================================== *)
(** ** File names and files *)
(* ===================================================================== *)

(** X8: the file name [clean_filename] derives from any URL is a non-empty
    stem followed by [.md], and holds none of the characters backslash,
    slash, colon, star, question mark, double quote, angle brackets and
    bar. *)
Theorem clean_filename_is_safe (url : string) :
  all_chars (Re.none_of illegal_chars) (clean_filename url) = true
  ∧ ∃ stem, nonempty stem = true ∧ clean_filename url = stem ++ ".md".
Proof.
  destruct (SplitterFacts.clean_filename_stem url) as (stem & Hne & Hsafe & ->).
  split; [|by exists stem].
  by rewrite SplitterFacts.all_chars_app, Hsafe.
Qed.

(** X9: the file name is derived from the path alone: two absolute URLs
    with the same path get the same file name, whatever their schemes,
    hosts, queries and fragments. *)
Theorem file_name_ignores_host_and_query (s n t s' n' t' p : string) :
  scheme_ok s = true → host_ok n = true → tail_ok t = true →
  scheme_ok s' = true → host_ok n' = true → tail_ok t' = true →
  path_ok p = true →
  clean_filename (build s n p t) = clean_filename (build s' n' p t').
Proof.
  intros Hs Hn Ht Hs' Hn' Ht' Hp.
  by rewrite !SplitterFacts.clean_filename_build.
Qed.

(** The guide of two sites. *)
Lemma file_name_host_witness :
  clean_filename "https://a.example.com/guide?v=1"
  = clean_filename "http://b.example.com/guide#top".
Proof.
  exact (file_name_ignores_host_and_query "https" "a.example.com" "?v=1"
           "http" "b.example.com" "#top" "/guide"
           eq_refl eq_refl eq_refl eq_refl eq_refl eq_refl eq_refl).
Defined.

(** X10: two pages of one site whose paths differ only in that one has a
    slash where the other has an underscore are different URLs with the
    same file name, so the one saved later replaces the other. *)
Theorem nested_and_flat_pages_share_a_file (s n a b : string) :
  scheme_ok s = true → host_ok n = true →
  Notions.segment a = true → Notions.segment b = true →
  build s n ("/" ++ a ++ "/" ++ b) "" ≠ build s n ("/" ++ a ++ "_" ++ b) ""
  ∧ clean_filename (build s n ("/" ++ a ++ "/" ++ b) "")
    = clean_filename (build s n ("/" ++ a ++ "_" ++ b) "").
Proof.
  intros Hs Hn Ha Hb. split.
  - unfold build. intros H.
    do 3 apply SplitterFacts.app_inv_head in H.
    rewrite !UrlFacts.append_nil_r in H.
    do 2 apply SplitterFacts.app_inv_head in H.
    rewrite !UrlFacts.app_cons in H. discriminate H.
  - change ("/" ++ a ++ "/" ++ b) with ("/" ++ a ++ String "/" b).
    change ("/" ++ a ++ "_" ++ b) with ("/" ++ a ++ String "_" b).
    rewrite !SplitterFacts.clean_filename_build;
      try done; try (by apply SplitterFacts.path_two_segments).
    rewrite !SplitterFacts.strip_two_segments by done.
    destruct (SplitterFacts.segment_chars a Ha) as (Hane & _).
    assert (∀ sep, nonempty (a ++ String sep b) = true) as Hne
      by (intros sep; by destruct a).
    rewrite !Hne, !SplitterFacts.sanitize_app. reflexivity.
Qed.

(** The pages [/api/v2] and [/api_v2]. *)
Lemma shared_file_witness :
  clean_filename "https://docs.example.com/api/v2"
  = clean_filename "https://docs.example.com/api_v2".
Proof.
  exact (proj2 (nested_and_flat_pages_share_a_file "https"
                  "docs.example.com" "api" "v2"
                  eq_refl eq_refl eq_refl eq_refl)).
Defined.

(** X11: [BaseContentSplitter.process_content] changes at most one file: the
    one named by [clean_filename] directly in the output directory.  When
    it returns [False] no file has changed; when it returns [True] that
    file holds the text, which begins with the line [Source:] and the
    URL and an empty line whenever the metadata has a non-empty [url]. *)
Theorem splitter_touches_one_file
    (md : node → option string) (writable : string → bool)
    (output_dir : string) (content_div : node)
    (metadata fs : gmap string string) :
  let r := BaseContentSplitter.process_content md writable output_dir
             content_div metadata fs in
  let url := default "" (metadata !! "url") in
  ∃ sep filepath,
    (sep = "" ∨ sep = "/")
    ∧ filepath = output_dir ++ sep ++ clean_filename url
    ∧ contains "/" (clean_filename url) = false
    ∧ (∀ p, p ≠ filepath → files r !! p = fs !! p)
    ∧ (ok r = false → files r = fs)
    ∧ (ok r = true →
       ∃ text, files r !! filepath = Some text
               ∧ (nonempty url = true →
                  startswith ("Source: " ++ url ++ nl ++ nl) text = true)).
Proof.
  intros r url.
  pose proof (SplitterFacts.clean_filename_no_slash url) as Hname.
  destruct (SplitterFacts.path_join_inside output_dir _ Hname)
    as (sep & Hsep & Hpath).
  exists sep, (path_join output_dir (clean_filename url)).
  split; [done|]. split; [done|]. split; [done|].
  subst r. unfold BaseContentSplitter.process_content. fold url.
  destruct (md _) as [text|]; [|by repeat split].
  destruct (writable _); [|by repeat split].
  simpl. split; [|split; [done|]].
  - intros p Hp. by rewrite lookup_insert_ne.
  - intros _. eexists. split; [apply lookup_insert_eq|].
    intros ->. rewrite <- !UrlFacts.append_assoc.
    apply SplitterFacts.startswith_app.
Qed.

(** A region with one paragraph, saved for the root of the example
    site. *)
Lemma splitter_one_file_witness :
  let r := BaseContentSplitter.process_content Site.md Site.writable
             Site.output_dir (Tag "main" [] [NavigableString "body"])
             {[ "url" := Site.A ]} ∅ in
  ∃ sep filepath,
    (sep = "" ∨ sep = "/")
    ∧ filepath = Site.output_dir ++ sep ++ clean_filename Site.A
    ∧ contains "/" (clean_filename Site.A) = false
    ∧ (∀ p, p ≠ filepath → files r !! p = (∅ : gmap string string) !! p)
    ∧ (ok r = false → files r = ∅)
    ∧ (ok r = true →
       ∃ text, files r !! filepath = Some text
               ∧ (nonempty Site.A = true →
                  startswith ("Source: " ++ Site.A ++ nl ++ nl) text = true)).
Proof.
  exact (splitter_touches_one_file Site.md Site.writable Site.output_dir
           (Tag "main" [] [NavigableString "body"]) {[ "url" := Site.A ]} ∅).
Defined.

(* ===================================================================== *)
(** ** Identifiers without query and fragment *)
(* ===================================================================== *)

(** X12: whatever the URL, the normalised identifier holds no question mark
    and no hash: no query and no fragment is left in it. *)
Theorem normalize_identifier_has_no_query_or_fragment (url : string) :
  contains "?" (normalize_identifier url) = false
  ∧ contains "#" (normalize_identifier url) = false.
Proof.
  unfold normalize_identifier, urlunparse. cbn [nonempty].
  split.
  - destruct (DelimFacts.urlparse_delims "?" url) as (Hs & Hn & Hp);
      [by left|].
    apply DelimFacts.urlunsplit_delims; [by left|done..|].
    by apply DelimFacts.contains_rstrip.
  - destruct (DelimFacts.urlparse_delims "#" url) as (Hs & Hn & Hp);
      [by right|].
    apply DelimFacts.urlunsplit_delims; [by right|done..|].
    by apply DelimFacts.contains_rstrip.
Qed.

(* ===================================================================== *)
(** ** The driver loop and the crawl in general *)
(* ===================================================================== *)

(** X13: running the loop of [collect_and_save_contents] a second time over
    identifiers that can all be fetched changes nothing: each is found in
    [processed_items] and skipped, with no request, no file written and
    the flag as it was. *)
Theorem driver_loop_twice (fetch_content : string → option string)
    (process : string → gmap string string → gmap string string → outcome)
    (normalize : string → string)
    (identifiers : list string) (st : BaseParser.driver) :
  (∀ i, i ∈ identifiers → Claimed.fetchable fetch_content i) →
  BaseParser.collect_loop fetch_content process normalize identifiers
    (BaseParser.collect_loop fetch_content process normalize identifiers st)
  = BaseParser.collect_loop fetch_content process normalize identifiers st.
Proof.
  intros Hall. apply DriverFacts.collect_loop_skip.
  intros i Hi. apply DriverFacts.collect_loop_processed; auto.
Qed.

(** The three pages of the cyclic site, processed twice. *)
Lemma driver_loop_twice_witness :
  let loop :=
    BaseParser.collect_loop Site.cyclic
      (λ c m f, fst (AstroParser.process_content Site.output_dir
                       Site.BeautifulSoup Site.md Site.writable c m f))
      normalize_identifier [Site.A; Site.B; Site.C] in
  loop (loop (BaseParser.mkDriver true ∅ ∅ []))
  = loop (BaseParser.mkDriver true ∅ ∅ []).
Proof.
  apply (driver_loop_twice Site.cyclic).
  intros i Hi. repeat (apply elem_of_cons in Hi as [->|Hi]; [by eexists|]).
  by apply elem_of_nil in Hi.
Defined.



(** X16: every URL that [get_identifiers] requests or has pending has the
    host of the root, and every identifier it records is the normal form
    of a URL it requested with success. *)
Theorem crawl_requests_stay_on_site
    (base_url : string) (fetch_content : string → option string)
    (BeautifulSoup : string → node) (st : frontier) :
  rtc (crawl_step base_url fetch_content BeautifulSoup)
    (crawl_start base_url) st →
  (∀ url, url ∈ urls_to_process st ∨ url ∈ requests st →
          netloc (urlparse url) = netloc (urlparse (self_base_url base_url)))
  ∧ (∀ u, u ∈ all_urls st →
          ∃ url, url ∈ requests st ∧ u = normalize_identifier url
                 ∧ Claimed.fetchable fetch_content url).
Proof. apply DriverFacts.on_site_rtc. Qed.

(** The crawl of the cyclic site, whose page C links to another host. *)
Lemma crawl_on_site_witness :
  rtc (crawl_step Site.root Site.cyclic Site.BeautifulSoup)
    (crawl_start Site.root)
    (crawl Site.root Site.cyclic Site.BeautifulSoup
       [Site.A; Site.B; Site.C] 4 (crawl_start Site.root))
  ∧ ∀ url,
      url ∈ requests (crawl Site.root Site.cyclic Site.BeautifulSoup
                        [Site.A; Site.B; Site.C] 4 (crawl_start Site.root)) →
      netloc (urlparse url) = netloc (urlparse (self_base_url Site.root)).
Proof.
  split; [apply CrawlFacts.crawl_rtc|].
  intros url Hurl.
  apply (crawl_requests_stay_on_site Site.root Site.cyclic
           Site.BeautifulSoup _
           (CrawlFacts.crawl_rtc Site.root Site.cyclic Site.BeautifulSoup
              [Site.A; Site.B; Site.C] 4 (crawl_start Site.root))).
  by right.
Defined.

(* ===================================================================== *)
(** ** Content regions and boilerplate *)
(* ===================================================================== *)

(** X17: the Astro policy finds no content region exactly when the
    document has no [main], no [article] of class [content], no [div] of class
    [prose] and no [div] with the role [main]; a region it finds is an
    element of the document that one of the five selectors matches; and
    an [article] of class [content] anywhere in the document wins over
    every other candidate. *)
Theorem astro_content_region_spec (soup : node) :
  (content_region soup = None
   ↔ ∀ d, d ∈ descendants soup →
          (is_tag "article" d && has_class "content" d
           || is_tag "div" d && has_class "prose" d
           || is_tag "div" d && attr_is "role" "main" d
           || is_tag "main" d) = false)
  ∧ (∀ n, content_region soup = Some n →
          n ∈ descendants soup
          ∧ (is_tag "article" n && has_class "content" n
             || is_tag "main" n && has_class "main-content" n
             || is_tag "div" n && has_class "prose" n
             || is_tag "div" n && attr_is "role" "main" n
             || is_tag "main" n) = true)
  ∧ (∀ d, d ∈ descendants soup →
          is_tag "article" d && has_class "content" d = true →
          ∃ n, content_region soup = Some n
               ∧ is_tag "article" n && has_class "content" n = true).
Proof.
  unfold content_region. split; [|split].
  - rewrite !TreeFacts.or_else_none, !TreeFacts.find_tag_none. split.
    + intros (H1 & H2 & H3 & H4 & H5) d Hd.
      by rewrite (H1 d Hd), (H3 d Hd), (H4 d Hd), (H5 d Hd).
    + intros H. repeat split; intros d Hd; specialize (H d Hd);
        repeat (apply orb_false_elim in H as [H ?]); try done.
      destruct (is_tag "main" d); [done|done].
  - intros n Hn.
    repeat (apply TreeFacts.or_else_some in Hn as [Hn|[_ Hn]];
            [apply TreeFacts.find_some in Hn as [? ->];
             split; [done|by rewrite ?orb_true_r]|]).
    apply TreeFacts.find_some in Hn as [? ->].
    split; [done|by rewrite ?orb_true_r].
  - intros d Hd Hp.
    destruct (TreeFacts.find_is_some
                (λ n, is_tag "article" n && has_class "content" n)
                soup d Hd Hp) as [n Hn].
    exists n. rewrite Hn. split; [done|].
    by apply TreeFacts.find_some in Hn as [_ ?].
Qed.

(** X18: after the Astro policy has removed the boilerplate, no element
    below the content region is a [script], a [style], of class [toc],
    [pagination], [footer-nav] or [edit-on-github], or labelled as the
    table of contents. *)
Theorem astro_boilerplate_removed (content_div d : node) (sel : node → bool) :
  d ∈ descendants (AstroParser.remove_boilerplate content_div) →
  sel ∈ AstroParser.boilerplate →
  sel d = false.
Proof.
  unfold AstroParser.remove_boilerplate.
  assert (Forall Notions.shallow AstroParser.boilerplate) as Hshallow.
  { unfold AstroParser.boilerplate.
    repeat constructor; auto using TreeFacts.shallow_is_tag,
      TreeFacts.shallow_has_class, TreeFacts.shallow_attr_is. }
  revert Hshallow content_div d.
  generalize AstroParser.boilerplate. intros sels Hshallow.
  induction sels as [|s sels IH] using rev_ind; intros div d Hd Hsel.
  { by apply elem_of_nil in Hsel. }
  apply Forall_app in Hshallow as [Hsels Hs].
  apply Forall_cons in Hs as [Hs _].
  rewrite fold_left_app in Hd. cbn [fold_left] in Hd.
  apply elem_of_app in Hsel as [Hsel|Hsel].
  - assert (Notions.shallow sel) as Hsh.
    { rewrite Forall_forall in Hsels. by apply Hsels. }
    revert d Hd. apply TreeFacts.decompose_all_keeps_gone; [done|].
    intros d Hd. by apply (IH Hsels div).
  - apply list_elem_of_singleton in Hsel as ->.
    by eapply TreeFacts.decompose_all_gone.
Qed.

(** A region with a script and a table of contents: what is left below
    it matches neither. *)
Lemma astro_boilerplate_witness :
  Tag "p" [] [NavigableString "text"]
  ∈ descendants
      (AstroParser.remove_boilerplate
         (Tag "main" []
            [Tag "script" [] [NavigableString "track()"];
             Tag "nav" [("class", "toc wide")] [];
             Tag "p" [] [NavigableString "text"]]))
  ∧ has_class "toc" (Tag "p" [] [NavigableString "text"]) = false.
Proof.
  assert (Tag "p" [] [NavigableString "text"]
          ∈ descendants
              (AstroParser.remove_boilerplate
                 (Tag "main" []
                    [Tag "script" [] [NavigableString "track()"];
                     Tag "nav" [("class", "toc wide")] [];
                     Tag "p" [] [NavigableString "text"]])))
    as Hin by (vm_compute; apply list_elem_of_here).
  split; [exact Hin|].
  apply (astro_boilerplate_removed _ _ (has_class "toc") Hin).
  unfold AstroParser.boilerplate. do 2 apply list_elem_of_further.
  apply list_elem_of_here.
Defined.

(** X19: the VuePress policy finds no content region exactly when the
    document has no [article], no [div] of class [theme-default-content]
    or [content] and no [main] of class [page]; a region it finds is an
    element of the document that one of the four selectors matches; and a
    [div] of class [theme-default-content] anywhere in the document wins
    over every other candidate. *)
Theorem vuepress_content_region_spec (soup : node) :
  (VuePressParser.content_region soup = None
   ↔ ∀ d, d ∈ descendants soup →
          (is_tag "div" d && has_class "theme-default-content" d
           || is_tag "div" d && has_class "content" d
           || is_tag "main" d && has_class "page" d
           || is_tag "article" d) = false)
  ∧ (∀ n, VuePressParser.content_region soup = Some n →
          n ∈ descendants soup
          ∧ (is_tag "div" n && has_class "theme-default-content" n
             || is_tag "div" n && has_class "content" n
             || is_tag "main" n && has_class "page" n
             || is_tag "article" n) = true)
  ∧ (∀ d, d ∈ descendants soup →
          is_tag "div" d && has_class "theme-default-content" d = true →
          ∃ n, VuePressParser.content_region soup = Some n
               ∧ is_tag "div" n && has_class "theme-default-content" n
                 = true).
Proof.
  unfold VuePressParser.content_region. split; [|split].
  - rewrite !TreeFacts.or_else_none, !TreeFacts.find_tag_none. split.
    + intros (H1 & H2 & H3 & H4) d Hd.
      by rewrite (H1 d Hd), (H2 d Hd), (H3 d Hd), (H4 d Hd).
    + intros H. repeat split; intros d Hd; specialize (H d Hd);
        repeat (apply orb_false_elim in H as [H ?]); done.
  - intros n Hn.
    repeat (apply TreeFacts.or_else_some in Hn as [Hn|[_ Hn]];
            [apply TreeFacts.find_some in Hn as [? ->];
             split; [done|by rewrite ?orb_true_r]|]).
    apply TreeFacts.find_some in Hn as [? ->].
    split; [done|by rewrite ?orb_true_r].
  - intros d Hd Hp.
    destruct (TreeFacts.find_is_some
                (λ n, is_tag "div" n && has_class "theme-default-content" n)
                soup d Hd Hp) as [n Hn].
    exists n. rewrite Hn. split; [done|].
    by apply TreeFacts.find_some in Hn as [_ ?].
Qed.

(** X20: after the VuePress policy has removed the boilerplate, no
    element below the content region is a [script] or of class [page-nav] or
    [page-edit]. *)
Theorem vuepress_boilerplate_removed (content_div d : node) :
  d ∈ descendants (VuePressParser.remove_boilerplate content_div) →
  is_tag "script" d = false ∧ has_class "page-nav" d = false
  ∧ has_class "page-edit" d = false.
Proof.
  intros Hd.
  assert (VuePressParser.boilerplate d = false) as H.
  { eapply TreeFacts.decompose_all_gone; [|exact Hd]. by intros ????. }
  unfold VuePressParser.boilerplate in H.
  apply orb_false_elim in H as [H ?]. by apply orb_false_elim in H as [? ?].
Qed.

(** A page with its navigation: the paragraph that is left is no
    boilerplate. *)
Lemma vuepress_boilerplate_witness :
  Tag "p" [] [NavigableString "text"]
  ∈ descendants
      (VuePressParser.remove_boilerplate
         (Tag "div" [("class", "theme-default-content")]
            [Tag "div" [("class", "page-nav")] [NavigableString "next"];
             Tag "p" [] [NavigableString "text"]]))
  ∧ has_class "page-nav" (Tag "p" [] [NavigableString "text"]) = false.
Proof.
  assert (Tag "p" [] [NavigableString "text"]
          ∈ descendants
              (VuePressParser.remove_boilerplate
                 (Tag "div" [("class", "theme-default-content")]
                    [Tag "div" [("class", "page-nav")]
                       [NavigableString "next"];
                     Tag "p" [] [NavigableString "text"]])))
    as Hin by (vm_compute; apply list_elem_of_here).
  split; [exact Hin|].
  by destruct (vuepress_boilerplate_removed _ _ Hin) as (_ & ? & _).
Defined.

(* ===================================================================== *)
(** ** A page from the response to the file *)
(* ===================================================================== *)



(* ===================================================================== *)
(** * The crawl and the errors of the URL library *)
(* ===================================================================== *)

(* ===================================================================== *)
(** ** The calls that raise *)
(* ===================================================================== *)

Module CheckedFacts.

Lemma returned {A} (x : option A) :
  match x with Some _ => true | None => false end = true → is_Some x.
Proof. destruct x; [by eexists|done]. Qed.

Section WithLibrary.
Variable ip_address : string → option Checked.ip_kind.

#[local] Abbreviation cparse := (Checked.urlparse ip_address).
#[local] Abbreviation cnorm := (Checked.normalize_identifier ip_address).
#[local] Abbreviation cjoin := (Checked.urljoin ip_address).

Lemma normalize_some url :
  is_Some (cnorm url) ↔ is_Some (cparse url).
Proof.
  unfold Checked.normalize_identifier.
  destruct (cparse url); split; intros [? ?]; by eauto.
Qed.

Lemma normalize_value url u :
  cnorm url = Some u → u = normalize_identifier url ∧ is_Some (cparse url).
Proof.
  unfold Checked.normalize_identifier.
  destruct (cparse url); [|done]. intros [= <-]. by eauto.
Qed.

Lemma normalize_returns url :
  is_Some (cparse url) → cnorm url = Some (normalize_identifier url).
Proof.
  unfold Checked.normalize_identifier. by intros [? ->].
Qed.

Lemma urljoin_value base url u :
  cjoin base url = Some u → u = UrlJoin.urljoin base url.
Proof.
  unfold Checked.urljoin.
  destruct (nonempty base) eqn:Hb; cbn [negb].
  - destruct (nonempty url) eqn:Hu; cbn [negb].
    + destruct (Checked.urlparse_with _ base ""); [|done].
      destruct (Checked.urlparse_with _ url _); [|done]. by intros [= <-].
    + intros [= <-]. unfold UrlJoin.urljoin. by rewrite Hb, Hu.
  - intros [= <-]. unfold UrlJoin.urljoin. by rewrite Hb.
Qed.

Section WithParser.
Variable base_url : string.
Variable fetch_content : string → option string.
Variable BeautifulSoup : string → node.

#[local] Abbreviation cvalid := (Checked.is_valid_url ip_address base_url).
#[local] Abbreviation cadd := (Checked.add_link ip_address base_url).
#[local] Abbreviation clinks :=
  (Checked.extract_links ip_address base_url BeautifulSoup).
#[local] Abbreviation cgo :=
  (Checked.visit ip_address base_url fetch_content BeautifulSoup).
#[local] Abbreviation cstep :=
  (Checked.crawl_step ip_address base_url fetch_content BeautifulSoup).
#[local] Abbreviation craises :=
  (Checked.raises ip_address base_url fetch_content BeautifulSoup).
#[local] Abbreviation step := (crawl_step base_url fetch_content BeautifulSoup).
#[local] Abbreviation go := (visit base_url fetch_content BeautifulSoup).
#[local] Abbreviation start := (crawl_start base_url).
#[local] Abbreviation rejected := (Checked.rejected ip_address base_url).
#[local] Abbreviation parsed := (Checked.parsed ip_address).
#[local] Abbreviation anchors :=
  (find_all (λ n, is_tag "a" n && has_attr "href" n)).

Lemma valid_value url b :
  cvalid url = Some b → b = is_valid_url base_url url ∧ is_Some (cparse url).
Proof.
  unfold Checked.is_valid_url.
  destruct (cparse (self_base_url base_url)); [|done].
  destruct (cparse url); [|done]. intros [= <-]. by eauto.
Qed.

(** One link: the set grows as in [add_link], by a URL that the library
    has parsed, or the call raises. *)
Lemma add_link_some page_url links link links' :
  cadd page_url (Some links) link = Some links' →
  links' = add_link base_url page_url links link
  ∧ ∀ u, u ∈ links' → u ∈ links ∨ is_Some (cparse u).
Proof.
  unfold Checked.add_link, add_link.
  destruct (startswith "#" _); [intros [= <-]; by auto|].
  destruct (cjoin page_url _) as [full|] eqn:Hj; [|done].
  apply urljoin_value in Hj as ->.
  destruct (cnorm _) as [n|] eqn:Hn; [|done].
  apply normalize_value in Hn as [-> _].
  destruct (cvalid _) as [b|] eqn:Hv; [|done].
  apply valid_value in Hv as [-> Hp].
  destruct (is_valid_url base_url _); intros [= <-]; (split; [done|]).
  - intros u Hu. apply elem_of_union in Hu as [Hu|Hu]; [|by left].
    apply elem_of_singleton in Hu as ->. by right.
  - by auto.
Qed.

Lemma add_link_none page_url links link :
  has_attr "href" link = true →
  cadd page_url (Some links) link = None
  ↔ ∃ href, get "href" link = Some href ∧ startswith "#" href = false
            ∧ rejected page_url href.
Proof.
  unfold has_attr, Checked.add_link, Checked.rejected.
  destruct (get "href" link) as [href|] eqn:Hget; [|done]. intros _.
  simpl default. split.
  - intros H. exists href. split; [done|].
    destruct (startswith "#" href); [done|]. split; [done|].
    destruct (cjoin page_url href) as [full|] eqn:Hj; [|by left].
    apply urljoin_value in Hj as ->. right.
    destruct (cnorm _) as [n|] eqn:Hn; [|by left].
    apply normalize_value in Hn as [-> _]. right.
    destruct (cvalid _) as [[|]|]; done.
  - intros (h & [= <-] & -> & H).
    destruct (cjoin page_url href) as [full|] eqn:Hj; [|done].
    apply urljoin_value in Hj as ->.
    destruct H as [H|[H|H]]; [done| |].
    + by rewrite H.
    + destruct (cnorm _) as [n|] eqn:Hn; [|done].
      apply normalize_value in Hn as [-> _]. by rewrite H.
Qed.

Lemma fold_add_link_raised page_url l :
  fold_left (cadd page_url) l None = None.
Proof. by induction l. Qed.

Lemma fold_add_link_some page_url l links links' :
  fold_left (cadd page_url) l (Some links) = Some links' →
  links' = fold_left (add_link base_url page_url) l links
  ∧ ∀ u, u ∈ links' → u ∈ links ∨ is_Some (cparse u).
Proof.
  revert links. induction l as [|link l IH]; intros links; cbn [fold_left].
  { intros [= <-]. by auto. }
  destruct (cadd page_url (Some links) link) as [mid|] eqn:Hone.
  - intros H. apply IH in H as [-> Hall].
    apply add_link_some in Hone as [-> Hmid]. split; [done|].
    intros u Hu. destruct (Hall u Hu) as [H|H]; [|by right]. by apply Hmid.
  - by rewrite fold_add_link_raised.
Qed.

Lemma fold_add_link_none page_url l links :
  Forall (λ link, has_attr "href" link = true) l →
  fold_left (cadd page_url) l (Some links) = None
  ↔ ∃ link href, link ∈ l ∧ get "href" link = Some href
                 ∧ startswith "#" href = false ∧ rejected page_url href.
Proof.
  intros Hall. revert links.
  induction Hall as [|link l Hlink Hall IH]; intros links; cbn [fold_left].
  { split; [done|]. intros (link & href & Hin & _).
    by apply elem_of_nil in Hin. }
  destruct (cadd page_url (Some links) link) as [mid|] eqn:Hone.
  - rewrite IH. split.
    + intros (link' & href & Hin & H). exists link', href.
      split; [by apply list_elem_of_further|done].
    + intros (link' & href & Hin & Hget & Hfrag & Hrej).
      apply elem_of_cons in Hin as [Heq|Hin]; [subst link'|by eauto 6].
      assert (cadd page_url (Some links) link = None) as Hnone
        by (apply add_link_none; by eauto).
      congruence.
  - rewrite fold_add_link_raised. split; [|done]. intros _.
    apply add_link_none in Hone as (href & H); [|done].
    exists link, href. split; [apply list_elem_of_here|done].
Qed.

Lemma anchors_have_href soup :
  Forall (λ link, has_attr "href" link = true) (anchors soup).
Proof.
  unfold find_all. apply Forall_forall. intros link Hin.
  apply list_elem_of_In, filter_In in Hin as [_ Hin].
  by apply andb_prop in Hin as [_ ?].
Qed.

(** [extract_links]: the set it returns, and when it raises. *)
Lemma extract_links_value content page_url links :
  clinks content page_url = Some links →
  links = extract_links base_url BeautifulSoup content page_url
  ∧ ∀ u, u ∈ links → is_Some (cparse u).
Proof.
  unfold Checked.extract_links. intros H.
  apply fold_add_link_some in H as [-> Hall]. split; [done|].
  intros u Hu. destruct (Hall u Hu) as [H|H]; [|done].
  by apply not_elem_of_empty in H.
Qed.

Lemma extract_links_none content page_url :
  clinks content page_url = None
  ↔ ∃ link href, link ∈ anchors (BeautifulSoup content)
                 ∧ get "href" link = Some href
                 ∧ startswith "#" href = false ∧ rejected page_url href.
Proof. apply fold_add_link_none, anchors_have_href. Qed.

(** A turn that returns is the turn of [visit]. *)
Lemma visit_value url st st' : cgo url st = Some st' → st' = go url st.
Proof.
  unfold Checked.visit, visit.
  destruct (cnorm url) as [n|] eqn:Hn; [|done].
  apply normalize_value in Hn as [-> _].
  case_bool_decide; [by intros [= <-]|].
  destruct (BaseParser.truthy (fetch_content url)) as [content|];
    [|by intros [= <-]].
  destruct (clinks content url) as [links|] eqn:Hl; [|done].
  apply extract_links_value in Hl as [-> _]. by intros [= <-].
Qed.

Lemma visit_returns url st :
  is_Some (cparse url) →
  (∀ content, BaseParser.truthy (fetch_content url) = Some content →
              is_Some (clinks content url)) →
  cgo url st = Some (go url st).
Proof.
  intros Hp Hl. unfold Checked.visit, visit.
  rewrite normalize_returns by done.
  case_bool_decide; [done|].
  destruct (BaseParser.truthy (fetch_content url)) as [content|]; [|done].
  destruct (Hl content eq_refl) as [links Hlinks]. rewrite Hlinks.
  by apply extract_links_value in Hlinks as [-> _].
Qed.

Lemma step_value st st' : cstep st st' → step st st'.
Proof.
  intros (url & Hin & H). exists url. split; [done|]. by apply visit_value.
Qed.

Lemma rtc_value st st' : rtc cstep st st' → rtc step st st'.
Proof.
  induction 1 as [|a b c Hab _ IH]; [done|].
  eapply rtc_l; [by apply step_value|done].
Qed.

Lemma sn_value st : sn step st → sn cstep st.
Proof.
  induction 1 as [st _ IH]. constructor. intros st' Hst.
  apply IH. by apply step_value.
Qed.

(** Every run ends: with nothing pending, or where a turn raises. *)
Lemma finishes_or_raises st :
  sn cstep st →
  ∃ st', rtc cstep st st' ∧ (urls_to_process st' = ∅ ∨ craises st').
Proof.
  induction 1 as [st _ IH].
  destruct (decide (urls_to_process st = ∅)) as [?|Hne];
    [exists st; split; [done|by left]|].
  apply set_choose_L in Hne as [url Hin].
  destruct (cgo url st) as [st1|] eqn:Hgo.
  - destruct (IH st1) as (st' & Hrun & Hend); [by exists url|].
    exists st'. split; [|done]. eapply rtc_l; [|done]. by exists url.
  - exists st. split; [done|]. right. by exists url.
Qed.

(** The pending URLs stay parsed. *)
Lemma parsed_step st st' : parsed st → cstep st st' → parsed st'.
Proof.
  intros Hp (url & Hin & Hgo). unfold Checked.visit in Hgo.
  destruct (cnorm url) as [n|] eqn:Hn; [|done].
  case_bool_decide.
  { injection Hgo as <-. intros u Hu. apply Hp. simpl in Hu. set_solver. }
  destruct (BaseParser.truthy (fetch_content url)) as [content|].
  - destruct (clinks content url) as [links|] eqn:Hl; [|done].
    apply extract_links_value in Hl as [_ Hl]. injection Hgo as <-.
    intros u Hu. simpl in Hu. apply elem_of_union in Hu as [Hu|Hu].
    + apply Hp. set_solver.
    + apply Hl. set_solver.
  - injection Hgo as <-. intros u Hu. apply Hp. simpl in Hu. set_solver.
Qed.

Lemma parsed_rtc st st' : parsed st → rtc cstep st st' → parsed st'.
Proof.
  intros Hp Hrun. induction Hrun as [|a b c Hab _ IH]; [done|].
  apply IH. by eapply parsed_step.
Qed.

Lemma parsed_start : is_Some (cparse (self_base_url base_url)) → parsed start.
Proof. intros H u Hu. simpl in Hu. by apply elem_of_singleton in Hu as ->. Qed.

(** *** A site all of whose links the library accepts *)

Section Accepted.
Hypothesis pages_accepted : ∀ url content,
  BaseParser.truthy (fetch_content url) = Some content →
  is_Some (clinks content url).

Lemma step_returns st st' : parsed st → step st st' → cstep st st'.
Proof.
  intros Hp (url & Hin & ->). exists url. split; [done|].
  apply visit_returns; [by apply Hp|]. intros content. apply pages_accepted.
Qed.

Lemma rtc_returns st st' : parsed st → rtc step st st' → rtc cstep st st'.
Proof.
  intros Hp Hrun. induction Hrun as [|a b c Hab _ IH]; [done|].
  apply (step_returns _ _ Hp) in Hab.
  eapply rtc_l; [done|]. apply IH. by eapply parsed_step.
Qed.

Lemma never_raises st : parsed st → ¬ craises st.
Proof.
  intros Hp (url & Hin & Hgo).
  rewrite visit_returns in Hgo; [done|by apply Hp|].
  intros content. apply pages_accepted.
Qed.

(** What can be reached has been parsed. *)
Lemma reachable_parsed u :
  is_Some (cparse (self_base_url base_url)) →
  Claimed.reachable base_url fetch_content BeautifulSoup u →
  is_Some (cparse u).
Proof.
  intros Hroot. induction 1 as [|url content link _ _ Hc Hlink]; [done|].
  destruct (pages_accepted url content Hc) as [links Hl].
  apply extract_links_value in Hl as [-> Hl]. by apply Hl.
Qed.

End Accepted.

(** *** The loop of the driver *)

Section WithDriver.
Variable process_content :
  string → gmap string string → gmap string string → outcome.

#[local] Abbreviation cone :=
  (Checked.collect_one ip_address fetch_content process_content).
#[local] Abbreviation cloop :=
  (Checked.collect_loop ip_address fetch_content process_content).
#[local] Abbreviation one :=
  (BaseParser.collect_one fetch_content process_content normalize_identifier).
#[local] Abbreviation loop :=
  (BaseParser.collect_loop fetch_content process_content normalize_identifier).

Lemma collect_one_returns st identifier :
  is_Some (cparse identifier) → cone st identifier = Some (one st identifier).
Proof.
  intros H. unfold Checked.collect_one. by rewrite normalize_returns.
Qed.

(** The loop returns when the library accepts every identifier, and
    raises otherwise. *)
Lemma collect_loop_spec identifiers st :
  cloop identifiers st
  = if forallb (λ i, bool_decide (is_Some (cparse i))) identifiers
    then Some (loop identifiers st) else None.
Proof.
  revert st. induction identifiers as [|i l IH]; intros st; [done|].
  simpl. unfold Checked.collect_one.
  case_bool_decide as Hi.
  - rewrite normalize_returns by done. simpl. apply IH.
  - destruct (cnorm i) eqn:Hn; [|done].
    apply normalize_value in Hn as [_ ?]. done.
Qed.

Lemma collect_loop_value identifiers st final :
  cloop identifiers st = Some final → final = loop identifiers st.
Proof.
  rewrite collect_loop_spec. destruct (forallb _ _); [|done].
  by intros [= <-].
Qed.

Lemma collect_loop_returns identifiers st :
  (∀ i, i ∈ identifiers → is_Some (cparse i)) →
  cloop identifiers st = Some (loop identifiers st).
Proof.
  intros Hall. rewrite collect_loop_spec.
  assert (forallb (λ i, bool_decide (is_Some (cparse i))) identifiers = true)
    as ->; [|done].
  apply forallb_forall. intros i Hi. apply bool_decide_eq_true_2.
  by apply Hall, list_elem_of_In.
Qed.

End WithDriver.

End WithParser.

End WithLibrary.

End CheckedFacts.

(* ===================================================================== *)
(** ** Runs on a site that the library accepts *)
(* ===================================================================== *)

Module RunFacts.

Section WithSite.
Variable ip_address : string → option Checked.ip_kind.
Variable base_url output_dir : string.
Variable fetch_content : string → option string.
Variable BeautifulSoup : string → node.
Variable md : node → option string.
Variable writable : string → bool.

#[local] Abbreviation cparse := (Checked.urlparse ip_address).
#[local] Abbreviation step := (crawl_step base_url fetch_content BeautifulSoup).
#[local] Abbreviation start := (crawl_start base_url).
#[local] Abbreviation process :=
  (λ c m f, fst (process_content output_dir BeautifulSoup md writable c m f)).

Hypothesis root_normal :
  normalize_identifier (self_base_url base_url) = self_base_url base_url.
Hypothesis links_normal : ∀ url content link,
  BaseParser.truthy (fetch_content url) = Some content →
  link ∈ extract_links base_url BeautifulSoup content url →
  normalize_identifier link = link.
Hypothesis root_accepted : is_Some (cparse (self_base_url base_url)).
Hypothesis pages_accepted : ∀ url content,
  BaseParser.truthy (fetch_content url) = Some content →
  is_Some (Checked.extract_links ip_address base_url BeautifulSoup
             content url).

Lemma identifiers_returned ids reqs :
  get_identifiers base_url fetch_content BeautifulSoup ids reqs →
  Checked.get_identifiers ip_address base_url fetch_content BeautifulSoup
    ids reqs.
Proof.
  intros (st & Hrun & Hdone & -> & ->). exists st. split; [|done].
  apply CheckedFacts.rtc_returns; [done| |done].
  by apply CheckedFacts.parsed_start.
Qed.

Lemma identifiers_accepted st u :
  rtc step start st → u ∈ all_urls st → is_Some (cparse u).
Proof.
  intros Hrun Hu.
  pose proof (CrawlFacts.inv_rtc _ _ _ root_normal links_normal st Hrun)
    as Hinv.
  destruct (inv_all _ _ _ _ Hinv u Hu) as (_ & Hreach & _).
  by eapply CheckedFacts.reachable_parsed.
Qed.

Lemma run_returned done fs final :
  collect_and_save_contents base_url output_dir fetch_content BeautifulSoup
    md writable done fs final →
  Checked.collect_and_save_contents ip_address base_url fetch_content
    BeautifulSoup process done fs final.
Proof.
  intros (ids & reqs & order & Hget & Hperm & ->).
  exists ids, reqs, order. split; [by apply identifiers_returned|].
  split; [done|]. apply CheckedFacts.collect_loop_returns.
  intros i Hi. destruct Hget as (st & Hrun & _ & -> & _).
  apply (identifiers_accepted st); [done|].
  rewrite Hperm in Hi. by apply elem_of_elements in Hi.
Qed.

Lemma run_value done fs final :
  Checked.collect_and_save_contents ip_address base_url fetch_content
    BeautifulSoup process done fs final →
  collect_and_save_contents base_url output_dir fetch_content BeautifulSoup
    md writable done fs final.
Proof.
  intros (ids & reqs & order & (st & Hrun & Hdone & -> & ->) & Hperm & Hloop).
  apply CheckedFacts.collect_loop_value in Hloop as ->.
  exists (all_urls st), (requests st), order. split; [|done].
  exists st. split; [by apply (CheckedFacts.rtc_value ip_address)|done].
Qed.

End WithSite.

(** The library accepts the links of the cyclic site. *)
Lemma cyclic_accepted url content :
  BaseParser.truthy (Site.cyclic url) = Some content →
  is_Some (Checked.extract_links Docs.ip_address Site.root Site.BeautifulSoup
             content url).
Proof.
  unfold Site.cyclic. intros Hf.
  destruct (String.eqb_spec url Site.A) as [->|_];
    [injection Hf as <-; apply CheckedFacts.returned; by vm_compute|].
  destruct (String.eqb_spec url Site.B) as [->|_];
    [injection Hf as <-; apply CheckedFacts.returned; by vm_compute|].
  destruct (String.eqb_spec url Site.C) as [->|_];
    [injection Hf as <-; apply CheckedFacts.returned; by vm_compute|].
  discriminate Hf.
Qed.

Lemma cyclic_pages url content :
  BaseParser.truthy (Site.cyclic url) = Some content →
  normalize_identifier url ∈ ({[ Site.A; Site.B; Site.C ]} : gset string).
Proof.
  unfold Site.cyclic. intros Hf.
  destruct (String.eqb_spec url Site.A) as [->|_]; [vm_compute; set_solver|].
  destruct (String.eqb_spec url Site.B) as [->|_]; [vm_compute; set_solver|].
  destruct (String.eqb_spec url Site.C) as [->|_]; [vm_compute; set_solver|].
  discriminate Hf.
Qed.

End RunFacts.

(* ===================================================================== *)
(** ** Documents without the content of their titles *)
(* ===================================================================== *)

Module TitleFacts.
Import Notions Titles.

Lemma selector_blank p n : shallow p → p (blank_titles n) = p n.
Proof.
  intros Hp. destruct n as [s|name attrs cs]; [done|]. simpl.
  destruct (String.eqb name "title"); apply Hp.
Qed.

Lemma filter_texts p l :
  (∀ s, p (NavigableString s) = false) → forallb is_text l = true →
  List.filter p (flat_map subtree l) = [].
Proof.
  intros Hp. induction l as [|c l IH]; [done|]. simpl.
  intros H. apply andb_prop in H as [Hc Hl].
  destruct c as [s|]; [|done]. simpl. by rewrite Hp, IH.
Qed.

(** The elements a selector finds in the document without title
    contents are those it finds in the document, in the same order. *)
Lemma filter_blank p n :
  on_elements p → plain_titles n = true →
  List.filter p (descendants (blank_titles n))
  = map blank_titles (List.filter p (descendants n)).
Proof.
  intros [Hshallow Htext].
  induction n as [s|name attrs cs IH] using node_induction; [done|].
  cbn [plain_titles blank_titles].
  destruct (String.eqb name "title"); intros Hplain.
  { rewrite !TreeFacts.descendants_tag. by rewrite (filter_texts p cs). }
  rewrite !TreeFacts.descendants_tag.
  induction IH as [|c l Hc _ IHl]; [done|].
  cbn [forallb] in Hplain. apply andb_prop in Hplain as [Hpc Hpl].
  cbn [map flat_map]. rewrite !List.filter_app, map_app, IHl by done.
  f_equal. unfold subtree. cbn [List.filter].
  rewrite selector_blank by done. rewrite (Hc Hpc).
  by destruct (p c).
Qed.

Lemma find_blank p n :
  on_elements p → plain_titles n = true →
  find p (blank_titles n) = blank_titles <$> find p n.
Proof.
  intros Hp Hn. unfold find, find_all. rewrite filter_blank by done.
  by destruct (List.filter p (descendants n)).
Qed.

Lemma or_else_blank a b :
  or_else (blank_titles <$> a) (blank_titles <$> b)
  = blank_titles <$> or_else a b.
Proof. by destruct a. Qed.

Lemma on_elements_tag_and name q :
  shallow q → on_elements (λ n, is_tag name n && q n).
Proof.
  intros Hq. split; [|done]. intros n attrs cs cs'.
  by rewrite (Hq n attrs cs cs').
Qed.

Lemma on_elements_tag name : on_elements (is_tag name).
Proof. split; [apply TreeFacts.shallow_is_tag|done]. Qed.

Lemma astro_region_blank soup :
  plain_titles soup = true →
  AstroParser.content_region (blank_titles soup)
  = blank_titles <$> AstroParser.content_region soup.
Proof.
  intros Hs. unfold AstroParser.content_region.
  rewrite !find_blank, !or_else_blank;
    auto using on_elements_tag, on_elements_tag_and,
      TreeFacts.shallow_has_class, TreeFacts.shallow_attr_is.
Qed.

Lemma title_free_blank n : title_free (blank_titles n) = title_free n.
Proof.
  induction n as [s|name attrs cs IH] using node_induction; [done|].
  cbn [blank_titles title_free].
  destruct (String.eqb name "title") eqn:E; cbn [title_free]; rewrite E;
    [done|].
  cbn [negb andb]. induction IH as [|c l Hc _ IHl]; [done|].
  cbn [map forallb]. by rewrite Hc, IHl.
Qed.

Lemma blank_title_free n : title_free n = true → blank_titles n = n.
Proof.
  induction n as [s|name attrs cs IH] using node_induction; [done|].
  cbn [blank_titles title_free]. intros H.
  apply andb_prop in H as [Hname Hcs]. apply negb_true_iff in Hname.
  rewrite Hname. f_equal.
  induction IH as [|c l Hc _ IHl]; [done|].
  cbn [forallb] in Hcs. apply andb_prop in Hcs as [Hc' Hl].
  cbn [map]. by rewrite Hc, IHl.
Qed.

(** Two documents that differ in title contents only have the same
    content region when it holds no title. *)
Lemma astro_region_same a b :
  blank_titles a = blank_titles b →
  plain_titles a = true → plain_titles b = true →
  (∀ div, AstroParser.content_region a = Some div → title_free div = true) →
  AstroParser.content_region a = AstroParser.content_region b.
Proof.
  intros Hab Ha Hb Hfree.
  pose proof (astro_region_blank a Ha) as Ea.
  pose proof (astro_region_blank b Hb) as Eb.
  rewrite Hab, Eb in Ea.
  destruct (AstroParser.content_region a) as [da|],
    (AstroParser.content_region b) as [db|]; try done.
  injection Ea as Ea. specialize (Hfree da eq_refl).
  assert (title_free db = true) as Hdb.
  { by rewrite <- title_free_blank, Ea, title_free_blank. }
  rewrite !blank_title_free in Ea by done. by rewrite Ea.
Qed.

End TitleFacts.

(* ===================================================================== *)
(** ** The links of a page *)
(* ===================================================================== *)

(** C5, as stated, fails: [extract_links] does not return a set for
    every document.  On the page with the destinations [/b] and
    [http://[] the call of [urljoin] for the second raises [ValueError],
    which nothing in [extract_links] catches. *)
Lemma extract_links_raises_on_rejected_link :
  ¬ (∀ ip_address base_url BeautifulSoup content page_url,
       is_Some (Checked.extract_links ip_address base_url BeautifulSoup
                  content page_url)).
Proof.
  intros H.
  destruct (H Docs.ip_address Docs.root Docs.BeautifulSoup "bad link"
              Docs.root) as [links Hl].
  vm_compute in Hl. discriminate Hl.
Qed.

(** C5, amended: [extract_links] raises exactly when the page has a
    hyperlink whose destination does not start with [#] and is rejected
    by the URL library; when it returns, the links are exactly the
    destinations of the hyperlinks that do not start with [#], resolved
    against the URL of the page and normalised, whose host is the host of
    the crawl root, so a link to [https://other.example.com/x] is never
    returned by a crawl of [https://site.example.com]; and on the page
    [/docs/guide/intro] the destinations [setup], [../api/], [/top#end],
    [?page=2] and [//site.example.com/faq/?q=1] are resolved against the
    page, not the root. *)
Theorem extract_links_same_site
    (ip_address : string → option Checked.ip_kind) :
  (∀ base_url BeautifulSoup content page_url links,
     Checked.extract_links ip_address base_url BeautifulSoup content page_url
     = Some links →
     ∀ u, u ∈ links
          ↔ ∃ link href,
              link ∈ find_all (λ n, is_tag "a" n && has_attr "href" n)
                       (BeautifulSoup content)
              ∧ get "href" link = Some href
              ∧ startswith "#" href = false
              ∧ u = normalize_identifier (UrlJoin.urljoin page_url href)
              ∧ netloc (urlparse u)
                = netloc (urlparse (self_base_url base_url)))
  ∧ (∀ base_url BeautifulSoup content page_url,
       Checked.extract_links ip_address base_url BeautifulSoup content
         page_url = None
       ↔ ∃ link href,
           link ∈ find_all (λ n, is_tag "a" n && has_attr "href" n)
                    (BeautifulSoup content)
           ∧ get "href" link = Some href
           ∧ startswith "#" href = false
           ∧ Checked.rejected ip_address base_url page_url href)
  ∧ (∀ BeautifulSoup content page_url links,
       Checked.extract_links ip_address "https://site.example.com"
         BeautifulSoup content page_url = Some links →
       "https://other.example.com/x" ∉ links)
  ∧ Checked.extract_links ip_address Docs.root Docs.BeautifulSoup "guide"
      Docs.guide
    = Some {[ "https://site.example.com/docs/guide/setup";
              "https://site.example.com/docs/api";
              "https://site.example.com/top";
              "https://site.example.com/docs/guide/intro";
              "https://site.example.com/faq" ]}.
Proof.
  split; [|split; [|split]].
  - intros base_url parse content page_url links Hl u.
    apply CheckedFacts.extract_links_value in Hl as [-> _].
    rewrite AstroFacts.elem_of_extract_links.
    unfold Claimed.link_target. split.
    + intros (link & Hin & href & Hrest). exists link, href. tauto.
    + intros (link & href & Hin & Hrest). exists link. split; [done|].
      exists href. tauto.
  - intros. apply CheckedFacts.extract_links_none.
  - intros parse content page_url links Hl Hin.
    apply CheckedFacts.extract_links_value in Hl as [-> _].
    apply AstroFacts.elem_of_extract_links in Hin as (link & _ & href & H).
    destruct H as (_ & _ & _ & Hhost). vm_compute in Hhost. discriminate.
  - refine (bool_decide_eq_true_1 _ _). by vm_compute.
Qed.

(* ===================================================================== *)
(** ** The end of the crawl *)
(* ===================================================================== *)

(** X15: on a site with finitely many pages (the normal forms of the
    URLs that can be fetched lie in a finite set) the loop of
    [get_identifiers] cannot run forever, whatever the links are,
    whichever URL [pop] returns and from whatever state it starts: a run
    comes to a state with nothing pending or to a turn that raises the
    [ValueError] of the URL library; and when the library accepts the
    pending URLs and the links of every page, it comes to a state with
    nothing pending and no turn raises. *)
Theorem crawl_terminates_on_finite_site
    (ip_address : string → option Checked.ip_kind)
    (base_url : string) (fetch_content : string → option string)
    (BeautifulSoup : string → node) (site : gset string) (st : frontier) :
  (∀ url content,
     BaseParser.truthy (fetch_content url) = Some content →
     normalize_identifier url ∈ site) →
  let turn :=
    Checked.crawl_step ip_address base_url fetch_content BeautifulSoup in
  let raises :=
    Checked.raises ip_address base_url fetch_content BeautifulSoup in
  sn turn st
  ∧ (∃ st', rtc turn st st' ∧ (urls_to_process st' = ∅ ∨ raises st'))
  ∧ (Checked.parsed ip_address st →
     (∀ url content,
        BaseParser.truthy (fetch_content url) = Some content →
        is_Some (Checked.extract_links ip_address base_url BeautifulSoup
                   content url)) →
     (∃ st', rtc turn st st' ∧ urls_to_process st' = ∅)
     ∧ ∀ st', rtc turn st st' → ¬ raises st').
Proof.
  intros Hsite turn raises.
  assert (sn (crawl_step base_url fetch_content BeautifulSoup) st) as Hsn.
  { by eapply DriverFacts.crawl_sn_any. }
  assert (sn turn st) as Hsn' by (by apply CheckedFacts.sn_value).
  split; [done|]. split; [by apply CheckedFacts.finishes_or_raises|].
  intros Hparsed Hpages. split.
  - destruct (CrawlFacts.sn_finishes _ _ _ _ Hsn) as (st' & Hrun & Hdone).
    exists st'. split; [|done]. by apply CheckedFacts.rtc_returns.
  - intros st' Hrun. apply CheckedFacts.never_raises; [done|].
    by eapply CheckedFacts.parsed_rtc.
Qed.

(** The cyclic site, from a state in which a foreign URL is pending. *)
Lemma crawl_terminates_witness :
  sn (Checked.crawl_step Docs.ip_address Site.root Site.cyclic
        Site.BeautifulSoup)
    (mkFrontier ∅ {[ Site.root; "https://other.example.com/x" ]} []).
Proof.
  refine (proj1 (crawl_terminates_on_finite_site Docs.ip_address Site.root
                   Site.cyclic Site.BeautifulSoup
                   {[ Site.A; Site.B; Site.C ]} _ _)).
  intros url content. unfold Site.cyclic.
  destruct (String.eqb_spec url Site.A) as [->|_];
    [intros _; vm_compute; set_solver|].
  destruct (String.eqb_spec url Site.B) as [->|_];
    [intros _; vm_compute; set_solver|].
  destruct (String.eqb_spec url Site.C) as [->|_];
    [intros _; vm_compute; set_solver|].
  discriminate.
Defined.

(** X22: when the page of the root holds a link that the URL library
    rejects, [get_identifiers] raises in its first turn and does not
    return, whatever else the site holds. *)
Theorem rejected_link_ends_the_crawl
    (ip_address : string → option Checked.ip_kind)
    (base_url : string) (fetch_content : string → option string)
    (BeautifulSoup : string → node) (content : string) :
  BaseParser.truthy (fetch_content (self_base_url base_url)) = Some content →
  Checked.extract_links ip_address base_url BeautifulSoup content
    (self_base_url base_url) = None →
  Checked.raises ip_address base_url fetch_content BeautifulSoup
    (crawl_start base_url)
  ∧ ∀ ids reqs,
      ¬ Checked.get_identifiers ip_address base_url fetch_content
          BeautifulSoup ids reqs.
Proof.
  intros Hc Hl.
  assert (Checked.visit ip_address base_url fetch_content BeautifulSoup
            (self_base_url base_url) (crawl_start base_url) = None) as Hgo.
  { unfold Checked.visit.
    destruct (Checked.normalize_identifier _ _); [|done].
    rewrite bool_decide_eq_false_2 by apply not_elem_of_empty.
    by rewrite Hc, Hl. }
  split.
  - exists (self_base_url base_url). split; [|done].
    simpl. by apply elem_of_singleton.
  - intros ids reqs (st & Hrun & Hdone & _).
    inversion Hrun as [|a b c (url & Hin & Hstep) _]; subst.
    + simpl in Hdone.
      assert (self_base_url base_url ∈ (∅ : gset string)) as Hin
        by (rewrite <- Hdone; by apply elem_of_singleton).
      by apply not_elem_of_empty in Hin.
    + simpl in Hin. apply elem_of_singleton in Hin as ->. congruence.
Qed.

(** The site whose root holds the destinations [/b] and [http://[]. *)
Lemma rejected_link_witness :
  Checked.extract_links Docs.ip_address Docs.root Docs.BeautifulSoup
    "bad link" (self_base_url Docs.root) = None
  ∧ ∀ ids reqs,
      ¬ Checked.get_identifiers Docs.ip_address Docs.root Docs.bad
          Docs.BeautifulSoup ids reqs.
Proof.
  split; [reflexivity|].
  exact (proj2 (rejected_link_ends_the_crawl Docs.ip_address Docs.root
                  Docs.bad Docs.BeautifulSoup "bad link" eq_refl eq_refl)).
Defined.

(* ===================================================================== *)
(** ** The crawl of a finite site *)
(* ===================================================================== *)




(* ===================================================================== *)
(** ** A page without a content region *)
(* ===================================================================== *)

(** C4: when no selector of the policy matches, [process_content] of
    either parser returns failure, leaves the files as they are and does
    not touch the metadata; the turn of the driver for that identifier
    returns with the flag down, the identifier recorded as processed, one
    request made and no file written; the loop then goes on with the
    remaining identifiers, each handled by the same turn, and returns
    unless the URL library rejects one of them; at the end the flag is
    still down and every remaining identifier that can be fetched is
    recorded as processed. *)
Theorem extraction_failure_is_recoverable
    (ip_address : string → option Checked.ip_kind)
    (output_dir : string) (fetch_content : string → option string)
    (BeautifulSoup : string → node) (md : node → option string)
    (writable : string → bool)
    (st : BaseParser.driver) (identifier content : string)
    (rest : list string) :
  fetch_content identifier = Some content →
  nonempty content = true →
  normalize_identifier identifier ∉ BaseParser.processed_items st →
  is_Some (Checked.urlparse ip_address identifier) →
  let failed :=
    BaseParser.mkDriver false
      ({[ normalize_identifier identifier ]} ∪ BaseParser.processed_items st)
      (BaseParser.fs st)
      (BaseParser.fetched st ++ [identifier])%list in
  let recovers := λ process,
    Checked.collect_one ip_address fetch_content process st identifier
    = Some failed
    ∧ Checked.collect_loop ip_address fetch_content process
        (identifier :: rest) st
      = (if forallb (λ i, bool_decide
                            (is_Some (Checked.urlparse ip_address i))) rest
         then Some (fold_left
                      (BaseParser.collect_one fetch_content process
                         normalize_identifier) rest failed)
         else None)
    ∧ (∀ final,
         Checked.collect_loop ip_address fetch_content process
           (identifier :: rest) st = Some final →
         BaseParser.success final = false
         ∧ ∀ r, r ∈ rest → Claimed.fetchable fetch_content r →
                normalize_identifier r ∈ BaseParser.processed_items final) in
  (AstroParser.content_region (BeautifulSoup content) = None →
   (∀ metadata fs,
      AstroParser.process_content output_dir BeautifulSoup md writable
        content metadata fs = (mkOutcome false fs, metadata))
   ∧ recovers (λ c m f, fst (AstroParser.process_content output_dir
                               BeautifulSoup md writable c m f)))
  ∧ (VuePressParser.content_region (BeautifulSoup content) = None →
     (∀ metadata fs,
        VuePressParser.process_content output_dir BeautifulSoup md writable
          content metadata fs = (mkOutcome false fs, metadata))
     ∧ recovers (λ c m f, fst (VuePressParser.process_content output_dir
                                 BeautifulSoup md writable c m f))).
Proof.
  intros Hfetch Hcontent Hnew Hok failed recovers.
  assert (Hgen : ∀ process,
            (∀ metadata fs, process content metadata fs = mkOutcome false fs) →
            recovers process).
  { intros process Hproc.
    assert (Hone : BaseParser.collect_one fetch_content process
                     normalize_identifier st identifier = failed).
    { unfold BaseParser.collect_one. rewrite bool_decide_eq_false_2 by done.
      rewrite Hfetch. simpl BaseParser.truthy. rewrite Hcontent.
      by rewrite Hproc. }
    assert (Hloop : Checked.collect_loop ip_address fetch_content process
                      (identifier :: rest) st
                    = if forallb (λ i, bool_decide
                                         (is_Some (Checked.urlparse
                                                     ip_address i))) rest
                      then Some (fold_left
                                   (BaseParser.collect_one fetch_content
                                      process normalize_identifier)
                                   rest failed)
                      else None).
    { rewrite CheckedFacts.collect_loop_spec. cbn [forallb].
      rewrite bool_decide_eq_true_2 by done. cbn [andb].
      unfold BaseParser.collect_loop. cbn [fold_left]. by rewrite Hone. }
    split; [|split; [exact Hloop|]].
    - rewrite CheckedFacts.collect_one_returns by done. by rewrite Hone.
    - intros final. rewrite Hloop. destruct (forallb _ rest); [|done].
      intros [= <-]. split.
      + by apply AstroFacts.collect_loop_failed.
      + intros r Hr Hf. by apply DriverFacts.collect_loop_processed. }
  split; intros Hregion.
  - assert (Hproc : ∀ metadata fs,
              AstroParser.process_content output_dir BeautifulSoup md
                writable content metadata fs = (mkOutcome false fs, metadata)).
    { intros. unfold AstroParser.process_content. by rewrite Hregion. }
    split; [exact Hproc|]. apply Hgen. intros. by rewrite Hproc.
  - assert (Hproc : ∀ metadata fs,
              VuePressParser.process_content output_dir BeautifulSoup md
                writable content metadata fs = (mkOutcome false fs, metadata)).
    { intros. unfold VuePressParser.process_content. by rewrite Hregion. }
    split; [exact Hproc|]. apply Hgen. intros. by rewrite Hproc.
Qed.

(** A page without a content region, then a page with one: the first
    lowers the flag and writes nothing, the second is saved. *)
Lemma extraction_failure_witness :
  Docs.mixed Docs.guide = Some "plain"
  ∧ AstroParser.content_region (Docs.BeautifulSoup "plain") = None
  ∧ Checked.collect_loop Docs.ip_address Docs.mixed
      (λ c m f, fst (AstroParser.process_content Site.output_dir
                       Docs.BeautifulSoup Site.md Site.writable c m f))
      [Docs.guide; Docs.setup] (BaseParser.mkDriver true ∅ ∅ [])
    = Some (BaseParser.mkDriver false {[ Docs.guide; Docs.setup ]}
              {[ "output_markdown/docs_guide_setup.md"
                 := "Source: https://site.example.com/docs/guide/setup"
                    ++ nl ++ nl ++ "steps" ]}
              [Docs.guide; Docs.setup]).
Proof.
  split; [reflexivity|]. split; [reflexivity|].
  destruct (proj1 (extraction_failure_is_recoverable Docs.ip_address
                     Site.output_dir Docs.mixed Docs.BeautifulSoup Site.md
                     Site.writable (BaseParser.mkDriver true ∅ ∅ [])
                     Docs.guide "plain" [Docs.setup]
                     eq_refl eq_refl (not_elem_of_empty _)
                     (ex_intro _ _ eq_refl)) eq_refl)
    as (_ & _ & Hloop & _).
  rewrite Hloop. vm_compute. reflexivity.
Defined.

(* ===================================================================== *)
(** ** The title and the saved text *)
(* ===================================================================== *)

(** C10, as stated, fails: two documents that differ only in the content
    of the title element need not have the same content region.  When
    the title of the second holds a [main] element, that element comes
    first in the document and is selected, and the file holds its text
    and not the text of the body. *)
Lemma title_markup_changes_the_file :
  ¬ (∀ c1 c2 metadata fs,
       Titles.blank_titles (Docs.BeautifulSoup c1)
       = Titles.blank_titles (Docs.BeautifulSoup c2) →
       fst (process_content Site.output_dir Docs.BeautifulSoup Site.md
              Site.writable c1 metadata fs)
       = fst (process_content Site.output_dir Docs.BeautifulSoup Site.md
                Site.writable c2 metadata fs)).
Proof.
  intros H.
  specialize (H "title with text" "title with markup"
                {[ "identifier" := Docs.root ]} ∅ eq_refl).
  apply (f_equal (λ r, files r !! "output_markdown/index.md")) in H.
  vm_compute in H. discriminate H.
Qed.

(** C10, amended: for two documents that differ only in the content of
    title elements, where the titles hold text only and the selected
    content region holds no title, and for the same identifier,
    [process_content] selects the same region and gives the same result
    and the same files; the title goes to the [title] entry of the
    metadata. *)
Theorem saved_text_independent_of_title
    (output_dir : string) (BeautifulSoup : string → node)
    (md : node → option string) (writable : string → bool)
    (c1 c2 : string) (m1 m2 fs : gmap string string) :
  Titles.blank_titles (BeautifulSoup c1)
  = Titles.blank_titles (BeautifulSoup c2) →
  Titles.plain_titles (BeautifulSoup c1) = true →
  Titles.plain_titles (BeautifulSoup c2) = true →
  (∀ div, content_region (BeautifulSoup c1) = Some div →
          Titles.title_free div = true) →
  m1 !! "identifier" = m2 !! "identifier" →
  content_region (BeautifulSoup c1) = content_region (BeautifulSoup c2)
  ∧ fst (process_content output_dir BeautifulSoup md writable c1 m1 fs)
    = fst (process_content output_dir BeautifulSoup md writable c2 m2 fs)
  ∧ (∀ t, is_Some (content_region (BeautifulSoup c1)) →
          find (is_tag "title") (BeautifulSoup c1) = Some t →
          snd (process_content output_dir BeautifulSoup md writable c1 m1 fs)
            !! "title" = Some (strip_ws (text t))).
Proof.
  intros Hsame Hp1 Hp2 Hfree Hid.
  assert (content_region (BeautifulSoup c1)
          = content_region (BeautifulSoup c2)) as Hregion
    by (by apply TitleFacts.astro_region_same).
  split; [done|]. unfold process_content. rewrite Hregion, Hid. split.
  - destruct (content_region (BeautifulSoup c2)) as [div|]; [|done].
    simpl fst. unfold BaseContentSplitter.process_content.
    rewrite !(lookup_insert_ne _ "site_type" "url") by done.
    rewrite !lookup_insert_eq. reflexivity.
  - intros t [div Hdiv] Ht. rewrite Hdiv, Ht.
    simpl snd. rewrite lookup_insert_ne by done.
    rewrite lookup_insert_ne by done. by rewrite lookup_insert_eq.
Qed.

(** Two documents with the titles [One] and [Two] and the same body give
    the same file. *)
Lemma saved_text_witness :
  Titles.blank_titles (Site.BeautifulSoup "first title")
  = Titles.blank_titles (Site.BeautifulSoup "second title")
  ∧ fst (process_content Site.output_dir Site.BeautifulSoup Site.md
           Site.writable "first title" {[ "identifier" := Site.A ]} ∅)
    = fst (process_content Site.output_dir Site.BeautifulSoup Site.md
             Site.writable "second title" {[ "identifier" := Site.A ]} ∅).
Proof.
  split; [reflexivity|].
  refine (proj1 (proj2 (saved_text_independent_of_title Site.output_dir
                          Site.BeautifulSoup Site.md Site.writable
                          "first title" "second title"
                          {[ "identifier" := Site.A ]}
                          {[ "identifier" := Site.A ]} ∅
                          eq_refl eq_refl eq_refl _ eq_refl))).
  intros div Hdiv. vm_compute in Hdiv. injection Hdiv as <-. reflexivity.
Defined.
